(** * Tokopedia sales dashboard (UTS.py): preparation, filters and aggregates

    A shallow embedding of the data pipeline of [src/UTS.py]: the cached
    loader [load_data], the sidebar filter block that builds [df_f], the
    monthly aggregation [monthly_metrics], the product rollup [prod_agg]
    and the "mobile & tablet via JazzWallet" query [df_mobile_jazz]; then
    the options and defaults of the sidebar ([years], [default_year],
    [text_options]), the scorecards of the two tabs ([tab1], [kpis]), the
    category chart [cat_agg] and the chart of the query [mob_month].

    A pandas [DataFrame] is modelled column-wise, as the code uses it: a
    list of row labels and a finite map from column names to columns of
    equal length.  Cells are missing values, numbers, text or timestamps.
    Numbers are exact rationals ([Qc]).  float64 computes the same values
    where no operation rounds; a property that compares totals added up in
    different orders says so in a hypothesis, see [exact_amounts].
    Infinities only appear where the code creates them, in the division
    that defines the monthly AOV: a cell of the file that reads as an
    infinity is outside the model.  Text is a string of UTF-8 bytes:
    [str.strip] takes off the white space of Unicode, [str.lower] is the
    one of ASCII.  The headers of a file are text, and the model keeps one
    column per stripped header, which is what pandas has when the headers
    stay distinct, see [distinct_headers].

    What pandas leaves to its parsers and formatters (how a text cell is
    read as a number or a date, how a number prints) is a parameter of the
    development, see [Coercions]; the unstable sort behind [sort_values] is
    a parameter too, see [Sorter], and what the properties need of it is
    the contract [sorts_descending]. *)

From Stdlib Require Import QArith Qcanon Ascii String.
From stdpp Require Import base option list sorting gmap strings numbers.

Local Open Scope string_scope.

(** ** Cells *)

Inductive Month :=
  Jan | Feb | Mar | Apr | May | Jun | Jul | Aug | Sep | Oct | Nov | Dec.

Definition month_number (m : Month) : Z :=
  match m with
  | Jan => 1 | Feb => 2 | Mar => 3 | Apr => 4 | May => 5 | Jun => 6
  | Jul => 7 | Aug => 8 | Sep => 9 | Oct => 10 | Nov => 11 | Dec => 12
  end.

(** A [pd.Timestamp]: calendar date and the nanoseconds since midnight. *)
Record Timestamp := {
  ts_year : Z;
  ts_month : Month;
  ts_day : Z;
  ts_nanos : Z;
}.

Inductive cell :=
  | NaN                  (* NaN, None and NaT: what [isna] reports *)
  | Num (q : Qc)
  | Str (s : string)
  | Ts (t : Timestamp).

Global Instance Month_eq_dec : EqDecision Month.
Proof. solve_decision. Defined.
Global Instance Timestamp_eq_dec : EqDecision Timestamp.
Proof. solve_decision. Defined.
Global Instance cell_eq_dec : EqDecision cell.
Proof. solve_decision. Defined.

Definition notna (c : cell) : bool :=
  match c with NaN => false | _ => true end.

(** The value of a float division whose divisor may be zero. *)
Inductive float :=
  | Finite (q : Qc)
  | Infinity (negative : bool)
  | NotANumber.

Global Instance float_eq_dec : EqDecision float.
Proof. solve_decision. Defined.

(** [int(x)] on a finite float: truncation toward zero.  [astype(int)]
    does the same within the range of [int64], see [int64_of_float]. *)
Definition trunc (q : Qc) : Z := Z.quot (Qnum q) (Zpos (Qden q)).

(** ** Errors *)

Inductive error :=
  | KeyError (key : string)
  | TypeError (what : string).

Inductive result (A : Type) :=
  | Ok (a : A)
  | Raise (e : error).
Arguments Ok {A} a.
Arguments Raise {A} e.

Global Instance result_ret : MRet result := λ A a, Ok a.
Global Instance result_bind : MBind result := λ A B f r,
  match r with Ok a => f a | Raise e => Raise e end.
Global Instance result_fmap : FMap result := λ A B f r,
  match r with Ok a => Ok (f a) | Raise e => Raise e end.

Global Instance error_eq_dec : EqDecision error.
Proof. solve_decision. Defined.
Global Instance result_eq_dec `{EqDecision A} : EqDecision (result A).
Proof. solve_decision. Defined.

(** ** Text *)

(** One code point of the white space of [str.isspace] at the start of
    [s], in UTF-8, and what follows it: U+0009-000D, U+001C-0020, U+0085,
    U+00A0, U+1680, U+2000-200A, U+2028, U+2029, U+202F, U+205F, U+3000. *)
Definition space_prefix (s : string) : option string :=
  match s with
  | String a s1 =>
      let n := nat_of_ascii a in
      if ((9 <=? n)%nat && (n <=? 13)%nat) || ((28 <=? n)%nat && (n <=? 32)%nat)
      then Some s1
      else
        match s1 with
        | String b s2 =>
            let m := nat_of_ascii b in
            if (n =? 194)%nat && ((m =? 133)%nat || (m =? 160)%nat)
            then Some s2
            else
              match s2 with
              | String c s3 =>
                  let k := nat_of_ascii c in
                  if ((n =? 225)%nat && (m =? 154)%nat && (k =? 128)%nat)
                     || ((n =? 226)%nat && (m =? 128)%nat
                         && (((128 <=? k)%nat && (k <=? 138)%nat)
                             || (k =? 168)%nat || (k =? 169)%nat
                             || (k =? 175)%nat))
                     || ((n =? 226)%nat && (m =? 129)%nat && (k =? 159)%nat)
                     || ((n =? 227)%nat && (m =? 128)%nat && (k =? 128)%nat)
                  then Some s3
                  else None
              | EmptyString => None
              end
        | EmptyString => None
        end
  | EmptyString => None
  end.

(** [str.lstrip()], with the length of the text as fuel. *)
Fixpoint lstrip_from (fuel : nat) (s : string) : string :=
  match fuel with
  | O => s
  | S fuel' =>
      match space_prefix s with
      | Some r => lstrip_from fuel' r
      | None => s
      end
  end.

Definition lstrip (s : string) : string := lstrip_from (String.length s) s.

(** The text is white space from end to end. *)
Definition all_space (s : string) : bool :=
  bool_decide (lstrip s = EmptyString).

(** [str.rstrip()]: the text up to its trailing white space. *)
Fixpoint rstrip (s : string) : string :=
  match s with
  | String a s' => if all_space s then EmptyString else String a (rstrip s')
  | EmptyString => EmptyString
  end.

Definition strip (s : string) : string := rstrip (lstrip s).

(** The text is a run of white space code points. *)
Inductive spaces : string → Prop :=
  | spaces_nil : spaces EmptyString
  | spaces_cons s r : space_prefix s = Some r → spaces r → spaces s.

(** [s] has no white space at its end. *)
Definition no_space_suffix (s : string) : Prop :=
  ∀ p w, s = p +:+ w → spaces w → w = EmptyString.

Definition lower_ascii (a : ascii) : ascii :=
  let n := nat_of_ascii a in
  if ((65 <=? n)%nat && (n <=? 90)%nat)%bool then ascii_of_nat (n + 32) else a.

Fixpoint lower (s : string) : string :=
  match s with
  | String a s' => String (lower_ascii a) (lower s')
  | EmptyString => EmptyString
  end.

(** [str.contains] with a literal pattern: some suffix starts with it. *)
Fixpoint contains (pat s : string) : bool :=
  String.prefix pat s ||
  match s with
  | String _ s' => contains pat s'
  | EmptyString => false
  end.

Definition digit (n : nat) : ascii := ascii_of_nat (48 + n mod 10).

(** [n] written with [width] decimal digits, zero padded. *)
Fixpoint zero_padded (width n : nat) : string :=
  match width with
  | O => EmptyString
  | S w => zero_padded w (n / 10) ++ String (digit n) EmptyString
  end.

(** [strftime('%Y-%m')]; pandas timestamps have four-digit years. *)
Definition strftime_Ym (t : Timestamp) : string :=
  zero_padded 4 (Z.to_nat (ts_year t)) ++ "-" ++
  zero_padded 2 (Z.to_nat (month_number (ts_month t))).

(** ** Series and frames *)

(** A frame: the row labels and the columns, each as long as the index. *)
Record DataFrame := {
  index : list cell;
  columns : gmap string (list cell);
}.

(** The right-hand side of [df[c] = ...]: a column or a broadcast scalar,
    which is what [df.get(c, 0)] returns when the column is absent. *)
Inductive operand :=
  | Scalar (c : cell)
  | Column (s : list cell).

(** [s[mask]]: keep the positions where the mask holds. *)
Fixpoint mask_select {A} (m : list bool) (s : list A) : list A :=
  match m, s with
  | b :: m', x :: s' => if b then x :: mask_select m' s' else mask_select m' s'
  | _, _ => []
  end.

(** [df[c]] raises [KeyError] on an absent column. *)
Definition getitem (df : DataFrame) (c : string) : result (list cell) :=
  match columns df !! c with
  | Some s => Ok s
  | None => Raise (KeyError c)
  end.

(** [df.get(c, default)] *)
Definition get (df : DataFrame) (c : string) (default : cell) : operand :=
  match columns df !! c with
  | Some s => Column s
  | None => Scalar default
  end.

(** [c in df.columns] *)
Definition has_column (df : DataFrame) (c : string) : bool :=
  bool_decide (is_Some (columns df !! c)).

Definition broadcast (df : DataFrame) (v : operand) : list cell :=
  match v with
  | Column s => s
  | Scalar x => replicate (length (index df)) x
  end.

(** [df[c] = v] *)
Definition setitem (df : DataFrame) (c : string) (v : operand) : DataFrame :=
  {| index := index df; columns := <[c := broadcast df v]> (columns df) |}.

(** [df[mask]] *)
Definition loc_mask (df : DataFrame) (m : list bool) : DataFrame :=
  {| index := mask_select m (index df);
     columns := mask_select m <$> columns df |}.

(** [df.empty]: no rows or no columns. *)
Definition empty_frame (df : DataFrame) : bool :=
  bool_decide (index df = []) || bool_decide (columns df = ∅).

(** [df.columns = df.columns.str.strip()] *)
Definition strip_columns (df : DataFrame) : DataFrame :=
  {| index := index df; columns := kmap strip (columns df) |}.

(** Arithmetic on numeric cells; [NaN] propagates.  The program applies it
    to columns that went through [to_numeric(...).fillna(0)] and to the
    scalar [0] only, so the operands are numbers. *)
Definition cell_binop (f : Qc → Qc → Qc) (a b : cell) : cell :=
  match a, b with
  | Num x, Num y => Num (f x y)
  | _, _ => NaN
  end.

Definition binop (f : Qc → Qc → Qc) (a b : operand) : operand :=
  match a, b with
  | Column s, Column t => Column (zip_with (cell_binop f) s t)
  | Column s, Scalar y => Column ((λ x, cell_binop f x y) <$> s)
  | Scalar x, Column t => Column (cell_binop f x <$> t)
  | Scalar x, Scalar y => Scalar (cell_binop f x y)
  end.

Definition sub := binop Qcminus.
Definition mul := binop Qcmult.

(** [s == v] *)
Definition series_eq (s : list cell) (v : cell) : list bool :=
  (λ c, bool_decide (c = v)) <$> s.

(** [s.fillna(0)] on a float column, [None] being NaN. *)
Definition fillna0 (s : list (option Qc)) : list Qc := default 0%Qc <$> s.

(** [s.astype(int)] on a float column without NaN: the cast to [int64]
    truncates toward zero; for a value outside the range of [int64] the
    cast (as numpy does it on x86-64) yields the smallest integer. *)
Definition int64_min : Z := (- 2 ^ 63)%Z.
Definition int64_max : Z := (2 ^ 63 - 1)%Z.

Definition int64_of_float (q : Qc) : Z :=
  if decide (int64_min ≤ trunc q ≤ int64_max)%Z then trunc q else int64_min.

Definition astype_int (s : list Qc) : list Z := int64_of_float <$> s.

Definition float_column (s : list Qc) : list cell := Num <$> s.
Definition int_column (s : list Z) : list cell := (λ z, Num (Qc_of_Z z)) <$> s.

(** [s.dt.year], [s.dt.month] and [s.dt.strftime('%Y-%m')] on a datetime
    column: NaT gives NaN. *)
Definition dt_year (s : list cell) : list cell :=
  (λ c, match c with Ts t => Num (Qc_of_Z (ts_year t)) | _ => NaN end) <$> s.
Definition dt_month (s : list cell) : list cell :=
  (λ c, match c with
        | Ts t => Num (Qc_of_Z (month_number (ts_month t)))
        | _ => NaN
        end) <$> s.
Definition dt_strftime_Ym (s : list cell) : list cell :=
  (λ c, match c with Ts t => Str (strftime_Ym t) | _ => NaN end) <$> s.

(** [s.nunique()]: the distinct values, missing ones left out. *)
Definition dropna (s : list cell) : list cell := filter (λ c, c ≠ NaN) s.
Definition nunique (s : list cell) : nat := length (remove_dups (dropna s)).

(** [s.sum()] of a numeric column: missing values are skipped; a column
    holding text or dates is not summed here. *)
Fixpoint series_sum (s : list cell) : result Qc :=
  match s with
  | [] => Ok 0%Qc
  | NaN :: s' => series_sum s'
  | Num q :: s' => t ← series_sum s'; Ok (q + t)%Qc
  | _ :: _ => Raise (TypeError "sum")
  end.

(** [a / n] for a float [a] and a count [n]: numpy's true division, which
    yields an infinity or NaN for a zero divisor and does not raise. *)
Definition truediv (a : Qc) (n : nat) : float :=
  if decide (n = 0%nat) then
    if decide (a = 0%Qc) then NotANumber
    else Infinity (bool_decide (a < 0)%Qc)
  else Finite (a / Qc_of_Z (Z.of_nat n))%Qc.

(** ** Ordering of group keys *)

Definition Timestamp_leb (a b : Timestamp) : bool :=
  let ka := (ts_year a, month_number (ts_month a), ts_day a, ts_nanos a) in
  let kb := (ts_year b, month_number (ts_month b), ts_day b, ts_nanos b) in
  match ka, kb with
  | (y1, m1, d1, n1), (y2, m2, d2, n2) =>
      (y1 <? y2)%Z || ((y1 =? y2)%Z &&
        ((m1 <? m2)%Z || ((m1 =? m2)%Z &&
          ((d1 <? d2)%Z || ((d1 =? d2)%Z && (n1 <=? n2)%Z)))))
  end.

(** Sorted keys: numbers, then dates, then text, missing values last. *)
Definition cell_rank (c : cell) : nat :=
  match c with Num _ => 0 | Ts _ => 1 | Str _ => 2 | NaN => 3 end.

Definition cell_leb (a b : cell) : bool :=
  match a, b with
  | Num x, Num y => bool_decide (x ≤ y)%Qc
  | Ts x, Ts y => Timestamp_leb x y
  | Str x, Str y => String.leb x y
  | _, _ => (cell_rank a <=? cell_rank b)%nat
  end.

Definition cell_le (a b : cell) : Prop := cell_leb a b.

(** Tuples of keys compare level by level. *)
Definition key3 : Type := cell * cell * cell.

Definition key3_leb (a b : key3) : bool :=
  match a, b with
  | (a1, a2, a3), (b1, b2, b3) =>
      if decide (a1 = b1) then
        if decide (a2 = b2) then cell_leb a3 b3 else cell_leb a2 b2
      else cell_leb a1 b1
  end.

Definition key3_le (a b : key3) : Prop := key3_leb a b.

(** ** Grouping *)

(** The rows of group [k], as a mask; [s[group_mask keys k]] is the part of
    column [s] a [SeriesGroupBy] hands to the aggregation. *)
Definition group_mask {K : Type} `{EqDecision K}
    (keys : list (option K)) (k : K) : list bool :=
  (λ x, bool_decide (x = Some k)) <$> keys.

Section groupby.
Context {K : Type} `{EqDecision K}.
Context (le : relation K) `{∀ x y, Decision (le x y)}.

(** The group keys of [groupby(..., sort=True, dropna=True)]: rows with a
    missing key ([None]) belong to no group; keys come out sorted. *)
Definition group_keys (keys : list (option K)) : list K :=
  merge_sort le (remove_dups (omap id keys)).

(** The groups, each with the rows of the frame it holds. *)
Definition groupby (df : DataFrame) (keys : list (option K))
    : list (K * DataFrame) :=
  (λ k, (k, loc_mask df (group_mask keys k))) <$> group_keys keys.
End groupby.

(** [mapM] for [result], by recursion on the list. *)
Fixpoint traverse {A B} (f : A → result B) (l : list A) : result (list B) :=
  match l with
  | [] => Ok []
  | x :: l' => y ← f x; ys ← traverse f l'; Ok (y :: ys)
  end.

(** [left.join(right)] on the index: the right value under the same key,
    or none (pandas fills NaN) when the key is absent on the right. *)
Definition lookup_key {K A} `{EqDecision K} (k : K) (r : list (K * A))
    : option A :=
  snd <$> head (filter (λ p, p.1 = k) r).

(** ** What pandas' parsers and formatters decide

    [pd.to_numeric] and [pd.to_datetime] with [errors='coerce'] read text
    (and cells of the other kind) through parsers that are not part of
    this program; [astype(str)] prints numbers and dates.  Missing cells
    stay missing, numbers stay numbers, dates stay dates.  A number is a
    finite one: a text that reads as an infinity has no value here. *)
Class Coercions := {
  numeric_of_string : string → option Qc;
  numeric_of_timestamp : Timestamp → option Qc;
  datetime_of_string : string → option Timestamp;
  datetime_of_number : Qc → option Timestamp;
  string_of_number : Qc → string;
  string_of_timestamp : Timestamp → string;
}.

(** [sort_values(by, ascending=False)] computes an indexer with numpy's
    default [quicksort], which is not stable; how it orders equal values
    is not part of this program. *)
Class Sorter := {
  argsort_desc : list Qc → list nat;
}.

(** All that is known of the indexer: it permutes the positions and lists
    the values from the largest down. *)
Definition sorts_descending (S : Sorter) : Prop :=
  ∀ l : list Qc,
    argsort_desc l ≡ₚ seq 0 (length l) ∧
    ∀ i j x y,
      (i ≤ j)%nat →
      (argsort_desc l !! i) ≫= (l !!.) = Some x →
      (argsort_desc l !! j) ≫= (l !!.) = Some y →
      (y ≤ x)%Qc.

(** [rows.take(indexer)] *)
Definition take_rows {A} (indexer : list nat) (rows : list A) : list A :=
  omap (rows !!.) indexer.

Section coercions.
Context `{Coercions}.

  (** [pd.to_numeric(s, errors='coerce')]: a float column, [None] = NaN. *)
Definition to_numeric_cell (c : cell) : option Qc :=
    match c with
    | NaN => None
    | Num q => Some q
    | Str s => numeric_of_string s
    | Ts t => numeric_of_timestamp t
    end.
Definition to_numeric (s : list cell) : list (option Qc) :=
    to_numeric_cell <$> s.

  (** [pd.to_datetime(s, errors='coerce')]: a datetime column, NaT = NaN. *)
Definition to_datetime_cell (c : cell) : cell :=
    match c with
    | NaN => NaN
    | Ts t => Ts t
    | Str s => from_option Ts NaN (datetime_of_string s)
    | Num q => from_option Ts NaN (datetime_of_number q)
    end.
Definition to_datetime (s : list cell) : list cell :=
    to_datetime_cell <$> s.

  (** [s.astype(str)] *)
Definition astype_str_cell (c : cell) : string :=
    match c with
    | NaN => "nan"
    | Str s => s
    | Num q => string_of_number q
    | Ts t => string_of_timestamp t
    end.
Definition astype_str (s : list cell) : list string :=
    astype_str_cell <$> s.
End coercions.

(** ** The program *)

Section program.
Context `{Coercions}.

Definition zero : cell := Num 0%Qc.

Definition numeric_columns : list string :=
    ["price"; "qty_ordered"; "before_discount"; "discount_amount";
     "after_discount"; "cogs"].

  (** [df[c] = pd.to_numeric(df[c], errors='coerce').fillna(0)] when [c] is
      a column of [df]. *)
Definition coerce_numeric (df : DataFrame) (c : string) : DataFrame :=
    match columns df !! c with
    | Some s => setitem df c (Column (float_column (fillna0 (to_numeric s))))
    | None => df
    end.

  (** [load_data], from the frame [pd.read_excel] returned. *)
Definition load_data (raw : DataFrame) : result DataFrame :=
    let df := strip_columns raw in
    (* parse dates *)
    order_date ← getitem df "order_date";
    let df := setitem df "order_date" (Column (to_datetime order_date)) in
    let df :=
      match columns df !! "registered_date" with
      | Some s => setitem df "registered_date" (Column (to_datetime s))
      | None => df
      end in
    (* numeric conversions *)
    let df := foldl coerce_numeric df numeric_columns in
    (* computed fields *)
    df ←
      (if forallb (has_column df) ["before_discount"; "cogs"; "qty_ordered"]
       then
         before_discount ← getitem df "before_discount";
         cogs ← getitem df "cogs";
         qty_ordered ← getitem df "qty_ordered";
         Ok (setitem df "net_profit"
               (sub (Column before_discount)
                    (mul (Column cogs) (Column qty_ordered))))
       else
         Ok (setitem df "net_profit"
               (sub (mul (get df "price" zero) (get df "qty_ordered" zero))
                    (mul (get df "cogs" zero) (get df "qty_ordered" zero)))));
    let df :=
      match columns df !! "is_valid" with
      | Some s =>
          setitem df "is_valid"
            (Column (int_column (astype_int (fillna0 (to_numeric s)))))
      | None => df
      end in
    (* time keys *)
    order_date ← getitem df "order_date";
    let df := setitem df "year" (Column (dt_year order_date)) in
    order_date ← getitem df "order_date";
    let df := setitem df "month" (Column (dt_month order_date)) in
    order_date ← getitem df "order_date";
    let df := setitem df "month_name" (Column (dt_strftime_Ym order_date)) in
    Ok df.

  (** The sidebar selections.  The validity selectbox offers exactly three
      options. *)
Inductive ValueTransaction := AllTransactions | Valid | NotValid.

Record Criteria := {
    selected_year : Z;
    selected_category : string;
    selected_payment : string;
    value_transaction : ValueTransaction;
  }.

  (** [df_f = df_f[df_f['year'] == int(selected_year)]] *)
Definition year_filter (y : Z) (df_f : DataFrame) : result DataFrame :=
    year ← getitem df_f "year";
    Ok (loc_mask df_f (series_eq year (Num (Qc_of_Z y)))).

  (** [df_f = df_f[df_f[c].astype(str) == selected]], skipped on "All" *)
Definition text_filter (c selected : string) (df_f : DataFrame)
      : result DataFrame :=
    if decide (selected ≠ "All") then
      s ← getitem df_f c;
      Ok (loc_mask df_f ((λ x, bool_decide (x = selected)) <$> astype_str s))
    else Ok df_f.

Definition category_filter := text_filter "category".
Definition payment_filter := text_filter "payment_method".

Definition validity_filter (v : ValueTransaction) (df_f : DataFrame)
      : result DataFrame :=
    match v with
    | Valid =>
        is_valid ← getitem df_f "is_valid";
        Ok (loc_mask df_f (series_eq is_valid (Num 1%Qc)))
    | NotValid =>
        is_valid ← getitem df_f "is_valid";
        Ok (loc_mask df_f (series_eq is_valid (Num 0%Qc)))
    | AllTransactions => Ok df_f
    end.

  (** The "Apply filters" block: [df_f] from [df] and the selections. *)
Definition apply_filters (df : DataFrame) (c : Criteria)
      : result DataFrame :=
    let df_f := df in   (* df.copy() *)
    df_f ← year_filter (selected_year c) df_f;
    df_f ← category_filter (selected_category c) df_f;
    df_f ← payment_filter (selected_payment c) df_f;
    validity_filter (value_transaction c) df_f.
End program.

(** ** Aggregations *)

(** One row of [monthly_metrics].  [unique_orders] comes from a join and
    would be missing for a key absent on the right-hand side. *)
Record MonthlyRow := {
  month_name : cell;
  mm_before_discount : Qc;
  mm_net_profit : Qc;
  unique_orders : option nat;
  AOV : float;
}.

(** One row of [prod_agg]. *)
Record ProductRow := {
  sku_id : cell;
  sku_name : cell;
  category : cell;
  pa_before_discount : Qc;
  pa_after_discount : Qc;
  pa_net_profit : Qc;
  pa_qty_ordered : Qc;
  unique_customers : nat;
}.

(** The report under "Mobile & Tablet paid via JazzWallet". *)
Inductive SegmentReport :=
  | NoTransactions             (* [st.info("No Mobile & Tablet ...")] *)
  | Totals (qty_sum : Z) (uniq_cust : nat).

(** The key of a row in [groupby(c)]: a missing value is no key. *)
Definition key_of (c : cell) : option cell :=
  if notna c then Some c else None.

(** The key of a row in [groupby([a, b, c])]: missing as soon as one of the
    three values is. *)
Definition key3_of (a b c : cell) : option key3 :=
  if notna a && notna b && notna c then Some (a, b, c) else None.

Fixpoint zip3_keys (a b c : list cell) : list (option key3) :=
  match a, b, c with
  | x :: a', y :: b', z :: c' => key3_of x y z :: zip3_keys a' b' c'
  | _, _, _ => []
  end.

Section aggregations.
Context `{Coercions} `{Sorter}.

(** [df_f.groupby('month_name')['id'].nunique()] *)
Definition monthly_orders (df_f : DataFrame) : result (list (cell * nat)) :=
  by_month ← getitem df_f "month_name";
  let keys := key_of <$> by_month in
  id ← getitem df_f "id";
  Ok ((λ k, (k, nunique (mask_select (group_mask keys k) id)))
        <$> group_keys cell_le keys).

(** [df_f.groupby('month_name').agg({'before_discount':'sum',
    'net_profit':'sum'})] *)
Definition monthly_sums (df_f : DataFrame)
    : result (list (cell * (Qc * Qc))) :=
  by_month ← getitem df_f "month_name";
  let keys := key_of <$> by_month in
  before_discount ← getitem df_f "before_discount";
  net_profit ← getitem df_f "net_profit";
  traverse (λ k,
      let m := group_mask keys k in
      b ← series_sum (mask_select m before_discount);
      n ← series_sum (mask_select m net_profit);
      Ok (k, (b, n)))
    (group_keys cell_le keys).

Definition monthly_row (orders : list (cell * nat))
    (r : cell * (Qc * Qc)) : MonthlyRow :=
  let n := lookup_key r.1 orders in
  {| month_name := r.1;
     mm_before_discount := r.2.1;
     mm_net_profit := r.2.2;
     unique_orders := n;
     AOV := match n with
            | Some n => truediv r.2.1 n
            | None => NotANumber
            end |}.

Definition month_le (a b : MonthlyRow) : Prop :=
  cell_le (month_name a) (month_name b).

(** The "Monthly aggregation" block of tab 1. *)
Definition monthly_metrics (df_f : DataFrame) : result (list MonthlyRow) :=
  orders ← monthly_orders df_f;
  sums ← monthly_sums df_f;
  let joined := monthly_row orders <$> sums in
  Ok (merge_sort month_le joined).   (* sort_index() *)

(** The "Product aggregation" block of tab 2. *)
Definition prod_agg (df_f : DataFrame) : result (list ProductRow) :=
  by_sku_id ← getitem df_f "sku_id";
  by_sku_name ← getitem df_f "sku_name";
  by_category ← getitem df_f "category";
  let keys := zip3_keys by_sku_id by_sku_name by_category in
  before_discount ← getitem df_f "before_discount";
  after_discount ← getitem df_f "after_discount";
  net_profit ← getitem df_f "net_profit";
  qty_ordered ← getitem df_f "qty_ordered";
  customer_id ← getitem df_f "customer_id";
  grouped ← traverse (λ k,
      let m := group_mask keys k in
      b ← series_sum (mask_select m before_discount);
      a ← series_sum (mask_select m after_discount);
      n ← series_sum (mask_select m net_profit);
      q ← series_sum (mask_select m qty_ordered);
      Ok {| sku_id := k.1.1; sku_name := k.1.2; category := k.2;
            pa_before_discount := b; pa_after_discount := a;
            pa_net_profit := n; pa_qty_ordered := q;
            unique_customers := nunique (mask_select m customer_id) |})
    (group_keys key3_le keys);
  Ok (take_rows (argsort_desc (pa_before_discount <$> grouped)) grouped).

(** [mask_cat & mask_pay & mask_valid], where [mask_valid] is the scalar
    [True] when the frame has no [is_valid] column. *)
Definition mask_and (a b : list bool) (c : option (list bool)) : list bool :=
  match c with
  | Some c => zip_with andb (zip_with andb a b) c
  | None => zip_with andb a b
  end.

Definition df_mobile_jazz (df_f : DataFrame) : result DataFrame :=
  cat ← getitem df_f "category";
  let mask_cat :=
    (λ s, contains "mobile" s || contains "tablet" s)
      <$> (lower <$> astype_str cat) in
  pay ← getitem df_f "payment_method";
  let mask_pay := contains "jazz" <$> (lower <$> astype_str pay) in
  mask_valid ←
    (if has_column df_f "is_valid" then
       is_valid ← getitem df_f "is_valid";
       Ok (Some (series_eq is_valid (Num 1%Qc)))
     else Ok None);
  Ok (loc_mask df_f (mask_and mask_cat mask_pay mask_valid)).

Definition mobile_jazz_report (df_f : DataFrame) : result SegmentReport :=
  d ← df_mobile_jazz df_f;
  if empty_frame d then Ok NoTransactions
  else
    qty ← getitem d "qty_ordered";
    qty_sum ← series_sum qty;
    customer_id ← getitem d "customer_id";
    Ok (Totals (trunc qty_sum) (nunique customer_id)).
End aggregations.

(** ** The filter block as the script runs it

    The frames are objects in a store and the variables [df] and [df_f]
    hold references.  [df.copy()] and boolean indexing [df_f[mask]] each
    build a new object; the assignments rebind [df_f]. *)
Record Script := {
  objects : list DataFrame;
  var_df : nat;
  var_df_f : nat;
}.

Definition deref (st : Script) (ref : nat) : result DataFrame :=
  match objects st !! ref with
  | Some d => Ok d
  | None => Raise (KeyError "object")
  end.

(** [df_f = <new object>] *)
Definition bind_df_f (st : Script) (d : DataFrame) : Script :=
  {| objects := objects st ++ [d];
     var_df := var_df st;
     var_df_f := length (objects st) |}.

(** [df_f = f(df_f)] where [f] builds a new frame from the one it reads. *)
Definition rebind_df_f (f : DataFrame → result DataFrame) (st : Script)
    : result Script :=
  d ← deref st (var_df_f st);
  d' ← f d;
  Ok (bind_df_f st d').

Section script.
Context `{Coercions}.

Definition filter_block (c : Criteria) (st : Script) : result Script :=
  df ← deref st (var_df st);
  let st := bind_df_f st df in                      (* df_f = df.copy() *)
  st ← rebind_df_f (year_filter (selected_year c)) st;
  st ← (if decide (selected_category c ≠ "All")
        then rebind_df_f (category_filter (selected_category c)) st
        else Ok st);
  st ← (if decide (selected_payment c ≠ "All")
        then rebind_df_f (payment_filter (selected_payment c)) st
        else Ok st);
  match value_transaction c with
  | AllTransactions => Ok st
  | v => rebind_df_f (validity_filter v) st
  end.
End script.

(** ** Instances used by the examples *)

Definition digit_value (a : ascii) : option nat :=
  let n := nat_of_ascii a in
  if ((48 <=? n)%nat && (n <=? 57)%nat)%bool then Some (n - 48)%nat else None.

Fixpoint decimal_value (acc : nat) (s : string) : option nat :=
  match s with
  | EmptyString => Some acc
  | String a s' => d ← digit_value a; decimal_value (10 * acc + d) s'
  end.

Definition month_of_nat (n : nat) : option Month :=
  [Jan; Feb; Mar; Apr; May; Jun; Jul; Aug; Sep; Oct; Nov; Dec] !! pred n.

(** Dates written [YYYY-MM-DD]. *)
Definition iso_date (s : string) : option Timestamp :=
  if bool_decide (String.length s = 10%nat ∧
                  substring 4 1 s = "-" ∧ substring 7 1 s = "-") then
    y ← decimal_value 0 (substring 0 4 s);
    m ← decimal_value 0 (substring 5 2 s) ≫= month_of_nat;
    d ← decimal_value 0 (substring 8 2 s);
    Some {| ts_year := Z.of_nat y; ts_month := m;
            ts_day := Z.of_nat d; ts_nanos := 0 |}
  else None.

(** Numbers written as unsigned decimal integers. *)
Definition decimal_number (s : string) : option Qc :=
  match s with
  | EmptyString => None
  | _ => (λ n, Qc_of_Z (Z.of_nat n)) <$> decimal_value 0 s
  end.

Definition iso_datetime_text (t : Timestamp) : string :=
  zero_padded 4 (Z.to_nat (ts_year t)) ++ "-" ++
  zero_padded 2 (Z.to_nat (month_number (ts_month t))) ++ "-" ++
  zero_padded 2 (Z.to_nat (ts_day t)).

Definition example_coercions : Coercions :=
  {| numeric_of_string := decimal_number;
     numeric_of_timestamp := λ _, None;
     datetime_of_string := iso_date;
     datetime_of_number := λ _, None;
     string_of_number := λ q, zero_padded 1 (Z.to_nat (trunc q));
     string_of_timestamp := iso_datetime_text |}.

(** A stable descending sort of the positions by value. *)
Definition by_value_desc (a b : nat * Qc) : Prop := (b.2 ≤ a.2)%Qc.

Global Instance by_value_desc_dec a b : Decision (by_value_desc a b).
Proof. unfold by_value_desc. apply _. Defined.

Definition stable_argsort_desc (l : list Qc) : list nat :=
  (merge_sort by_value_desc (zip (seq 0 (length l)) l)).*1.

Definition stable_sorter : Sorter :=
  {| argsort_desc := stable_argsort_desc |}.

(** ** Rows

    The row-wise reading of a frame, in which the properties are stated:
    row [i] is the label at position [i] with the cells the columns hold
    at that position. *)
Definition Row : Type := cell * gmap string cell.

Definition row_at (cols : gmap string (list cell)) (i : nat)
    : gmap string cell :=
  omap (λ s, s !! i) cols.

Definition rows (df : DataFrame) : list Row :=
  imap (λ i l, (l, row_at (columns df) i)) (index df).

(** Every column is as long as the index. *)
Definition wf (df : DataFrame) : Prop :=
  map_Forall (λ _ s, length s = length (index df)) (columns df).

(** A numeric field of a row; an absent column counts as [0]. *)
Definition num (r : Row) (c : string) : Qc :=
  match r.2 !! c with
  | Some (Num q) => q
  | _ => 0%Qc
  end.

Definition sum_list (l : list Qc) : Qc := foldr Qcplus 0%Qc l.

Definition sum_field (c : string) (rs : list Row) : Qc :=
  sum_list ((λ r, num r c) <$> rs).

(** [to_numeric(...).fillna(0)] and [to_numeric(...).fillna(0).astype(int)]
    cell by cell. *)
Definition numeric_cell `{Coercions} (c : cell) : Qc :=
  default 0%Qc (to_numeric_cell c).

Definition flag_cell `{Coercions} (c : cell) : Z :=
  int64_of_float (numeric_cell c).

(** The columns [load_data] writes. *)
Definition written_columns : list string :=
  ["order_date"; "registered_date"; "price"; "qty_ordered";
   "before_discount"; "discount_amount"; "after_discount"; "cogs";
   "net_profit"; "is_valid"; "year"; "month"; "month_name"].

(** The right-hand side of [df['net_profit'] = ...], read on the prepared
    frame. *)
Definition net_profit_operand (df : DataFrame) : operand :=
  if forallb (has_column df) ["before_discount"; "cogs"; "qty_ordered"]
  then sub (get df "before_discount" (Num 0%Qc))
           (mul (get df "cogs" (Num 0%Qc)) (get df "qty_ordered" (Num 0%Qc)))
  else sub (mul (get df "price" (Num 0%Qc)) (get df "qty_ordered" (Num 0%Qc)))
           (mul (get df "cogs" (Num 0%Qc)) (get df "qty_ordered" (Num 0%Qc))).

(** What [load_data] leaves in the frame it returns, column by column,
    in terms of the frame read from the file (headers stripped). *)
Record prepared `{Coercions} (raw df : DataFrame) : Prop := {
  prep_index : index df = index raw;
  prep_wf : wf df;
  prep_dates : ∃ od,
    columns (strip_columns raw) !! "order_date" = Some od ∧
    columns df !! "order_date" = Some (to_datetime od) ∧
    columns df !! "year" = Some (dt_year (to_datetime od)) ∧
    columns df !! "month" = Some (dt_month (to_datetime od)) ∧
    columns df !! "month_name" = Some (dt_strftime_Ym (to_datetime od));
  prep_registered :
    columns df !! "registered_date"
    = to_datetime <$> columns (strip_columns raw) !! "registered_date";
  prep_numeric c :
    c ∈ numeric_columns →
    columns df !! c
    = (λ s, Num <$> (numeric_cell <$> s)) <$> columns (strip_columns raw) !! c;
  prep_is_valid :
    columns df !! "is_valid"
    = (λ s, (λ z, Num (Qc_of_Z z)) <$> (flag_cell <$> s))
        <$> columns (strip_columns raw) !! "is_valid";
  prep_net_profit :
    columns df !! "net_profit" = Some (broadcast df (net_profit_operand df));
  prep_other c :
    c ∉ written_columns →
    columns df !! c = columns (strip_columns raw) !! c;
}.

(** An operand fits a frame of [n] rows. *)
Definition sized (n : nat) (v : operand) : Prop :=
  match v with
  | Column s => length s = n
  | Scalar _ => True
  end.

(** ** Example data

    The two rows of the example scenario, completed with the columns of the
    expected input that the scenario leaves out. *)
Definition int_cell (z : Z) : cell := Num (Qc_of_Z z).

Definition range_index (n : nat) : list cell :=
  (λ i, int_cell (Z.of_nat i)) <$> seq 0 n.

Definition example_raw : DataFrame :=
  {| index := range_index 2;
     columns := list_to_map [
       ("id", [int_cell 1; int_cell 2]);
       ("order_date", [Str "2022-01-15"; Str "2022-02-01"]);
       ("customer_id", [Str "C1"; Str "C2"]);
       ("sku_id", [Str "P1"; Str "P2"]);
       ("sku_name", [Str "Phone"; Str "Notebook"]);
       ("category", [Str "Mobile"; Str "Laptop"]);
       ("payment_method", [Str "JazzWallet"; Str "Card"]);
       ("price", [int_cell 50; int_cell 500]);
       ("qty_ordered", [int_cell 2; int_cell 1]);
       ("before_discount", [int_cell 100; int_cell 500]);
       ("discount_amount", [int_cell 0; int_cell 0]);
       ("after_discount", [int_cell 100; int_cell 500]);
       ("cogs", [int_cell 20; int_cell 300]);
       ("is_valid", [int_cell 1; int_cell 1])] |}.

Definition example_criteria : Criteria :=
  {| selected_year := 2022;
     selected_category := "All";
     selected_payment := "All";
     value_transaction := AllTransactions |}.

(** The cell of a row under a column name; missing when the frame has no
    such column. *)
Definition field (r : Row) (c : string) : cell := default NaN (r.2 !! c).

(** The conjunction the sidebar selections stand for, row by row. *)
Definition text_passes `{Coercions} (c selected : string) (r : Row) : bool :=
  bool_decide (selected = "All")
  || bool_decide (astype_str_cell (field r c) = selected).

Definition validity_passes (v : ValueTransaction) (r : Row) : bool :=
  match v with
  | AllTransactions => true
  | Valid => bool_decide (field r "is_valid" = Num 1%Qc)
  | NotValid => bool_decide (field r "is_valid" = Num 0%Qc)
  end.

Definition passes `{Coercions} (c : Criteria) (r : Row) : bool :=
  bool_decide (field r "year" = Num (Qc_of_Z (selected_year c)))
  && text_passes "category" (selected_category c) r
  && text_passes "payment_method" (selected_payment c) r
  && validity_passes (value_transaction c) r.

(** The selections with one more choice made. *)
Definition with_category (c : Criteria) (k : string) : Criteria :=
  {| selected_year := selected_year c;
     selected_category := k;
     selected_payment := selected_payment c;
     value_transaction := value_transaction c |}.

Definition with_payment (c : Criteria) (p : string) : Criteria :=
  {| selected_year := selected_year c;
     selected_category := selected_category c;
     selected_payment := p;
     value_transaction := value_transaction c |}.

Definition with_validity (c : Criteria) (v : ValueTransaction) : Criteria :=
  {| selected_year := selected_year c;
     selected_category := selected_category c;
     selected_payment := selected_payment c;
     value_transaction := v |}.

(** [df_f = df_f[p(df_f[c])]]: the shape every filter statement has. *)
Definition column_filter (c : string) (p : cell → bool) (df_f : DataFrame)
    : result DataFrame :=
  s ← getitem df_f c;
  Ok (loc_mask df_f (p <$> s)).

(** A statement of the filter block: skipped, or a [column_filter]. *)
Definition step : Type := option (string * (cell → bool)).

Definition run_step (s : step) (df_f : DataFrame) : result DataFrame :=
  match s with
  | None => Ok df_f
  | Some (c, p) => column_filter c p df_f
  end.

(** The column a statement reads exists (vacuous for a skipped one). *)
Definition step_defined (s : step) (df : DataFrame) : Prop :=
  match s with
  | None => True
  | Some (c, _) => is_Some (columns df !! c)
  end.

Definition year_step (y : Z) : step :=
  Some ("year", λ c, bool_decide (c = Num (Qc_of_Z y))).

Definition text_step `{Coercions} (c selected : string) : step :=
  if decide (selected = "All") then None
  else Some (c, λ x, bool_decide (astype_str_cell x = selected)).

Definition validity_step (v : ValueTransaction) : step :=
  match v with
  | AllTransactions => None
  | Valid => Some ("is_valid", λ c, bool_decide (c = Num 1%Qc))
  | NotValid => Some ("is_valid", λ c, bool_decide (c = Num 0%Qc))
  end.

(** The script run from [st0] and the pure filter agree: both fail with
    the same error, or the script ends in a state where [df] is the same
    reference, every object of [st0] is untouched and [df_f] refers to the
    frame the pure filter returns. *)
Definition simulates (st0 : Script) (r : result Script)
    (rd : result DataFrame) : Prop :=
  match r, rd with
  | Ok st, Ok d =>
      var_df st = var_df st0 ∧
      objects st0 `prefix_of` objects st ∧
      deref st (var_df_f st) = Ok d
  | Raise e, Raise e' => e = e'
  | _, _ => False
  end.

(** The key of a row is one of [ks]. *)
Definition key_in {K} `{EqDecision K} (ks : list K) (o : option K) : bool :=
  match o with
  | Some k => bool_decide (k ∈ ks)
  | None => false
  end.

(** ** The rollup, row-wise

    What [prod_agg] holds before sorting, stated on the rows of the view:
    one entry per product key, in key order, with the sums over the rows
    that carry the key. *)
Definition product_key (r : Row) : option key3 :=
  key3_of (field r "sku_id") (field r "sku_name") (field r "category").

Definition product_row (k : key3) (rs : list Row) : ProductRow :=
  {| sku_id := k.1.1; sku_name := k.1.2; category := k.2;
     pa_before_discount := sum_field "before_discount" rs;
     pa_after_discount := sum_field "after_discount" rs;
     pa_net_profit := sum_field "net_profit" rs;
     pa_qty_ordered := sum_field "qty_ordered" rs;
     unique_customers := nunique ((λ r, field r "customer_id") <$> rs) |}.

Definition product_groups (rs : list Row) : list ProductRow :=
  (λ k, product_row k (filter (λ r, product_key r = Some k) rs))
    <$> group_keys key3_le (product_key <$> rs).

(** The columns the product rollup reads, besides [net_profit]. *)
Definition rollup_columns : list string :=
  ["sku_id"; "sku_name"; "category"; "before_discount"; "after_discount";
   "qty_ordered"; "customer_id"].

(** A second table: a date that does not parse (row 2), a product without
    a name and an order without an id (row 3), a validity flag that is
    neither 0 nor 1 (row 4), and two products with equal sales. *)
Definition sample_raw : DataFrame :=
  {| index := range_index 5;
     columns := list_to_map [
       ("id", [int_cell 1; int_cell 2; int_cell 3; NaN; int_cell 5]);
       ("order_date", [Str "2022-01-15"; Str "2022-02-01"; Str "n/a";
                       Str "2022-04-20"; Str "2022-03-05"]);
       ("customer_id", [Str "C1"; Str "C2"; Str "C1"; Str "C3"; Str "C2"]);
       ("sku_id", [Str "P2"; Str "P3"; Str "P2"; Str "P4"; Str "P1"]);
       ("sku_name", [Str "Phone"; Str "Notebook"; Str "Phone"; NaN;
                     Str "Slate"]);
       ("category", [Str "Mobile"; Str "Laptop"; Str "Mobile";
                     Str "Tablet"; Str "Tablets"]);
       ("payment_method", [Str "JazzWallet"; Str "Card"; Str "JazzWallet";
                           Str "jazzcash"; Str "Easypay"]);
       ("price", [int_cell 50; int_cell 500; int_cell 50; int_cell 30;
                  int_cell 100]);
       ("qty_ordered", [int_cell 2; int_cell 1; int_cell 1; int_cell 3;
                        int_cell 1]);
       ("before_discount", [int_cell 100; int_cell 500; int_cell 50;
                            int_cell 90; int_cell 100]);
       ("discount_amount", [int_cell 0; int_cell 0; int_cell 0; int_cell 0;
                            int_cell 0]);
       ("after_discount", [int_cell 100; int_cell 500; int_cell 50;
                           int_cell 90; int_cell 100]);
       ("cogs", [int_cell 20; int_cell 300; int_cell 20; int_cell 10;
                 int_cell 60]);
       ("is_valid", [int_cell 1; int_cell 1; int_cell 1; int_cell 0;
                     int_cell 2])] |}.

Definition ok_or {A} (d : A) (r : result A) : A :=
  match r with Ok a => a | Raise _ => d end.

Definition example_prepared : DataFrame :=
  ok_or example_raw (@load_data example_coercions example_raw).
Definition example_view : DataFrame :=
  ok_or example_raw
    (@apply_filters example_coercions example_prepared example_criteria).

Definition sample_prepared : DataFrame :=
  ok_or sample_raw (@load_data example_coercions sample_raw).
Definition sample_view : DataFrame :=
  ok_or sample_raw
    (@apply_filters example_coercions sample_prepared example_criteria).

(** The order in which the distinct keys are first met. *)
Fixpoint first_seen {K} `{EqDecision K} (l : list K) : list K :=
  match l with
  | [] => []
  | k :: l' => k :: filter (λ k', k' ≠ k) (first_seen l')
  end.

Definition discovery_order (rs : list Row) : list key3 :=
  first_seen (omap product_key rs).

Definition product_row_key (p : ProductRow) : key3 :=
  (sku_id p, sku_name p, category p).

(** The rows the JazzWallet query keeps; [valid_col] tells whether the
    view has an [is_valid] column. *)
Definition segment_row `{Coercions} (valid_col : bool) (r : Row) : bool :=
  (contains "mobile" (lower (astype_str_cell (field r "category")))
   || contains "tablet" (lower (astype_str_cell (field r "category"))))
  && contains "jazz" (lower (astype_str_cell (field r "payment_method")))
  && (if valid_col then bool_decide (field r "is_valid" = Num 1%Qc)
      else true).

(** [s] contains [pat] when case is ignored: some part of [s] is [pat] up
    to the case of its letters. *)
Definition contains_ignoring_case (pat s : string) : Prop :=
  ∃ pre mid post, s = pre +:+ mid +:+ post ∧ lower mid = pat.

Definition segment_columns : list string :=
  ["category"; "payment_method"; "qty_ordered"; "customer_id"].

(** The example table as a file without the [is_valid] column. *)
Definition unflagged_raw : DataFrame :=
  {| index := index example_raw;
     columns := delete "is_valid" (columns example_raw) |}.

Definition unflagged_prepared : DataFrame :=
  ok_or unflagged_raw (@load_data example_coercions unflagged_raw).

(** ** The monthly table, row-wise

    What [monthly_metrics] holds, stated on the rows of the view: one entry
    per month key, in key order, computed from the rows of that month. *)
Definition month_key (r : Row) : option cell :=
  key_of (field r "month_name").

Definition monthly_bucket (k : cell) (rs : list Row) : MonthlyRow :=
  let orders := nunique ((λ r, field r "id") <$> rs) in
  {| month_name := k;
     mm_before_discount := sum_field "before_discount" rs;
     mm_net_profit := sum_field "net_profit" rs;
     unique_orders := Some orders;
     AOV := truediv (sum_field "before_discount" rs) orders |}.

Definition monthly_buckets (rs : list Row) : list MonthlyRow :=
  (λ k, monthly_bucket k (filter (λ r, month_key r = Some k) rs))
    <$> group_keys cell_le (month_key <$> rs).

(** The example table as a file whose date header has white space around
    it. *)
Definition padded_raw : DataFrame :=
  {| index := index example_raw;
     columns := <[" order_date " := [Str "2022-01-15"; Str "2022-02-01"]]>
                  (delete "order_date" (columns example_raw)) |}.

(** The columns [load_data] adds. *)
Definition new_columns : list string :=
  ["net_profit"; "year"; "month"; "month_name"].

(** ** The sidebar *)

(** [astype(int)] on the distinct non-missing values of a float column;
    the [year] column is the one [dt.year] wrote, so only numbers reach
    the cast, and they are years of timestamps, well inside [int64]. *)
Definition int_of_cell (c : cell) : result Z :=
  match c with
  | Num q => Ok (trunc q)
  | _ => Raise (TypeError "int")
  end.

(** [sorted(df['year'].dropna().unique().astype(int).tolist())] *)
Definition years (df : DataFrame) : result (list Z) :=
  year ← getitem df "year";
  ys ← traverse int_of_cell (remove_dups (dropna year));
  Ok (merge_sort Z.le ys).

(** [2022 if 2022 in years else (years[-1] if years else None)] *)
Definition default_year (years : list Z) : option Z :=
  if bool_decide (2022%Z ∈ years) then Some 2022%Z else list.last years.

(** [years.index(y)]: the first position of [y], if any. *)
Fixpoint list_index (y : Z) (l : list Z) : option nat :=
  match l with
  | [] => None
  | x :: l' => if decide (x = y) then Some 0%nat else S <$> list_index y l'
  end.

(** [years.index(default_year) if default_year in years else 0]; the
    call of [index] is guarded by the membership test. *)
Definition default_index (years : list Z) : nat :=
  match default_year years with
  | Some y =>
      if bool_decide (y ∈ years) then default 0%nat (list_index y years)
      else 0%nat
  | None => 0%nat
  end.

(** What [st.sidebar.selectbox(label, options, index)] returns before the
    user picks anything: the option at [index], and [None] when there are
    no options. *)
Definition selectbox {A} (options : list A) (index : nat) : option A :=
  options !! index.

Definition string_le (a b : string) : Prop := String.leb a b.

(** [["All"] + sorted(df[c].dropna().unique().astype(str).tolist())] *)
Definition text_options `{Coercions} (df : DataFrame) (c : string)
    : result (list string) :=
  s ← getitem df c;
  Ok ("All" :: merge_sort string_le (astype_str (remove_dups (dropna s)))).

(** [int(selected_year)]; [int(None)] raises [TypeError]. *)
Definition int_of_selection (y : option Z) : result Z :=
  match y with
  | Some y => Ok y
  | None => Raise (TypeError "int")
  end.

(** The selections of the first run of the script, when no widget has
    been touched: lines 55-62 and the [int(selected_year)] of line 66. *)
Definition initial_criteria `{Coercions} (df : DataFrame) : result Criteria :=
  years ← years df;
  let selected_year := selectbox years (default_index years) in
  categories ← text_options df "category";
  let selected_category := selectbox categories 0 in
  payments ← text_options df "payment_method";
  let selected_payment := selectbox payments 0 in
  y ← int_of_selection selected_year;
  Ok {| selected_year := y;
        selected_category := default "All" selected_category;
        selected_payment := default "All" selected_payment;
        value_transaction := AllTransactions |}.

(** A row meets the condition of a statement of the filter block. *)
Definition step_holds (s : step) (r : Row) : Prop :=
  match s with
  | None => True
  | Some (c, p) => p (field r c) = true
  end.

(** ** The scorecards of tab 1

    The figures under "Sales Trend (Monthly)", before they are formatted;
    [sc_after_discount] is [None] where the page prints "N/A". *)
Record Scorecards := {
  sc_before_discount : Qc;
  sc_after_discount : option Qc;
  sc_net_profit : Qc;
  sc_quantity : Qc;
  sc_unique_orders : nat;
}.

Inductive Tab1 :=
  | NoData                       (* [st.info("No data available ...")] *)
  | Dashboard (s : Scorecards).

(** Lines 82-95.  [monthly_metrics] always has its four columns, so it is
    [empty] exactly when it has no row. *)
Definition tab1 `{Coercions} (df_f : DataFrame) : result Tab1 :=
  mm ← monthly_metrics df_f;
  match mm with
  | [] => Ok NoData
  | _ :: _ =>
      let before := sum_list (mm_before_discount <$> mm) in
      after ←
        (if has_column df_f "after_discount" then
           after_discount ← getitem df_f "after_discount";
           a ← series_sum after_discount;
           Ok (Some a)
         else Ok None);
      let net := sum_list (mm_net_profit <$> mm) in
      qty_ordered ← getitem df_f "qty_ordered";
      qty ← series_sum qty_ordered;
      id ← getitem df_f "id";
      Ok (Dashboard {| sc_before_discount := before;
                       sc_after_discount := after;
                       sc_net_profit := net;
                       sc_quantity := qty;
                       sc_unique_orders := nunique id |})
  end.

(** The example table as a file without the [qty_ordered] column. *)
Definition unquantified_raw : DataFrame :=
  {| index := index example_raw;
     columns := delete "qty_ordered" (columns example_raw) |}.

Definition unquantified_prepared : DataFrame :=
  ok_or unquantified_raw (@load_data example_coercions unquantified_raw).

Definition unquantified_view : DataFrame :=
  ok_or unquantified_raw
    (@apply_filters example_coercions unquantified_prepared example_criteria).

(** ** The scorecards and the category chart of tab 2 *)

(** The "Top KPI scorecards" block, lines 130-135, before formatting.
    [prod_agg] holds an [after_discount] column whenever it was built, so
    the test of line 131 holds. *)
Record KPIs := {
  total_before : Qc;
  total_after : Qc;
  total_net : Qc;
  total_qty : Qc;
  kpi_unique_customers : nat;
  aov_overall : float;
}.

Definition kpis `{Coercions} `{Sorter} (df_f : DataFrame) : result KPIs :=
  prod_agg ← prod_agg df_f;
  customer_id ← getitem df_f "customer_id";
  id ← getitem df_f "id";
  aov ←
    (if (0 <? nunique id)%nat then
       before_discount ← getitem df_f "before_discount";
       total ← series_sum before_discount;
       Ok (truediv total (nunique id))
     else Ok NotANumber);
  Ok {| total_before := sum_list (pa_before_discount <$> prod_agg);
        total_after := sum_list (pa_after_discount <$> prod_agg);
        total_net := sum_list (pa_net_profit <$> prod_agg);
        total_qty := sum_list (pa_qty_ordered <$> prod_agg);
        kpi_unique_customers := nunique customer_id;
        aov_overall := aov |}.

(** [prod_agg.groupby('category').agg({'before_discount':'sum'})
    .sort_values('before_discount', ascending=False).reset_index()] *)
Definition cat_agg `{Sorter} (prod_agg : list ProductRow)
    : list (cell * Qc) :=
  let keys := key_of <$> (category <$> prod_agg) in
  let grouped :=
    (λ k, (k, sum_list (mask_select (group_mask keys k)
                          (pa_before_discount <$> prod_agg))))
      <$> group_keys cell_le keys in
  take_rows (argsort_desc (snd <$> grouped)) grouped.

(** The example table as a file without the [after_discount] column. *)
Definition undiscounted_raw : DataFrame :=
  {| index := index example_raw;
     columns := delete "after_discount" (columns example_raw) |}.

Definition undiscounted_prepared : DataFrame :=
  ok_or undiscounted_raw (@load_data example_coercions undiscounted_raw).

Definition undiscounted_view : DataFrame :=
  ok_or undiscounted_raw
    (@apply_filters example_coercions undiscounted_prepared example_criteria).

(** ** The chart of the JazzWallet query *)

Definition key_le (a b : cell * Qc) : Prop := cell_le a.1 b.1.

Global Instance key_le_dec a b : Decision (key_le a b).
Proof. unfold key_le. apply _. Defined.

(** [df_mobile_jazz.groupby('month_name').agg({'qty_ordered':'sum'})
    .sort_index()] *)
Definition mob_month (d : DataFrame) : result (list (cell * Qc)) :=
  by_month ← getitem d "month_name";
  let keys := key_of <$> by_month in
  qty_ordered ← getitem d "qty_ordered";
  sums ← traverse (λ k,
      q ← series_sum (mask_select (group_mask keys k) qty_ordered);
      Ok (k, q))
    (group_keys cell_le keys);
  Ok (merge_sort key_le sums).

(** The bars, row-wise: one per month key, in key order. *)
Definition monthly_quantities (rs : list Row) : list (cell * Qc) :=
  (λ k, (k, sum_field "qty_ordered" (filter (λ r, month_key r = Some k) rs)))
    <$> group_keys cell_le (month_key <$> rs).

(** Selections that no row of the sample table meets. *)
Definition unmet_criteria : Criteria :=
  with_category example_criteria "Furniture".

Definition empty_view : DataFrame :=
  ok_or sample_raw
    (@apply_filters example_coercions sample_prepared unmet_criteria).

(** ** The cells of the file *)

(** The number [load_data] reads in column [c] of row [i] of the file: 0
    for a cell that is missing or does not parse, and for a column that
    the file does not have. *)
Definition file_number `{Coercions} (raw : DataFrame) (c : string) (i : nat)
    : Qc :=
  match columns (strip_columns raw) !! c ≫= (λ s : list cell, s !! i) with
  | Some x => numeric_cell x
  | None => 0%Qc
  end.

(** No two headers of the file strip to the same name. *)
Definition distinct_headers (raw : DataFrame) : Prop :=
  NoDup (strip <$> (map_to_list (columns raw)).*1).

(** The example table as a file without the [before_discount] column. *)
Definition fallback_raw : DataFrame :=
  {| index := index example_raw;
     columns := delete "before_discount" (columns example_raw) |}.

Definition fallback_prepared : DataFrame :=
  ok_or fallback_raw (@load_data example_coercions fallback_raw).

(** The example file without its [order_date] column. *)
Definition undated_raw : DataFrame :=
  {| index := index example_raw;
     columns := delete "order_date" (columns example_raw) |}.

(** ** Sums that float64 adds without rounding

    pandas adds float64 values and the model adds rationals.  The two
    agree, in whatever order the additions are made, when the values are
    whole numbers whose absolute values add up to at most 2^53: every
    partial sum is then a whole number of at most that size, which float64
    holds exactly.  [exact_amounts] asks this of the columns that the pages
    add up, and of the products in [net_profit], so that the [net_profit]
    of every row is exact as well. *)
Definition whole_amount (c : cell) : option Z :=
  match c with
  | NaN => Some 0%Z
  | Num q =>
      if decide (Qden q = 1%positive) then Some (Z.abs (Qnum q)) else None
  | _ => None
  end.

Definition amounts (df : DataFrame) (c : string) : option (list Z) :=
  match columns df !! c with
  | Some s => mapM whole_amount s
  | None => Some (replicate (length (index df)) 0%Z)
  end.

Definition exact_amounts (df : DataFrame) : bool :=
  match amounts df "before_discount", amounts df "after_discount",
        amounts df "qty_ordered", amounts df "price", amounts df "cogs" with
  | Some b, Some a, Some q, Some p, Some c =>
      bool_decide (foldr Z.add 0 b + foldr Z.add 0 a + foldr Z.add 0 q
                   + foldr Z.add 0 (zip_with Z.mul p q)
                   + foldr Z.add 0 (zip_with Z.mul c q) ≤ 2 ^ 53)%Z
  | _, _, _, _, _ => false
  end.

(** No row of the frame lacks a product id, a product name or a
    category. *)
Definition complete_keys (df : DataFrame) : bool :=
  forallb (λ c, match columns df !! c with
                | Some s => forallb notna s
                | None => false
                end)
    ["sku_id"; "sku_name"; "category"].

(** * Properties *)

(** ** Masks *)

Lemma mask_select_nil_r {A} (m : list bool) : mask_select m (@nil A) = [].
Proof. by destruct m as [|[] m]. Qed.

Lemma mask_select_fmap {A B} (f : A → B) m (s : list A) :
  mask_select m (f <$> s) = f <$> mask_select m s.
Proof.
  revert s. induction m as [|b m IH]; intros [|x s]; simpl; try done.
  destruct b; simpl; by rewrite IH.
Qed.

Lemma mask_select_sublist {A} m (s : list A) : mask_select m s `sublist_of` s.
Proof.
  revert s. induction m as [|b m IH]; intros [|x s]; simpl;
    try done; try apply sublist_nil_l.
  destruct b; [apply sublist_skip | apply sublist_cons]; apply IH.
Qed.

Lemma mask_select_filter {A} (P : A → Prop) `{∀ x, Decision (P x)} (l : list A) :
  mask_select ((λ x, bool_decide (P x)) <$> l) l = filter P l.
Proof.
  induction l as [|x l IH]; [done|].
  rewrite fmap_cons, filter_cons. cbn [mask_select].
  destruct (decide (P x)).
  - rewrite bool_decide_eq_true_2 by done. by rewrite IH.
  - rewrite bool_decide_eq_false_2 by done. by rewrite IH.
Qed.

Lemma mask_select_andb {A} (m1 m2 : list bool) (s : list A) :
  mask_select (mask_select m1 m2) (mask_select m1 s)
  = mask_select (zip_with andb m1 m2) s.
Proof.
  revert m2 s. induction m1 as [|b m1 IH]; intros m2 s; [done|].
  destruct m2 as [|b2 m2], s as [|x s], b; simpl;
    rewrite ?mask_select_nil_r; try done;
    try destruct b2; simpl; by rewrite ?IH.
Qed.

Lemma mask_select_length_eq {A B} m (s : list A) (t : list B) :
  length s = length t → length (mask_select m s) = length (mask_select m t).
Proof.
  revert s t. induction m as [|b m IH]; intros [|x s] [|y t] Hl;
    simplify_eq/=; try done.
  destruct b; simpl; auto.
Qed.

(** ** Rows of a frame *)

Lemma row_at_lookup cols i c :
  row_at cols i !! c = cols !! c ≫= (λ s : list cell, s !! i).
Proof. unfold row_at. by rewrite lookup_omap. Qed.

Lemma rows_lookup df i r :
  rows df !! i = Some r ↔
  ∃ l, index df !! i = Some l ∧ r = (l, row_at (columns df) i).
Proof. unfold rows. apply list_lookup_imap_Some. Qed.

Lemma length_rows df : length (rows df) = length (index df).
Proof. unfold rows. apply length_imap. Qed.

Lemma field_lookup df i r c :
  rows df !! i = Some r →
  r.2 !! c = columns df !! c ≫= (λ s : list cell, s !! i).
Proof.
  intros (l & _ & ->)%rows_lookup. apply row_at_lookup.
Qed.

Lemma row_at_tail cols i : row_at (tail <$> cols) i = row_at cols (S i).
Proof.
  apply map_eq; intros c. rewrite !row_at_lookup, lookup_fmap.
  by destruct (cols !! c) as [[|x s]|].
Qed.

Lemma rows_cons l ix cols :
  rows {| index := l :: ix; columns := cols |}
  = (l, row_at cols 0) :: rows {| index := ix; columns := tail <$> cols |}.
Proof.
  unfold rows; simpl. f_equal. apply imap_ext; intros i x _; simpl.
  by rewrite row_at_tail.
Qed.

Lemma rows_loc_mask df m : rows (loc_mask df m) = mask_select m (rows df).
Proof.
  destruct df as [ix cols]. revert ix cols.
  induction m as [|b m IH]; intros ix cols; [done|].
  destruct ix as [|l ix]; [by destruct b|].
  rewrite rows_cons. unfold loc_mask in *; simpl in *. destruct b.
  - rewrite rows_cons. f_equal.
    + f_equal. apply map_eq; intros c.
      rewrite !row_at_lookup, lookup_fmap.
      by destruct (cols !! c) as [[|x s]|].
    + rewrite <-IH. f_equal. f_equal. rewrite <-!map_fmap_compose.
      apply map_fmap_ext; intros c [|x s] _; simpl; [|done].
      by rewrite mask_select_nil_r.
  - rewrite <-IH. f_equal. f_equal. rewrite <-map_fmap_compose.
    apply map_fmap_ext; intros c [|x s] _; simpl; [|done].
    by rewrite mask_select_nil_r.
Qed.

Lemma column_rows df c s :
  wf df → columns df !! c = Some s →
  s = (λ r : Row, default NaN (r.2 !! c)) <$> rows df.
Proof.
  intros Hwf Hc. apply list_eq; intros i.
  rewrite list_lookup_fmap. unfold rows. rewrite list_lookup_imap.
  pose proof (Hwf _ _ Hc) as Hlen; simpl in Hlen.
  destruct (index df !! i) as [l|] eqn:Hi; simpl.
  - rewrite row_at_lookup, Hc; simpl.
    destruct (lookup_lt_is_Some_2 s i) as [x Hx].
    { rewrite Hlen. by eapply lookup_lt_Some. }
    by rewrite Hx.
  - apply lookup_ge_None. rewrite Hlen. by apply lookup_ge_None.
Qed.

Lemma wf_loc_mask df m : wf df → wf (loc_mask df m).
Proof.
  intros Hwf c s; simpl. rewrite lookup_fmap_Some.
  intros (t & <- & Ht). apply mask_select_length_eq, (Hwf _ _ Ht).
Qed.

Lemma wf_setitem df c v :
  wf df → length (broadcast df v) = length (index df) → wf (setitem df c v).
Proof. intros Hwf Hl. by apply map_Forall_insert_2. Qed.

Lemma wf_strip_columns df : wf df → wf (strip_columns df).
Proof.
  intros Hwf c s; simpl. unfold kmap. intros Hc%elem_of_list_to_map_2.
  apply list_elem_of_fmap in Hc as ([c' s'] & [= -> ->] & Hc).
  apply elem_of_map_to_list in Hc. apply (Hwf _ _ Hc).
Qed.

(** ** The prepared table *)

(** Closed decidable facts, such as which names a list of column names
    holds, are settled by evaluation. *)
Ltac lit := apply (bool_decide_unpack _); vm_compute; exact I.
Ltac absurd_lit :=
  match goal with
  | Hlit : ?x ∈ ?l |- _ =>
      exfalso; revert Hlit; apply (bool_decide_eq_false_1 (x ∈ l));
      vm_compute; reflexivity
  | Hlit : ?x ∉ ?l |- _ =>
      exfalso; apply Hlit; apply (bool_decide_unpack _);
      vm_compute; exact I
  end.
Ltac cases_lit := repeat case_decide; subst; try done; try absurd_lit.

Section prepared.
Context `{Coercions}.

Lemma coerce_numeric_index df c : index (coerce_numeric df c) = index df.
Proof. unfold coerce_numeric. by destruct (columns df !! c). Qed.

Lemma coerce_numeric_lookup df c c' :
  columns (coerce_numeric df c) !! c'
  = if decide (c = c')
    then (λ s, Num <$> (numeric_cell <$> s)) <$> columns df !! c'
    else columns df !! c'.
Proof.
  unfold coerce_numeric. destruct (decide (c = c')) as [<-|Hne].
  - destruct (columns df !! c) as [s|] eqn:Hc; simpl.
    + rewrite lookup_insert_eq. unfold float_column, fillna0, to_numeric.
      by rewrite <-(list_fmap_compose to_numeric_cell).
    + by rewrite Hc.
  - destruct (columns df !! c); simpl; [|done]. by rewrite lookup_insert_ne.
Qed.

Lemma foldl_coerce_numeric_index df l :
  index (foldl coerce_numeric df l) = index df.
Proof.
  revert df. induction l as [|c l IH]; intros df; simpl; [done|].
  by rewrite IH, coerce_numeric_index.
Qed.

Lemma foldl_coerce_numeric_lookup df l c :
  NoDup l →
  columns (foldl coerce_numeric df l) !! c
  = if decide (c ∈ l)
    then (λ s, Num <$> (numeric_cell <$> s)) <$> columns df !! c
    else columns df !! c.
Proof.
  intros Hl. revert df. induction Hl as [|c' l Hc' Hl IH]; intros df; simpl.
  { done. }
  rewrite IH, coerce_numeric_lookup.
  repeat case_decide; subst; try done;
    match goal with
    | Hn : _ ∉ _ :: _ |- _ => exfalso; apply Hn; by constructor
    | Hin : _ ∈ _ :: _ |- _ => by apply elem_of_cons in Hin as [|]
    end.
Qed.

Lemma sized_binop n f a b : sized n a → sized n b → sized n (binop f a b).
Proof.
  destruct a as [x|s], b as [y|t]; simpl; try done.
  - intros _ <-. by rewrite length_fmap.
  - intros <- _. by rewrite length_fmap.
  - intros <- Ht. rewrite length_zip_with. lia.
Qed.

Lemma sized_get df c d : wf df → sized (length (index df)) (get df c d).
Proof.
  intros Hwf. unfold get. destruct (columns df !! c) as [s|] eqn:Hc; [|done].
  apply (Hwf _ _ Hc).
Qed.

Lemma length_broadcast df v :
  sized (length (index df)) v → length (broadcast df v) = length (index df).
Proof. destruct v; simpl; [by rewrite length_replicate|done]. Qed.

Lemma sized_net_profit_operand df :
  wf df → sized (length (index df)) (net_profit_operand df).
Proof.
  intros Hwf. unfold net_profit_operand.
  destruct (forallb _ _); repeat apply sized_binop; by apply sized_get.
Qed.

Lemma wf_coerce_numeric df c : wf df → wf (coerce_numeric df c).
Proof.
  intros Hwf. unfold coerce_numeric.
  destruct (columns df !! c) as [s|] eqn:Hc; [|done].
  apply wf_setitem; [done|]. simpl. unfold float_column, fillna0, to_numeric.
  rewrite !length_fmap. apply (Hwf _ _ Hc).
Qed.

Lemma wf_foldl_coerce_numeric df l : wf df → wf (foldl coerce_numeric df l).
Proof.
  revert df. induction l as [|c l IH]; intros df Hwf; simpl; [done|].
  by apply IH, wf_coerce_numeric.
Qed.

Lemma net_profit_operand_ext df df' :
  (∀ c, c ∈ numeric_columns → columns df !! c = columns df' !! c) →
  net_profit_operand df = net_profit_operand df'.
Proof.
  intros Hc. unfold net_profit_operand, has_column, get; simpl.
  rewrite !Hc by (unfold numeric_columns; set_solver). done.
Qed.

Lemma net_profit_step df :
  (if forallb (has_column df) ["before_discount"; "cogs"; "qty_ordered"]
   then
     before_discount ← getitem df "before_discount";
     cogs ← getitem df "cogs";
     qty_ordered ← getitem df "qty_ordered";
     Ok (setitem df "net_profit"
           (sub (Column before_discount)
                (mul (Column cogs) (Column qty_ordered))))
   else
     Ok (setitem df "net_profit"
           (sub (mul (get df "price" zero) (get df "qty_ordered" zero))
                (mul (get df "cogs" zero) (get df "qty_ordered" zero)))))
  = Ok (setitem df "net_profit" (net_profit_operand df)).
Proof.
  unfold net_profit_operand, has_column, getitem, get, zero; simpl.
  destruct (columns df !! "before_discount"), (columns df !! "cogs"),
    (columns df !! "qty_ordered"); simpl; try done.
Qed.

Lemma NoDup_numeric_columns : NoDup numeric_columns.
Proof. apply (bool_decide_unpack _). by vm_compute. Qed.

Lemma setitem_lookup df c v c' :
  columns (setitem df c v) !! c'
  = if decide (c = c') then Some (broadcast df v) else columns df !! c'.
Proof. simpl. by rewrite lookup_insert. Qed.

Lemma load_data_spec raw od :
  wf raw → columns (strip_columns raw) !! "order_date" = Some od →
  ∃ df, load_data raw = Ok df ∧ prepared raw df.
Proof.
  intros Hwf Hod'. apply wf_strip_columns in Hwf.
  unfold load_data.
  assert (Hix : index (strip_columns raw) = index raw) by done.
  remember (strip_columns raw) as df0 eqn:Hdf0.
  assert (Hg : getitem df0 "order_date" = Ok od).
  { unfold getitem. by rewrite Hod'. }
  rewrite Hg. cbn [mbind result_bind].
  set (df1 := setitem df0 "order_date" (Column (to_datetime od))) in *.
  set (df2 := match columns df1 !! "registered_date" with Some s => _ | None => _ end) in *.
  set (df4 := foldl coerce_numeric df2 numeric_columns) in *.
  rewrite net_profit_step. cbn [mbind result_bind].
  set (df5 := setitem df4 "net_profit" _) in *.
  set (df6 := match columns df5 !! "is_valid" with Some s => _ | None => _ end) in *.
  assert (Hn : length od = length (index df0))
    by apply (Hwf _ _ Hod').
  assert (Hwf1 : wf df1).
  { apply wf_setitem; [done|]. cbn [broadcast]. unfold to_datetime.
    by rewrite length_fmap. }
  assert (Hl1 : ∀ c, columns df1 !! c
    = if decide ("order_date" = c) then Some (to_datetime od)
      else columns df0 !! c).
  { intros c. unfold df1. by rewrite setitem_lookup. }
  assert (Hl2 : ∀ c, columns df2 !! c
    = if decide ("order_date" = c) then Some (to_datetime od)
      else if decide ("registered_date" = c)
           then to_datetime <$> columns df0 !! c
           else columns df0 !! c).
  { intros c. unfold df2. rewrite Hl1. rewrite decide_False by done.
    destruct (columns df0 !! "registered_date") as [s|] eqn:Hr.
    - rewrite setitem_lookup, Hl1. repeat case_decide; subst; try done.
      by rewrite Hr.
    - rewrite Hl1. repeat case_decide; subst; try done. by rewrite Hr. }
  assert (Hi2 : index df2 = index df0).
  { unfold df2. by destruct (columns df1 !! "registered_date"). }
  assert (Hwf2 : wf df2).
  { unfold df2. destruct (columns df1 !! "registered_date") as [s|] eqn:Hr;
      [|done].
    apply wf_setitem; [done|]. cbn [broadcast]. unfold to_datetime.
    rewrite length_fmap. apply (Hwf1 _ _ Hr). }
  assert (Hi4 : index df4 = index df0).
  { unfold df4. by rewrite foldl_coerce_numeric_index. }
  assert (Hwf4 : wf df4) by by apply wf_foldl_coerce_numeric.
  assert (Hl4 : ∀ c, columns df4 !! c
    = if decide (c ∈ numeric_columns)
      then (λ s, Num <$> (numeric_cell <$> s))
             <$> columns df0 !! c
      else columns df2 !! c).
  { intros c. unfold df4.
    rewrite foldl_coerce_numeric_lookup by apply NoDup_numeric_columns.
    case_decide as Hc; [|done]. rewrite Hl2.
    rewrite !decide_False; [done| |]; intros <-; revert Hc;
      apply (bool_decide_eq_false_1 _); by vm_compute. }
  assert (Hi5 : index df5 = index df0) by done.
  assert (Hwf5 : wf df5).
  { apply wf_setitem; [done|].
    by apply length_broadcast, sized_net_profit_operand. }
  assert (Hl5 : ∀ c, columns df5 !! c
    = if decide ("net_profit" = c)
      then Some (broadcast df4 (net_profit_operand df4))
      else columns df4 !! c) by (intros; apply setitem_lookup).
  assert (Hv : columns df5 !! "is_valid" = columns df0 !! "is_valid").
  { rewrite Hl5, Hl4, Hl2. cases_lit. }
  assert (Hi6 : index df6 = index df0).
  { unfold df6. by destruct (columns df5 !! "is_valid"). }
  assert (Hl6 : ∀ c, columns df6 !! c
    = if decide ("is_valid" = c)
      then (λ s, (λ z, Num (Qc_of_Z z)) <$> (flag_cell <$> s))
             <$> columns df0 !! c
      else columns df5 !! c).
  { intros c. unfold df6. rewrite Hv.
    destruct (columns df0 !! "is_valid") as [s|] eqn:Hs.
    - rewrite setitem_lookup. case_decide; [subst|done]. rewrite Hs.
      cbn [broadcast fmap option_fmap option_map].
      unfold int_column, astype_int, fillna0, to_numeric, flag_cell,
        numeric_cell.
      by rewrite <-!list_fmap_compose.
    - case_decide; [subst|done]. by rewrite Hv, Hs. }
  assert (Hwf6 : wf df6).
  { unfold df6. destruct (columns df5 !! "is_valid") as [s|] eqn:Hs; [|done].
    apply wf_setitem; [done|]. cbn [broadcast].
    unfold int_column, astype_int, fillna0, to_numeric.
    rewrite !length_fmap. apply (Hwf5 _ _ Hs). }
  assert (Hod6 : columns df6 !! "order_date" = Some (to_datetime od)).
  { rewrite Hl6, Hl5, Hl4, Hl2. cases_lit. }
  unfold getitem. rewrite Hod6.
  cbn [mbind result_bind].
  rewrite setitem_lookup, decide_False, Hod6 by done.
  cbn [mbind result_bind].
  rewrite !setitem_lookup, !decide_False, Hod6 by done.
  cbn [mbind result_bind].
  assert (Hlen : length (to_datetime od) = length (index df0)).
  { unfold to_datetime. by rewrite length_fmap. }
  set (dfy := setitem df6 "year" _).
  set (dfm := setitem dfy "month" _).
  set (dff := setitem dfm "month_name" _).
  assert (Hlf : ∀ c, columns dff !! c
    = if decide ("month_name" = c)
      then Some (dt_strftime_Ym (to_datetime od))
      else if decide ("month" = c) then Some (dt_month (to_datetime od))
      else if decide ("year" = c) then Some (dt_year (to_datetime od))
      else columns df6 !! c).
  { intros c. unfold dff, dfm, dfy. by rewrite !setitem_lookup. }
  assert (Hnum : ∀ c, c ∈ numeric_columns →
    columns dff !! c = columns df4 !! c).
  { intros c Hc. rewrite Hlf, Hl6, Hl5. cases_lit. }
  exists dff. split; [done|]. subst df0. split.
  - by rewrite <-Hix, <-Hi6.
  - unfold dff, dfm, dfy.
    repeat (apply wf_setitem; [|cbn [broadcast index setitem];
      unfold dt_year, dt_month, dt_strftime_Ym;
      rewrite length_fmap, Hlen; by rewrite Hi6]).
    done.
  - exists od. rewrite !Hlf, Hod6. cases_lit.
  - rewrite Hlf, Hl6, Hl5, Hl4, Hl2. cases_lit.
  - intros c Hc. rewrite Hnum, Hl4 by done. by rewrite decide_True.
  - rewrite Hlf, Hl6. cases_lit.
  - rewrite Hlf, Hl6, Hl5. rewrite decide_False, decide_False, decide_False,
      decide_False, decide_True by done.
    f_equal. rewrite (net_profit_operand_ext dff df4) by done.
    unfold broadcast. destruct (net_profit_operand df4); [|done].
    do 2 f_equal. cbn [index setitem dff dfm dfy]. by rewrite Hi6, Hi4.
  - intros c Hc. rewrite Hlf, Hl6, Hl5, Hl4, Hl2.
    assert (c ∉ numeric_columns).
    { intros Hin. apply Hc. unfold numeric_columns in Hin.
      repeat (apply elem_of_cons in Hin as [->|Hin]; [lit|]).
      by apply elem_of_nil in Hin. }
    cases_lit.
Qed.

Lemma load_data_prepared raw df :
  wf raw → load_data raw = Ok df → prepared raw df.
Proof.
  intros Hwf Hload.
  destruct (columns (strip_columns raw) !! "order_date") as [od|] eqn:Hod.
  - destruct (load_data_spec raw od Hwf Hod) as (df' & Hdf' & Hp).
    rewrite Hdf' in Hload. by injection Hload as <-.
  - unfold load_data, getitem in Hload. by rewrite Hod in Hload.
Qed.
End prepared.

Section net_profit.
Context `{Coercions}.

Lemma binop_at df f a b i x y :
  broadcast df a !! i = Some (Num x) →
  broadcast df b !! i = Some (Num y) →
  broadcast df (binop f a b) !! i = Some (Num (f x y)).
Proof.
  destruct a as [c|s], b as [d|t]; simpl; intros Ha Hb.
  - apply lookup_replicate in Ha as [<- ?], Hb as [<- ?].
    by apply lookup_replicate.
  - apply lookup_replicate in Ha as [<- ?].
    by rewrite list_lookup_fmap, Hb.
  - apply lookup_replicate in Hb as [<- ?].
    by rewrite list_lookup_fmap, Ha.
  - by rewrite lookup_zip_with, Ha; simpl; rewrite Hb.
Qed.

Lemma rows_lookup_lt df i r :
  rows df !! i = Some r → (i < length (index df))%nat.
Proof. intros Hr%lookup_lt_Some. by rewrite length_rows in Hr. Qed.

Lemma has_column_prepared raw df c :
  prepared raw df → c ∈ numeric_columns →
  has_column df c = has_column (strip_columns raw) c.
Proof.
  intros Hp Hc. unfold has_column. rewrite (prep_numeric _ _ Hp c Hc).
  by destruct (columns (strip_columns raw) !! c).
Qed.

Lemma prepared_numeric_at raw df i r c :
  prepared raw df → rows df !! i = Some r → c ∈ numeric_columns →
  broadcast df (get df c (Num 0%Qc)) !! i = Some (Num (num r c)) ∧
  r.2 !! c = if has_column df c then Some (Num (num r c)) else None.
Proof.
  intros Hp Hr Hc. pose proof (rows_lookup_lt _ _ _ Hr) as Hi.
  pose proof (field_lookup _ _ _ c Hr) as Hf.
  unfold get, has_column, num. rewrite Hf.
  destruct (columns df !! c) as [s|] eqn:Hs; simpl.
  - pose proof (prep_wf _ _ Hp _ _ Hs) as Hlen; simpl in Hlen.
    rewrite (prep_numeric _ _ Hp c Hc) in Hs.
    destruct (columns (strip_columns raw) !! c) as [s0|]; simplify_eq/=.
    destruct (lookup_lt_is_Some_2 (Num <$> (numeric_cell <$> s0)) i)
      as [x Hx]; [lia|].
    rewrite Hx. rewrite !list_lookup_fmap in Hx.
    destruct (s0 !! i); simplify_eq/=. done.
  - split; [|done]. by apply lookup_replicate.
Qed.
(** The net profit of a prepared row, from the row's own fields. *)
Lemma prepared_net_profit_at raw df i r :
  prepared raw df → rows df !! i = Some r →
  r.2 !! "net_profit" = Some (Num (
    if forallb (has_column (strip_columns raw))
         ["before_discount"; "cogs"; "qty_ordered"]
    then num r "before_discount" - num r "cogs" * num r "qty_ordered"
    else num r "price" * num r "qty_ordered"
         - num r "cogs" * num r "qty_ordered")%Qc).
Proof.
  intros Hp Hr.
  rewrite (field_lookup _ _ _ _ Hr), (prep_net_profit _ _ Hp); simpl.
  assert (Hat : ∀ c, c ∈ numeric_columns →
    broadcast df (get df c (Num 0%Qc)) !! i = Some (Num (num r c))).
  { intros c Hc. by apply (prepared_numeric_at raw). }
  unfold net_profit_operand; cbn [forallb].
  rewrite <-!(has_column_prepared raw df) by (done || lit).
  destruct (_ && _); unfold sub, mul; repeat apply binop_at; apply Hat; lit.
Qed.
End net_profit.

(** ** The headers of the file *)

Lemma list_to_map_unique {A} (l : list (string * A)) k x :
  (k, x) ∈ l → (∀ y, (k, y) ∈ l → y = x) →
  (list_to_map l : gmap string A) !! k = Some x.
Proof.
  induction l as [|[k' y] l IH]; intros Hin Huniq.
  - by apply elem_of_nil in Hin.
  - cbn [list_to_map foldr]. simpl. rewrite lookup_insert. case_decide as Hk.
    + subst k'. f_equal. apply Huniq. left.
    + apply elem_of_cons in Hin as [[= ??]|Hin]; [done|].
      apply IH; [done|]. intros z Hz. apply Huniq. by right.
Qed.

Lemma strip_columns_lookup_inv df c s :
  columns (strip_columns df) !! c = Some s →
  ∃ k, strip k = c ∧ columns df !! k = Some s.
Proof.
  cbn [strip_columns columns]. unfold kmap. intros Hc.
  apply elem_of_list_to_map_2 in Hc.
  apply list_elem_of_fmap in Hc as ([k s'] & [= -> ->] & Hin).
  exists k. split; [done|]. by apply elem_of_map_to_list.
Qed.

Lemma strip_columns_lookup df k s :
  columns df !! k = Some s →
  (∀ k', is_Some (columns df !! k') → strip k' = strip k → k' = k) →
  columns (strip_columns df) !! strip k = Some s.
Proof.
  intros Hk Huniq. cbn [strip_columns columns]. unfold kmap.
  apply list_to_map_unique.
  - apply list_elem_of_fmap. exists (k, s). split; [done|].
    by apply elem_of_map_to_list.
  - intros y Hy. apply list_elem_of_fmap in Hy as ([k' y'] & [= Hs ->] & Hin).
    apply elem_of_map_to_list in Hin.
    assert (k' = k) as -> by (apply Huniq; [by eexists|done]).
    congruence.
Qed.

Lemma strip_columns_lookup_None df c :
  columns (strip_columns df) !! c = None
  ↔ ∀ k, is_Some (columns df !! k) → strip k ≠ c.
Proof.
  split.
  - intros Hc k [s Hk] <-. cbn [strip_columns columns] in Hc. unfold kmap in Hc.
    apply not_elem_of_list_to_map in Hc. apply Hc.
    apply list_elem_of_fmap. exists (strip k, s). split; [done|].
    apply list_elem_of_fmap. exists (k, s). split; [done|].
    by apply elem_of_map_to_list.
  - intros Hno. destruct (columns (strip_columns df) !! c) as [s|] eqn:Hs;
      [|done].
    apply strip_columns_lookup_inv in Hs as (k & Hk & Hs).
    destruct (Hno k); [by eexists|done].
Qed.

Lemma has_column_stripped df c :
  has_column (strip_columns df) c = true
  ↔ ∃ k, is_Some (columns df !! k) ∧ strip k = c.
Proof.
  unfold has_column. rewrite bool_decide_eq_true. split.
  - intros [s Hs]. apply strip_columns_lookup_inv in Hs as (k & Hk & Hs).
    exists k. split; [by eexists|done].
  - intros (k & Hk & Hc).
    destruct (columns (strip_columns df) !! c) as [s|] eqn:Hs; [by eexists|].
    rewrite strip_columns_lookup_None in Hs. by destruct (Hs k).
Qed.

Lemma distinct_headers_inj df k k' :
  distinct_headers df →
  is_Some (columns df !! k) → is_Some (columns df !! k') →
  strip k' = strip k → k' = k.
Proof.
  unfold distinct_headers. intros Hnd [s Hk] [s' Hk'] Hs.
  apply elem_of_map_to_list, list_elem_of_lookup in Hk as [i Hi].
  apply elem_of_map_to_list, list_elem_of_lookup in Hk' as [j Hj].
  assert (Hij : j = i).
  { apply (NoDup_lookup _ j i (strip k) Hnd).
    - rewrite !list_lookup_fmap, Hj. cbn. by f_equal.
    - by rewrite !list_lookup_fmap, Hi. }
  subst j. congruence.
Qed.

Lemma distinct_headers_lookup df k s :
  distinct_headers df → columns df !! k = Some s →
  columns (strip_columns df) !! strip k = Some s.
Proof.
  intros Hnd Hk. apply strip_columns_lookup; [done|].
  intros k' Hk' Hs. apply (distinct_headers_inj df); [done|by eexists|done|done].
Qed.

Lemma distinct_headers_size df :
  distinct_headers df →
  size (columns (strip_columns df)) = size (columns df).
Proof.
  unfold distinct_headers. intros Hnd. cbn [strip_columns columns].
  unfold kmap. rewrite <-!length_map_to_list.
  rewrite map_to_list_to_map.
  - by rewrite length_fmap.
  - rewrite <-list_fmap_compose.
    rewrite <-list_fmap_compose in Hnd.
    erewrite list_fmap_ext; [exact Hnd|]. by intros i [??] _.
Qed.

Section file_numbers.
Context `{Coercions}.

(** A numeric field of a prepared row is the number read in the file. *)
Lemma prepared_file_number raw df i r c :
  wf raw → prepared raw df → rows df !! i = Some r → c ∈ numeric_columns →
  num r c = file_number raw c i ∧
  r.2 !! c = if has_column (strip_columns raw) c
             then Some (Num (file_number raw c i)) else None.
Proof.
  intros Hwf Hp Hr Hc. pose proof (rows_lookup_lt _ _ _ Hr) as Hi.
  rewrite (prep_index _ _ Hp) in Hi.
  unfold num, file_number, has_column.
  rewrite (field_lookup _ _ _ c Hr), (prep_numeric _ _ Hp c Hc).
  destruct (columns (strip_columns raw) !! c) as [s|] eqn:Hs;
    cbn [fmap option_fmap option_map mbind option_bind]; [|done].
  destruct (lookup_lt_is_Some_2 s i) as [x Hx].
  { by rewrite (wf_strip_columns _ Hwf _ _ Hs). }
  rewrite !list_lookup_fmap, Hx. cbn [fmap option_fmap option_map].
  by rewrite bool_decide_eq_true_2 by by eexists.
Qed.
End file_numbers.

(** C2. [load_data] computes [net_profit] by one of two formulas, chosen
    once from the columns of the table it read and applied to every row:
    [before_discount - cogs * qty_ordered] when the three columns are
    there, [price * qty_ordered - cogs * qty_ordered] otherwise, an absent
    column counting as 0.  A column is there when a header of the file
    strips to its name; the operands are the numbers read in the cells of
    that column in the same row of the file, which the row keeps in its
    own fields.  No row is dropped. *)
Theorem load_data_net_profit `{Coercions} raw df :
  wf raw → distinct_headers raw → load_data raw = Ok df →
  length (rows df) = length (index raw) ∧
  (∀ c, has_column (strip_columns raw) c = true
        ↔ ∃ k, is_Some (columns raw !! k) ∧ strip k = c) ∧
  (∀ k s i x, columns raw !! k = Some s → s !! i = Some x →
     file_number raw (strip k) i = numeric_cell x) ∧
  (∀ c i, has_column (strip_columns raw) c = false →
     file_number raw c i = 0%Qc) ∧
  ∀ i r, rows df !! i = Some r →
    (∀ c, c ∈ numeric_columns →
       r.2 !! c = if has_column (strip_columns raw) c
                  then Some (Num (file_number raw c i)) else None) ∧
    r.2 !! "net_profit" = Some (Num (
      if forallb (has_column (strip_columns raw))
           ["before_discount"; "cogs"; "qty_ordered"]
      then file_number raw "before_discount" i
           - file_number raw "cogs" i * file_number raw "qty_ordered" i
      else file_number raw "price" i * file_number raw "qty_ordered" i
           - file_number raw "cogs" i * file_number raw "qty_ordered" i)%Qc)
    ∧
    r.2 !! "net_profit" = Some (Num (
      if forallb (has_column (strip_columns raw))
           ["before_discount"; "cogs"; "qty_ordered"]
      then num r "before_discount" - num r "cogs" * num r "qty_ordered"
      else num r "price" * num r "qty_ordered"
           - num r "cogs" * num r "qty_ordered")%Qc).
Proof.
  intros Hwf Hnd Hload. pose proof (load_data_prepared _ _ Hwf Hload) as Hp.
  split; [by rewrite length_rows, (prep_index _ _ Hp)|].
  split; [intros c; apply has_column_stripped|]. split; [|split].
  - intros k s i x Hk Hx. unfold file_number.
    rewrite (distinct_headers_lookup _ _ _ Hnd Hk).
    cbn [mbind option_bind]. by rewrite Hx.
  - intros c i Hc. unfold file_number.
    apply bool_decide_eq_false in Hc.
    destruct (columns (strip_columns raw) !! c) as [s|] eqn:Hs; [|done].
    destruct Hc. by eexists.
  - intros i r Hr.
    assert (Hnum : ∀ c, c ∈ numeric_columns → num r c = file_number raw c i).
    { intros c Hc. by apply (prepared_file_number raw df). }
    split; [|split].
    + intros c Hc. by apply (prepared_file_number raw df).
    + rewrite (prepared_net_profit_at raw df i r Hp Hr).
      by rewrite !Hnum by lit.
    + by apply (prepared_net_profit_at raw df i).
Qed.

Lemma load_data_net_profit_witness :
  (∀ i r, rows example_prepared !! i = Some r →
     r.2 !! "net_profit" = Some (Num (
       @file_number example_coercions example_raw "before_discount" i
       - @file_number example_coercions example_raw "cogs" i
         * @file_number example_coercions example_raw "qty_ordered" i)%Qc)) ∧
  (∀ i r, rows fallback_prepared !! i = Some r →
     r.2 !! "net_profit" = Some (Num (
       @file_number example_coercions fallback_raw "price" i
       * @file_number example_coercions fallback_raw "qty_ordered" i
       - @file_number example_coercions fallback_raw "cogs" i
         * @file_number example_coercions fallback_raw "qty_ordered" i)%Qc)).
Proof.
  split.
  - intros i r Hr.
    destruct (@load_data_net_profit example_coercions example_raw
                example_prepared) as (_ & _ & _ & _ & Hrow).
    + unfold wf. lit.
    + unfold distinct_headers. lit.
    + vm_compute. reflexivity.
    + by destruct (Hrow i r Hr) as (_ & Hnet & _).
  - intros i r Hr.
    destruct (@load_data_net_profit example_coercions fallback_raw
                fallback_prepared) as (_ & _ & _ & _ & Hrow).
    + unfold wf. lit.
    + unfold distinct_headers. lit.
    + vm_compute. reflexivity.
    + by destruct (Hrow i r Hr) as (_ & Hnet & _).
Defined.

(** ** Filters *)

Lemma mask_select_filter_bool {A} (p : A → bool) (l : list A) :
  mask_select (p <$> l) l = filter (λ x, p x) l.
Proof.
  induction l as [|x l IH]; [done|].
  rewrite fmap_cons, filter_cons. cbn [mask_select].
  destruct (p x); simpl; by rewrite IH.
Qed.

Lemma loc_mask_lookup df m c :
  columns (loc_mask df m) !! c = mask_select m <$> columns df !! c.
Proof. simpl. by rewrite lookup_fmap. Qed.

Lemma loc_mask_andb df m1 m2 :
  loc_mask (loc_mask df m1) (mask_select m1 m2)
  = loc_mask df (zip_with andb m1 m2).
Proof.
  unfold loc_mask; simpl. f_equal.
  - apply mask_select_andb.
  - rewrite <-map_fmap_compose. apply map_fmap_ext; intros c s _; simpl.
    apply mask_select_andb.
Qed.

Lemma zip_with_andb_comm (m1 m2 : list bool) :
  zip_with andb m1 m2 = zip_with andb m2 m1.
Proof.
  revert m2. induction m1 as [|b m1 IH]; intros [|b2 m2]; simpl; try done.
  by rewrite IH, andb_comm.
Qed.

Section filters.
Context `{Coercions}.

Lemma column_filter_rows c p df df' :
  wf df → column_filter c p df = Ok df' →
  rows df' = filter (λ r, p (field r c)) (rows df).
Proof.
  intros Hwf. unfold column_filter, getitem.
  destruct (columns df !! c) as [s|] eqn:Hc; [|done]. intros [= <-].
  rewrite rows_loc_mask, (column_rows df c s Hwf Hc).
  rewrite <-list_fmap_compose. apply mask_select_filter_bool.
Qed.

Lemma column_filter_wf c p df df' :
  wf df → column_filter c p df = Ok df' → wf df'.
Proof.
  intros Hwf. unfold column_filter.
  destruct (getitem df c); [|done]. intros [= <-]. by apply wf_loc_mask.
Qed.

Lemma column_filter_sublist c p df df' :
  column_filter c p df = Ok df' → rows df' `sublist_of` rows df.
Proof.
  unfold column_filter. destruct (getitem df c); [|done]. intros [= <-].
  rewrite rows_loc_mask. apply mask_select_sublist.
Qed.

Lemma column_filter_has_column c p df df' c' :
  column_filter c p df = Ok df' →
  is_Some (columns df' !! c') ↔ is_Some (columns df !! c').
Proof.
  unfold column_filter. destruct (getitem df c); [|done]. intros [= <-].
  rewrite loc_mask_lookup. apply fmap_is_Some.
Qed.

(** Two filter statements can be exchanged as soon as one of the two
    columns exists: the masks combine by [&], and a missing column raises
    the same [KeyError] either way. *)
Lemma column_filter_comm c1 p1 c2 p2 df :
  is_Some (columns df !! c1) ∨ is_Some (columns df !! c2) →
  column_filter c1 p1 df ≫= column_filter c2 p2
  = column_filter c2 p2 df ≫= column_filter c1 p1.
Proof.
  intros Hc. unfold column_filter, getitem.
  destruct (columns df !! c1) as [s1|] eqn:H1,
    (columns df !! c2) as [s2|] eqn:H2;
    cbn [mbind result_bind]; rewrite ?loc_mask_lookup, ?H1, ?H2;
    cbn [mbind result_bind fmap option_fmap option_map]; try done.
  - rewrite <-!mask_select_fmap, !loc_mask_andb.
    by rewrite zip_with_andb_comm.
  - by destruct Hc as [[]|[]].
Qed.

Lemma year_filter_column y df :
  year_filter y df
  = column_filter "year" (λ c, bool_decide (c = Num (Qc_of_Z y))) df.
Proof. done. Qed.

Lemma text_filter_column c sel df :
  text_filter c sel df
  = if decide (sel = "All") then Ok df
    else column_filter c
           (λ x, bool_decide (astype_str_cell x = sel)) df.
Proof.
  unfold text_filter, column_filter.
  destruct (decide (sel = "All")) as [->|Hne].
  - by rewrite decide_False by (by intros []).
  - rewrite decide_True by done. destruct (getitem df c); [|done].
    cbn [mbind result_bind]. unfold astype_str.
    by rewrite <-list_fmap_compose.
Qed.

Lemma validity_filter_column v df :
  validity_filter v df
  = match v with
    | AllTransactions => Ok df
    | Valid =>
        column_filter "is_valid" (λ c, bool_decide (c = Num 1%Qc)) df
    | NotValid =>
        column_filter "is_valid" (λ c, bool_decide (c = Num 0%Qc)) df
    end.
Proof. by destruct v. Qed.
End filters.

Lemma filter_true {A} (p : A → bool) (l : list A) :
  (∀ x, p x = true) → filter (λ x, p x) l = l.
Proof.
  intros Hp. induction l as [|x l IH]; [done|].
  rewrite filter_cons, decide_True by (rewrite Hp; done). by rewrite IH.
Qed.

Section apply_filters.
Context `{Coercions}.

Lemma column_filter_ok c p df :
  is_Some (columns df !! c) → ∃ df', column_filter c p df = Ok df'.
Proof.
  intros [s Hs]. unfold column_filter, getitem. rewrite Hs. by eexists.
Qed.

Lemma text_filter_rows c sel df df' :
  wf df → text_filter c sel df = Ok df' →
  rows df' = filter (λ r, text_passes c sel r) (rows df) ∧ wf df'.
Proof.
  intros Hwf. rewrite text_filter_column. case_decide as Hsel.
  - intros [= <-]. split; [|done]. symmetry. apply filter_true.
    intros r. unfold text_passes. by rewrite bool_decide_eq_true_2.
  - intros Hf. split; [|by eapply column_filter_wf].
    rewrite (column_filter_rows _ _ _ _ Hwf Hf).
    apply list_filter_iff; intros r. unfold text_passes.
    by rewrite (bool_decide_eq_false_2 (sel = "All")).
Qed.

Lemma validity_filter_rows v df df' :
  wf df → validity_filter v df = Ok df' →
  rows df' = filter (λ r, validity_passes v r) (rows df) ∧ wf df'.
Proof.
  intros Hwf. rewrite validity_filter_column. destruct v.
  - intros [= <-]. split; [|done]. symmetry. by apply filter_true.
  - intros Hf. split; [|by eapply column_filter_wf].
    by rewrite (column_filter_rows _ _ _ _ Hwf Hf).
  - intros Hf. split; [|by eapply column_filter_wf].
    by rewrite (column_filter_rows _ _ _ _ Hwf Hf).
Qed.

(** The filter block keeps exactly the rows that satisfy every selection. *)
Lemma apply_filters_rows df c df_f :
  wf df → apply_filters df c = Ok df_f →
  rows df_f = filter (λ r, passes c r) (rows df) ∧ wf df_f.
Proof.
  intros Hwf. unfold apply_filters, category_filter, payment_filter.
  destruct (year_filter _ df) as [df1|] eqn:H1; [|done].
  cbn [mbind result_bind].
  destruct (text_filter "category" _ df1) as [df2|] eqn:H2; [|done].
  cbn [mbind result_bind].
  destruct (text_filter "payment_method" _ df2) as [df3|] eqn:H3; [|done].
  cbn [mbind result_bind]. intros H4.
  rewrite year_filter_column in H1.
  pose proof (column_filter_wf _ _ _ _ Hwf H1) as Hwf1.
  apply (column_filter_rows _ _ _ _ Hwf) in H1.
  apply (text_filter_rows _ _ _ _ Hwf1) in H2 as [H2 Hwf2].
  apply (text_filter_rows _ _ _ _ Hwf2) in H3 as [H3 Hwf3].
  apply (validity_filter_rows _ _ _ Hwf3) in H4 as [H4 Hwf4].
  split; [|done]. rewrite H4, H3, H2, H1, !list_filter_filter.
  apply list_filter_iff; intros r. unfold passes.
  rewrite !andb_True. tauto.
Qed.

End apply_filters.

Section failed_dates.
Context `{Coercions}.

Lemma prepared_dates_at raw df i r :
  prepared raw df → rows df !! i = Some r →
  ∃ od x,
    columns (strip_columns raw) !! "order_date" = Some od ∧
    od !! i = Some x ∧
    field r "order_date" = to_datetime_cell x ∧
    field r "year"
    = match to_datetime_cell x with
      | Ts t => Num (Qc_of_Z (ts_year t))
      | _ => NaN
      end ∧
    field r "month_name"
    = match to_datetime_cell x with
      | Ts t => Str (strftime_Ym t)
      | _ => NaN
      end.
Proof.
  intros Hp Hr. destruct (prep_dates _ _ Hp) as (od & Hod & Hd & Hy & _ & Hm).
  pose proof (rows_lookup_lt _ _ _ Hr) as Hi.
  pose proof (prep_wf _ _ Hp _ _ Hd) as Hlen; simpl in Hlen.
  unfold to_datetime in Hlen. rewrite length_fmap in Hlen.
  destruct (lookup_lt_is_Some_2 od i) as [x Hx]; [lia|].
  exists od, x. split; [done|]. split; [done|]. unfold field.
  rewrite !(field_lookup _ _ _ _ Hr), Hd, Hy, Hm; simpl.
  unfold dt_year, dt_strftime_Ym, to_datetime.
  by rewrite !list_lookup_fmap, Hx.
Qed.

(** A row of the prepared table passes the filters only with a parsed
    date in the selected year. *)
Lemma passes_dated raw df c r :
  prepared raw df → r ∈ rows df → passes c r →
  ∃ t, field r "order_date" = Ts t ∧ ts_year t = selected_year c ∧
       field r "month_name" = Str (strftime_Ym t).
Proof.
  intros Hp [i Hr]%list_elem_of_lookup Hpass.
  destruct (prepared_dates_at _ _ _ _ Hp Hr)
    as (od & x & _ & _ & Hd & Hy & Hm).
  unfold passes in Hpass. rewrite !andb_True in Hpass.
  destruct Hpass as [[[Hyear _] _] _].
  apply bool_decide_unpack in Hyear. rewrite Hy in Hyear.
  destruct (to_datetime_cell x) as [| | |t]; try done.
  exists t. injection Hyear as Hyear. done.
Qed.

(** C10. A row whose order date did not parse is kept by [load_data] with a
    missing date and a missing year, and no selection of filters lets it
    into [df_f]: the year test never holds for it.  Every row of [df_f]
    has a parsed date in the selected year, so what is computed from
    [df_f] never sees the other rows. *)
Theorem unparsed_dates_filtered_out raw df c df_f :
  wf raw → load_data raw = Ok df → apply_filters df c = Ok df_f →
  length (rows df) = length (index raw) ∧
  (∀ i r, rows df !! i = Some r →
     ∃ od x, columns (strip_columns raw) !! "order_date" = Some od ∧
       od !! i = Some x ∧ field r "order_date" = to_datetime_cell x) ∧
  (∀ r, r ∈ rows df → field r "order_date" = NaN →
     field r "year" = NaN ∧ r ∉ rows df_f) ∧
  (∀ r, r ∈ rows df_f →
     r ∈ rows df ∧
     ∃ t, field r "order_date" = Ts t ∧ ts_year t = selected_year c ∧
          field r "month_name" = Str (strftime_Ym t)).
Proof.
  intros Hwf Hload Hf.
  pose proof (load_data_prepared _ _ Hwf Hload) as Hp.
  destruct (apply_filters_rows _ _ _ (prep_wf _ _ Hp) Hf) as [Hrows _].
  split; [by rewrite length_rows, (prep_index _ _ Hp)|].
  split; [|split].
  - intros i r Hr.
    destruct (prepared_dates_at _ _ _ _ Hp Hr) as (od & x & ? & ? & ? & _).
    by exists od, x.
  - intros r [i Hr]%list_elem_of_lookup Hnat.
    destruct (prepared_dates_at _ _ _ _ Hp Hr)
      as (od & x & _ & _ & Hd & Hy & _).
    rewrite Hnat in Hd. rewrite <-Hd in Hy. split; [done|].
    rewrite Hrows, list_elem_of_filter. intros [Hpass _].
    unfold passes in Hpass. rewrite !andb_True in Hpass.
    destruct Hpass as [[[Hyear _] _] _].
    apply bool_decide_unpack in Hyear. by rewrite Hy in Hyear.
  - intros r. rewrite Hrows, list_elem_of_filter.
    intros [Hpass Hin]. split; [done|]. by eapply passes_dated.
Qed.
End failed_dates.

Section missing_validity.
Context `{Coercions}.

Lemma text_filter_ok c sel df :
  is_Some (columns df !! c) →
  ∃ df', text_filter c sel df = Ok df' ∧
    ∀ c', is_Some (columns df' !! c') ↔ is_Some (columns df !! c').
Proof.
  intros Hc. rewrite text_filter_column. case_decide; [by eexists|].
  destruct (column_filter_ok c
    (λ x, bool_decide (astype_str_cell x = sel)) df Hc) as [df' Hdf'].
  exists df'. split; [done|]. intros c'.
  by eapply column_filter_has_column.
Qed.

Lemma validity_filter_raises v df :
  columns df !! "is_valid" = None → v ≠ AllTransactions →
  validity_filter v df = Raise (KeyError "is_valid").
Proof.
  intros Hv Hne. destruct v; [done| |]; unfold validity_filter, getitem;
    by rewrite Hv.
Qed.

(** C1. On a prepared table without the [is_valid] column, choosing
    "Valid" or "Not Valid" makes the filter block raise [KeyError]: the
    column is read without the presence test that [load_data] and the
    JazzWallet query make. *)
Theorem validity_filter_missing_column raw df c :
  wf raw → load_data raw = Ok df →
  columns (strip_columns raw) !! "is_valid" = None →
  is_Some (columns (strip_columns raw) !! "category") →
  is_Some (columns (strip_columns raw) !! "payment_method") →
  value_transaction c ≠ AllTransactions →
  apply_filters df c = Raise (KeyError "is_valid").
Proof.
  intros Hwf Hload Hv Hcat Hpay Hne.
  pose proof (load_data_prepared _ _ Hwf Hload) as Hp.
  rewrite <-(prep_other _ _ Hp) in Hcat, Hpay by lit.
  assert (Hv' : columns df !! "is_valid" = None).
  { by rewrite (prep_is_valid _ _ Hp), Hv. }
  destruct (prep_dates _ _ Hp) as (od & _ & _ & Hy & _).
  unfold apply_filters, category_filter, payment_filter.
  rewrite year_filter_column.
  destruct (column_filter_ok "year"
    (λ x, bool_decide (x = Num (Qc_of_Z (selected_year c)))) df)
    as [df1 H1]; [by rewrite Hy|].
  rewrite H1. cbn [mbind result_bind].
  pose proof (column_filter_has_column _ _ _ _ "category" H1) as Hc1.
  pose proof (column_filter_has_column _ _ _ _ "payment_method" H1) as Hp1.
  pose proof (column_filter_has_column _ _ _ _ "is_valid" H1) as Hv1.
  destruct (text_filter_ok "category" (selected_category c) df1)
    as (df2 & H2 & Hc2); [by apply Hc1|].
  rewrite H2. cbn [mbind result_bind].
  destruct (text_filter_ok "payment_method" (selected_payment c) df2)
    as (df3 & H3 & Hc3); [by apply Hc2, Hp1|].
  rewrite H3. cbn [mbind result_bind].
  apply validity_filter_raises; [|done].
  apply eq_None_not_Some. rewrite Hc3, Hc2, Hv1, Hv'. by intros [].
Qed.
End missing_validity.

(** ** The filter block as a sequence of statements *)

Lemma result_bind_assoc {A B C} (r : result A) (f : A → result B)
    (g : B → result C) :
  (r ≫= f) ≫= g = r ≫= (λ x, f x ≫= g).
Proof. by destruct r. Qed.

Lemma result_bind_ret {A} (r : result A) : r ≫= Ok = r.
Proof. by destruct r. Qed.

Lemma result_bind_ext {A B} (r : result A) (f g : A → result B) :
  (∀ x, r = Ok x → f x = g x) → r ≫= f = r ≫= g.
Proof. intros Hfg. destruct r; [by apply Hfg|done]. Qed.

Section steps.
Context `{Coercions}.

Lemma run_step_defined s s' df df' :
  run_step s df = Ok df' → step_defined s' df' ↔ step_defined s' df.
Proof.
  destruct s as [[c p]|]; simpl; [|by intros [= <-]].
  intros Hf. destruct s' as [[c' p']|]; simpl; [|done].
  by eapply column_filter_has_column.
Qed.

Lemma run_step_sublist s df df' :
  run_step s df = Ok df' → rows df' `sublist_of` rows df.
Proof.
  destruct s as [[c p]|]; simpl; [|by intros [= <-]].
  apply column_filter_sublist.
Qed.

Lemma run_step_comm s1 s2 df :
  step_defined s1 df ∨ step_defined s2 df →
  run_step s1 df ≫= run_step s2 = run_step s2 df ≫= run_step s1.
Proof.
  destruct s1 as [[c1 p1]|], s2 as [[c2 p2]|]; simpl; intros Hd.
  - by apply column_filter_comm.
  - by destruct (column_filter c1 p1 df).
  - by destruct (column_filter c2 p2 df).
  - done.
Qed.

(** A statement whose column exists may be moved behind the two that
    follow it. *)
Lemma run_step_comm2 s a b df :
  step_defined s df →
  run_step s df ≫= (λ d, run_step a d ≫= run_step b)
  = (run_step a df ≫= run_step b) ≫= run_step s.
Proof.
  intros Hs.
  rewrite <-result_bind_assoc, (run_step_comm s a) by by left.
  rewrite !result_bind_assoc. apply result_bind_ext; intros d Hd.
  apply run_step_comm. left. by apply (run_step_defined a s df d).
Qed.

Lemma year_filter_step y df : year_filter y df = run_step (year_step y) df.
Proof. done. Qed.

Lemma text_filter_step c sel df :
  text_filter c sel df = run_step (text_step c sel) df.
Proof. rewrite text_filter_column. unfold text_step. by case_decide. Qed.

Lemma validity_filter_step v df :
  validity_filter v df = run_step (validity_step v) df.
Proof. by destruct v. Qed.

Lemma apply_filters_steps df c :
  apply_filters df c
  = run_step (year_step (selected_year c)) df ≫= λ d1,
    run_step (text_step "category" (selected_category c)) d1 ≫= λ d2,
    run_step (text_step "payment_method" (selected_payment c)) d2 ≫=
    run_step (validity_step (value_transaction c)).
Proof.
  unfold apply_filters, category_filter, payment_filter.
  rewrite year_filter_step. apply result_bind_ext; intros d1 _.
  rewrite text_filter_step. apply result_bind_ext; intros d2 _.
  rewrite text_filter_step. apply result_bind_ext; intros d3 _.
  apply validity_filter_step.
Qed.

Lemma apply_filters_sublist df c df_f :
  apply_filters df c = Ok df_f → rows df_f `sublist_of` rows df.
Proof.
  rewrite apply_filters_steps.
  destruct (run_step _ df) as [d1|] eqn:H1; [|done]. cbn [mbind result_bind].
  destruct (run_step _ d1) as [d2|] eqn:H2; [|done]. cbn [mbind result_bind].
  destruct (run_step _ d2) as [d3|] eqn:H3; [|done]. cbn [mbind result_bind].
  intros H4. apply run_step_sublist in H1, H2, H3, H4.
  by repeat (etrans; [eassumption|]).
Qed.
End steps.

(** ** The script never writes to [df] *)

Lemma deref_bind_df_f st d :
  deref (bind_df_f st d) (var_df_f (bind_df_f st d)) = Ok d.
Proof.
  unfold deref, bind_df_f; simpl. by rewrite list_lookup_middle.
Qed.

Lemma simulates_bind st0 r rd k kd :
  simulates st0 r rd →
  (∀ st d, r = Ok st → rd = Ok d → simulates st0 (Ok st) (Ok d) →
     simulates st0 (k st) (kd d)) →
  simulates st0 (r ≫= k) (rd ≫= kd).
Proof.
  destruct r as [st|e], rd as [d|e']; simpl; try done.
  intros Hs Hk. by apply Hk.
Qed.

Lemma simulates_rebind st0 st d f :
  simulates st0 (Ok st) (Ok d) →
  simulates st0 (rebind_df_f f st) (f d).
Proof.
  intros (Hv & Hpre & Hd). unfold rebind_df_f. rewrite Hd.
  cbn [mbind result_bind]. destruct (f d) as [d'|e]; simpl; [|done].
  split; [done|]. split; [|apply deref_bind_df_f].
  etrans; [done|]. by apply prefix_app_r.
Qed.

Section script_facts.
Context `{Coercions}.

Lemma filter_block_simulates c st :
  simulates st (filter_block c st)
    (deref st (var_df st) ≫= λ d, apply_filters d c).
Proof.
  unfold filter_block.
  destruct (deref st (var_df st)) as [df|e]; cbn [mbind result_bind];
    [|done].
  unfold apply_filters.
  assert (H0 : simulates st (Ok (bind_df_f st df)) (Ok df)).
  { split; [done|]. split; [by apply prefix_app_r|apply deref_bind_df_f]. }
  apply simulates_bind; [by apply simulates_rebind|].
  intros st1 d1 _ _ H1. apply simulates_bind.
  { unfold category_filter at 2, text_filter. case_decide.
    - rewrite <-(decide_True (P := selected_category c ≠ "All")
        (getitem d1 "category" ≫= _) (Ok d1)) by done.
      fold (text_filter "category" (selected_category c) d1).
      by apply simulates_rebind.
    - done. }
  intros st2 d2 _ _ H2. apply simulates_bind.
  { unfold payment_filter at 2, text_filter. case_decide.
    - rewrite <-(decide_True (P := selected_payment c ≠ "All")
        (getitem d2 "payment_method" ≫= _) (Ok d2)) by done.
      fold (text_filter "payment_method" (selected_payment c) d2).
      by apply simulates_rebind.
    - done. }
  intros st3 d3 _ _ H3.
  destruct (value_transaction c); [done|by apply simulates_rebind..].
Qed.
End script_facts.

(** C4. The filter block is a restriction: the rows of [df_f] are rows of
    [df], in their order; the script leaves [df] and every frame that
    existed before untouched; and making one more selection (a validity, a
    payment method or a category, where the selection was "All") gives the
    frame that the statement for that selection alone makes of the
    already filtered frame. *)
Theorem filter_is_restriction `{Coercions} df c :
  (∀ df_f, apply_filters df c = Ok df_f → rows df_f `sublist_of` rows df) ∧
  (∀ st st', filter_block c st = Ok st' →
     var_df st' = var_df st ∧
     objects st `prefix_of` objects st' ∧
     deref st' (var_df_f st')
     = deref st (var_df st) ≫= λ d, apply_filters d c) ∧
  (∀ v, value_transaction c = AllTransactions →
     apply_filters df (with_validity c v)
     = apply_filters df c ≫= validity_filter v) ∧
  (∀ p, selected_payment c = "All" →
     is_Some (columns df !! "payment_method") →
     apply_filters df (with_payment c p)
     = apply_filters df c ≫= payment_filter p) ∧
  (∀ k, selected_category c = "All" →
     is_Some (columns df !! "category") →
     apply_filters df (with_category c k)
     = apply_filters df c ≫= category_filter k).
Proof.
  split; [apply apply_filters_sublist|]. split; [|split; [|split]].
  - intros st st' Hb. pose proof (filter_block_simulates c st) as Hs.
    rewrite Hb in Hs. unfold simulates in Hs.
    destruct (deref st (var_df st) ≫= _) as [d|]; [|done].
    by destruct Hs as (? & ? & ?).
  - intros v Hv. rewrite !apply_filters_steps.
    cbn [with_validity selected_year selected_category selected_payment
         value_transaction].
    rewrite Hv. cbn [validity_step run_step].
    destruct (run_step (year_step _) df) as [d1|]; [|done].
    cbn [mbind result_bind].
    destruct (run_step (text_step _ _) d1) as [d2|]; [|done].
    cbn [mbind result_bind].
    destruct (run_step (text_step _ _) d2) as [d3|]; [|done].
    cbn [mbind result_bind].
    cbn [run_step mbind result_bind]. by rewrite validity_filter_step.
  - intros p Hp Hcol. rewrite !apply_filters_steps.
    cbn [with_payment selected_year selected_category selected_payment
         value_transaction].
    rewrite Hp.
    replace (text_step "payment_method" "All")
      with (@None (string * (cell → bool))) by done.
    destruct (run_step (year_step _) df) as [d1|] eqn:H1; [|done].
    cbn [mbind result_bind].
    destruct (run_step (text_step _ _) d1) as [d2|] eqn:H2; [|done].
    cbn [mbind result_bind run_step].
    unfold payment_filter.
    rewrite (result_bind_ext _ _ _
      (λ d _, text_filter_step "payment_method" p d)).
    apply run_step_comm. left.
    apply (run_step_defined _ (text_step "payment_method" p) _ _ H2),
      (run_step_defined _ (text_step "payment_method" p) _ _ H1).
    unfold text_step. by case_decide.
  - intros k Hk Hcol. rewrite !apply_filters_steps.
    cbn [with_category selected_year selected_category selected_payment
         value_transaction].
    rewrite Hk.
    replace (text_step "category" "All")
      with (@None (string * (cell → bool))) by done.
    destruct (run_step (year_step _) df) as [d1|] eqn:H1; [|done].
    cbn [mbind result_bind run_step].
    unfold category_filter.
    rewrite (result_bind_ext _ _ _
      (λ d _, text_filter_step "category" k d)).
    apply run_step_comm2.
    apply (run_step_defined _ (text_step "category" k) _ _ H1).
    unfold text_step. by case_decide.
Qed.

(** ** Groups *)

Section groups.
Context {A K : Type} `{EqDecision K}.
Implicit Types (f : A → option K) (l : list A) (ks : list K).

Lemma filter_or_perm (P Q : A → Prop)
    `{∀ x, Decision (P x)} `{∀ x, Decision (Q x)} l :
  (∀ x, P x → Q x → False) →
  filter P l ++ filter Q l ≡ₚ filter (λ x, P x ∨ Q x) l.
Proof.
  intros Hdisj. induction l as [|x l IH]; [done|].
  rewrite !filter_cons.
  destruct (decide (P x)) as [HP|HP], (decide (Q x)) as [HQ|HQ].
  - by destruct (Hdisj x).
  - rewrite decide_True by (by left). simpl. by rewrite IH.
  - rewrite decide_True by (by right). rewrite <-Permutation_middle.
    by rewrite IH.
  - rewrite decide_False by (by intros [|]). done.
Qed.

Lemma filter_in_ext (P Q : A → Prop)
    `{∀ x, Decision (P x)} `{∀ x, Decision (Q x)} l :
  (∀ x, x ∈ l → P x ↔ Q x) → filter P l = filter Q l.
Proof.
  induction l as [|x l IH]; intros HPQ; [done|].
  rewrite !filter_cons.
  rewrite IH by (intros y Hy; apply HPQ; by right).
  destruct (decide (P x)) as [HP|HP].
  - rewrite decide_True; [done|]. apply HPQ; [left|done].
  - rewrite decide_False; [done|]. intros HQ. apply HP, HPQ; [left|done].
Qed.

(** The groups of a list of keys cover, without overlap, the elements
    whose key is one of the keys. *)
Lemma concat_groups f l ks :
  NoDup ks →
  concat ((λ k, filter (λ x, f x = Some k) l) <$> ks)
  ≡ₚ filter (λ x, key_in ks (f x)) l.
Proof.
  induction 1 as [|k ks Hk Hks IH]; simpl.
  - rewrite (filter_in_ext _ (λ _, False)).
    + by induction l.
    + intros x _. unfold key_in. destruct (f x); cbv beta iota; [|done].
      rewrite bool_decide_spec. split; [|done]. apply not_elem_of_nil.
  - rewrite IH, filter_or_perm.
    + erewrite filter_in_ext; [done|]. intros x _. unfold key_in.
      destruct (f x) as [k'|]; cbv beta iota.
      * rewrite !bool_decide_spec, elem_of_cons. split.
        -- intros [[= ->]|?]; auto.
        -- intros [->|?]; auto.
      * split; [by intros [|]|done].
    + intros x Hx. unfold key_in. rewrite Hx; cbv beta iota.
      by rewrite bool_decide_spec.
Qed.

Lemma elem_of_group_keys (le : relation K) `{∀ x y, Decision (le x y)}
    (keys : list (option K)) k :
  k ∈ group_keys le keys ↔ Some k ∈ keys.
Proof.
  unfold group_keys. rewrite merge_sort_Permutation, elem_of_remove_dups.
  rewrite list_elem_of_omap. split.
  - intros (o & Ho & Hid). simpl in Hid. by subst.
  - intros Ho. by exists (Some k).
Qed.

Lemma NoDup_group_keys (le : relation K) `{∀ x y, Decision (le x y)}
    (keys : list (option K)) :
  NoDup (group_keys le keys).
Proof.
  unfold group_keys. rewrite merge_sort_Permutation. apply NoDup_remove_dups.
Qed.

(** Grouping a list by the keys of its elements: the groups together are,
    up to order, the elements that have a key. *)
Lemma groups_partition (le : relation K) `{∀ x y, Decision (le x y)} f l :
  concat ((λ k, filter (λ x, f x = Some k) l) <$> group_keys le (f <$> l))
  ≡ₚ filter (λ x, is_Some (f x)) l.
Proof.
  rewrite concat_groups by apply NoDup_group_keys.
  erewrite filter_in_ext; [done|]. intros x Hx. unfold key_in.
  destruct (f x) as [k|] eqn:Hk; cbv beta iota.
  - rewrite bool_decide_spec, elem_of_group_keys, <-Hk.
    split; [by eexists|]. intros _. by apply list_elem_of_fmap_2.
  - split; [done|]. by intros [].
Qed.
End groups.

Lemma traverse_Forall2 {A B} (f : A → result B) ks l :
  traverse f ks = Ok l →
  Forall2 (λ k y, f k = Ok y) ks l.
Proof.
  revert l. induction ks as [|k ks IH]; intros l; simpl.
  - intros [= <-]. constructor.
  - destruct (f k) as [y|] eqn:Hk; [|done]. cbn [mbind result_bind].
    destruct (traverse f ks) as [ys|]; [|done]. cbn [mbind result_bind].
    intros [= <-]. constructor; [done|]. by apply IH.
Qed.

Lemma traverse_ok {A B} (f : A → result B) (g : A → B) ks :
  (∀ k, k ∈ ks → f k = Ok (g k)) → traverse f ks = Ok (g <$> ks).
Proof.
  induction ks as [|k ks IH]; intros Hf; [done|]. simpl.
  rewrite Hf by left. cbn [mbind result_bind].
  rewrite IH by (intros k' Hk'; apply Hf; by right). done.
Qed.

Lemma group_rows {K} `{EqDecision K} (f : Row → option K) df k :
  rows (loc_mask df (group_mask (f <$> rows df) k))
  = filter (λ r, f r = Some k) (rows df).
Proof.
  rewrite rows_loc_mask. unfold group_mask.
  rewrite <-list_fmap_compose. apply (mask_select_filter (λ r, f r = Some k)).
Qed.

Lemma groupby_rows {K} `{EqDecision K} (le : relation K)
    `{∀ x y, Decision (le x y)} (f : Row → option K) df :
  (λ b, rows b.2) <$> groupby le df (f <$> rows df)
  = (λ k, filter (λ r, f r = Some k) (rows df))
      <$> group_keys le (f <$> rows df).
Proof.
  unfold groupby. rewrite <-list_fmap_compose. apply list_fmap_ext.
  intros _ k _; simpl. apply group_rows.
Qed.

Lemma groupby_keys {K} `{EqDecision K} (le : relation K)
    `{∀ x y, Decision (le x y)} df keys :
  (groupby le df keys).*1 = group_keys le keys.
Proof.
  unfold groupby. rewrite <-list_fmap_compose. apply list_fmap_id.
Qed.

Lemma filter_True_id {A} (l : list A) : filter (λ _, True) l = l.
Proof. induction l as [|x l IH]; [done|]. by rewrite filter_cons, IH. Qed.

Lemma key_of_Some c k : key_of c = Some k → c = k.
Proof. unfold key_of. destruct (notna c); by intros [=]. Qed.

Section filtered_view.
Context `{Coercions}.

Lemma apply_filters_has_column df c df_f x :
  apply_filters df c = Ok df_f →
  is_Some (columns df_f !! x) ↔ is_Some (columns df !! x).
Proof.
  rewrite apply_filters_steps. set (s := Some (x, λ _ : cell, true)).
  change (is_Some (columns df_f !! x)) with (step_defined s df_f).
  change (is_Some (columns df !! x)) with (step_defined s df).
  destruct (run_step _ df) as [d1|] eqn:H1; [|done]. cbn [mbind result_bind].
  destruct (run_step _ d1) as [d2|] eqn:H2; [|done]. cbn [mbind result_bind].
  destruct (run_step _ d2) as [d3|] eqn:H3; [|done]. cbn [mbind result_bind].
  intros H4.
  by rewrite (run_step_defined _ s _ _ H4), (run_step_defined _ s _ _ H3),
    (run_step_defined _ s _ _ H2), (run_step_defined _ s _ _ H1).
Qed.

(** A filtered view of a prepared table: well formed, its rows are rows of
    the prepared table, each with a parsed date and its month key. *)
Lemma filtered_view raw df c df_f :
  wf raw → load_data raw = Ok df → apply_filters df c = Ok df_f →
  wf df_f ∧
  (∀ r, r ∈ rows df_f → r ∈ rows df) ∧
  ∃ by_month, getitem df_f "month_name" = Ok by_month ∧
    by_month = (λ r, field r "month_name") <$> rows df_f ∧
    ∀ r, r ∈ rows df_f →
      ∃ t, field r "month_name" = Str (strftime_Ym t) ∧
           ts_year t = selected_year c.
Proof.
  intros Hwf Hload Hf.
  pose proof (load_data_prepared _ _ Hwf Hload) as Hp.
  destruct (apply_filters_rows _ _ _ (prep_wf _ _ Hp) Hf) as [Hrows Hwf'].
  assert (Hv : ∀ r, r ∈ rows df_f → r ∈ rows df ∧ passes c r).
  { intros r. rewrite Hrows, list_elem_of_filter. tauto. }
  split; [done|]. split; [intros r Hr; by apply Hv|].
  destruct (prep_dates _ _ Hp) as (od & _ & _ & _ & _ & Hm).
  destruct (proj2 (apply_filters_has_column _ _ _ "month_name" Hf))
    as [s Hs]; [by rewrite Hm|].
  exists s. unfold getitem. rewrite Hs. split; [done|].
  split; [by apply column_rows|].
  intros r Hr. destruct (Hv r Hr) as [Hin Hpass].
  destruct (passes_dated _ _ _ _ Hp Hin Hpass) as (t & _ & Hy & Ht).
  by exists t.
Qed.
End filtered_view.


(** ** Sums over rows *)

Lemma field_Num r c q : field r c = Num q → num r c = q.
Proof.
  unfold field, num. destruct (r.2 !! c) as [x|]; simpl; [|done].
  by intros ->.
Qed.

Lemma series_sum_fields c (rs : list Row) :
  (∀ r, r ∈ rs → ∃ q, field r c = Num q) →
  series_sum ((λ r, field r c) <$> rs) = Ok (sum_field c rs).
Proof.
  induction rs as [|r rs IH]; intros Hnum; [done|].
  destruct (Hnum r) as [q Hq]; [left|].
  rewrite fmap_cons. simpl. rewrite Hq.
  rewrite IH by (intros r' Hr'; apply Hnum; by right).
  cbn [mbind result_bind]. unfold sum_field. rewrite fmap_cons. simpl.
  by rewrite (field_Num _ _ _ Hq).
Qed.

Lemma sum_list_app l1 l2 : sum_list (l1 ++ l2) = (sum_list l1 + sum_list l2)%Qc.
Proof.
  induction l1 as [|x l1 IH]; simpl; [by rewrite Qcplus_0_l|].
  rewrite IH. ring.
Qed.

Lemma sum_list_perm l1 l2 : l1 ≡ₚ l2 → sum_list l1 = sum_list l2.
Proof.
  induction 1 as [|x l1 l2 _ IH|x y l|l1 l2 l3 _ IH1 _ IH2]; simpl.
  - done.
  - by rewrite IH.
  - ring.
  - by rewrite IH1.
Qed.

Lemma sum_field_concat c (gs : list (list Row)) :
  sum_list (sum_field c <$> gs) = sum_field c (concat gs).
Proof.
  induction gs as [|g gs IH]; [done|]. rewrite fmap_cons. simpl.
  rewrite IH. unfold sum_field. by rewrite fmap_app, sum_list_app.
Qed.

Lemma sum_field_perm c rs1 rs2 :
  rs1 ≡ₚ rs2 → sum_field c rs1 = sum_field c rs2.
Proof. intros Hp. unfold sum_field. apply sum_list_perm. by rewrite Hp. Qed.

(** ** Sorting by position *)

Lemma omap_fmap {A B C} (f : B → option C) (g : A → B) (l : list A) :
  omap f (g <$> l) = omap (λ x, f (g x)) l.
Proof.
  induction l as [|x l IH]; [done|]. csimpl. by rewrite IH.
Qed.

Lemma omap_lookup_seq {A} (l : list A) :
  omap (l !!.) (seq 0 (length l)) = l.
Proof.
  induction l as [|x l IH]; [done|]. simpl.
  rewrite <-fmap_S_seq, omap_fmap. csimpl. by rewrite IH.
Qed.

Lemma take_rows_perm {A} (ix : list nat) (l : list A) :
  ix ≡ₚ seq 0 (length l) → take_rows ix l ≡ₚ l.
Proof.
  intros Hix. unfold take_rows. by rewrite Hix, omap_lookup_seq.
Qed.

Lemma take_rows_lookup {A} (ix : list nat) (l : list A) i x :
  ix ≡ₚ seq 0 (length l) →
  take_rows ix l !! i = Some x → (ix !! i) ≫= (l !!.) = Some x.
Proof.
  intros Hix. unfold take_rows.
  assert (Hall : Forall (λ j, is_Some (l !! j)) ix).
  { rewrite Hix. apply Forall_forall. intros j Hj%in_seq.
    apply lookup_lt_is_Some. lia. }
  clear Hix. revert i. induction Hall as [|j ix [y Hy] _ IH]; intros i.
  - done.
  - simpl. rewrite Hy. destruct i as [|i]; simpl; [by rewrite Hy|].
    apply IH.
Qed.

(** ** The product rollup *)

Lemma zip3_keys_fmap {A} (ga gb gc : A → cell) (l : list A) :
  zip3_keys (ga <$> l) (gb <$> l) (gc <$> l)
  = (λ r, key3_of (ga r) (gb r) (gc r)) <$> l.
Proof. induction l as [|x l IH]; [done|]. csimpl. by rewrite IH. Qed.

Lemma group_column {K B} `{EqDecision K} (f : Row → option K)
    (g : Row → B) (l : list Row) k :
  mask_select (group_mask (f <$> l) k) (g <$> l)
  = g <$> filter (λ r, f r = Some k) l.
Proof.
  rewrite mask_select_fmap. f_equal. unfold group_mask.
  rewrite <-list_fmap_compose. apply (mask_select_filter (λ r, f r = Some k)).
Qed.

Section rollup.
Context `{Coercions}.

Lemma filtered_column raw df c df_f col :
  wf raw → load_data raw = Ok df → apply_filters df c = Ok df_f →
  is_Some (columns df !! col) →
  getitem df_f col = Ok ((λ r, field r col) <$> rows df_f).
Proof.
  intros Hwf Hload Hf Hcol.
  destruct (filtered_view _ _ _ _ Hwf Hload Hf) as (Hwf' & _).
  apply (apply_filters_has_column _ _ _ _ Hf) in Hcol as [s Hs].
  unfold getitem. rewrite Hs. f_equal. by apply column_rows.
Qed.

Lemma prepared_has_column raw df col :
  prepared raw df → col ∈ rollup_columns →
  is_Some (columns (strip_columns raw) !! col) →
  is_Some (columns df !! col).
Proof.
  intros Hp Hin Hcol. destruct (decide (col ∈ numeric_columns)) as [Hn|Hn].
  - rewrite (prep_numeric _ _ Hp _ Hn). by apply fmap_is_Some.
  - rewrite (prep_other _ _ Hp); [done|]. intros Hw. revert Hin Hn.
    unfold written_columns in Hw.
    repeat (apply elem_of_cons in Hw as [->|Hw];
            [intros Hin Hn; (absurd_lit || (exfalso; apply Hn; lit))|]).
    by apply elem_of_nil in Hw.
Qed.

Lemma prepared_numeric_field raw df col r :
  prepared raw df → r ∈ rows df →
  (col ∈ numeric_columns ∧ is_Some (columns df !! col))
    ∨ col = "net_profit" →
  ∃ q, field r col = Num q.
Proof.
  intros Hp [i Hr]%list_elem_of_lookup [[Hn Hc]| ->]; unfold field.
  - destruct (prepared_numeric_at _ _ _ _ _ Hp Hr Hn) as [_ Hf].
    rewrite Hf. unfold has_column. rewrite bool_decide_eq_true_2 by done.
    by eexists.
  - rewrite (prepared_net_profit_at _ _ _ _ Hp Hr). by eexists.
Qed.

(** Before sorting, [prod_agg] holds the groups of the rows of the view. *)
Lemma prod_agg_spec `{Sorter} raw df c df_f :
  wf raw → load_data raw = Ok df → apply_filters df c = Ok df_f →
  (∀ col, col ∈ rollup_columns →
     is_Some (columns (strip_columns raw) !! col)) →
  prod_agg df_f
  = Ok (take_rows
          (argsort_desc (pa_before_discount <$> product_groups (rows df_f)))
          (product_groups (rows df_f))).
Proof.
  intros Hwf Hload Hf Hcols.
  pose proof (load_data_prepared _ _ Hwf Hload) as Hp.
  destruct (filtered_view _ _ _ _ Hwf Hload Hf) as (_ & Hsub & _).
  assert (Hcol : ∀ col, col ∈ rollup_columns →
    getitem df_f col = Ok ((λ r, field r col) <$> rows df_f)).
  { intros col Hin. eapply filtered_column; [done..|].
    eapply prepared_has_column; [done..|]. by apply Hcols. }
  assert (Hnp : getitem df_f "net_profit"
    = Ok ((λ r, field r "net_profit") <$> rows df_f)).
  { eapply filtered_column; [done..|]. by rewrite (prep_net_profit _ _ Hp). }
  assert (Hnum : ∀ col (rs : list Row),
    col ∈ ["before_discount"; "after_discount"; "net_profit"; "qty_ordered"] →
    (∀ r, r ∈ rs → r ∈ rows df_f) →
    series_sum ((λ r, field r col) <$> rs) = Ok (sum_field col rs)).
  { intros col rs Hin Hrs. apply series_sum_fields. intros r Hr.
    eapply prepared_numeric_field; [done|by apply Hsub, Hrs|].
    destruct (decide (col = "net_profit")) as [->|Hne]; [by right|left].
    assert (col ∈ numeric_columns ∧ col ∈ rollup_columns) as [Hn Hr'].
    { repeat (apply elem_of_cons in Hin as [->|Hin]; [split; (lit || done)|]).
      by apply elem_of_nil in Hin. }
    split; [done|]. eapply prepared_has_column; [done..|]. by apply Hcols. }
  unfold prod_agg.
  repeat (first [rewrite Hcol by lit | rewrite Hnp];
          cbn [mbind result_bind]).
  cbv zeta. rewrite zip3_keys_fmap. fold product_key.
  rewrite (traverse_ok _ (λ k, product_row k
    (filter (λ r, product_key r = Some k) (rows df_f)))).
  { done. }
  intros k _. cbv zeta. rewrite !group_column.
  rewrite !Hnum by (lit || (intros r Hr%list_elem_of_filter; tauto)).
  done.
Qed.
End rollup.

(** ** A sorter that keeps the contract *)

Lemma StronglySorted_lookup {A} (R : relation A) l i j x y :
  StronglySorted R l → (i < j)%nat →
  l !! i = Some x → l !! j = Some y → R x y.
Proof.
  intros Hl. revert i j. induction Hl as [|a l _ IH Hall]; intros i j Hij.
  - done.
  - destruct j as [|j]; [lia|]. destruct i as [|i]; simpl.
    + intros [= <-] Hy. by eapply Forall_lookup_1 in Hall.
    + apply IH. lia.
Qed.

Global Instance by_value_desc_trans : Transitive by_value_desc.
Proof. intros a b c Hab Hbc. unfold by_value_desc in *. by etrans. Qed.

Global Instance by_value_desc_total : Total by_value_desc.
Proof. intros a b. unfold by_value_desc. destruct (total Qcle a.2 b.2); auto. Qed.

Lemma stable_sorter_ok : sorts_descending stable_sorter.
Proof.
  intros l. unfold argsort_desc; simpl. unfold stable_argsort_desc.
  set (z := zip (seq 0 (length l)) l).
  assert (Hz : ∀ a x, (a, x) ∈ merge_sort by_value_desc z → l !! a = Some x).
  { intros a x. rewrite merge_sort_Permutation.
    intros [k Hk]%list_elem_of_lookup.
    apply lookup_zip_Some in Hk as [Hs Hl].
    apply lookup_seq in Hs as [-> _]. done. }
  split.
  { rewrite merge_sort_Permutation. unfold z.
    by rewrite fst_zip by (rewrite length_seq; lia). }
  intros i j x y Hij. rewrite !list_lookup_fmap.
  destruct (merge_sort by_value_desc z !! i) as [[a x']|] eqn:Hi; [|done].
  destruct (merge_sort by_value_desc z !! j) as [[b y']|] eqn:Hj; [|done].
  simpl. rewrite (Hz a x'), (Hz b y') by by eapply list_elem_of_lookup_2.
  intros [= <-] [= <-].
  destruct (decide (i = j)) as [->|Hne]; [by simplify_eq|].
  apply (StronglySorted_lookup by_value_desc
           (merge_sort by_value_desc z) i j (a, x') (b, y'));
    [|lia|done..].
  apply StronglySorted_merge_sort; apply _.
Qed.

Lemma sum_product_groups (rs : list Row) :
  sum_list (pa_before_discount <$> product_groups rs)
  = sum_field "before_discount" (filter (λ r, is_Some (product_key r)) rs).
Proof.
  unfold product_groups. rewrite <-list_fmap_compose.
  change (pa_before_discount ∘ _) with
    (sum_field "before_discount"
       ∘ (λ k, filter (λ r, product_key r = Some k) rs)).
  rewrite list_fmap_compose, sum_field_concat.
  apply sum_field_perm, groups_partition.
Qed.

Lemma complete_keys_rows df :
  wf df → complete_keys df = true → ∀ r, r ∈ rows df → is_Some (product_key r).
Proof.
  intros Hwf Hk r Hr. unfold complete_keys in Hk. cbn [forallb] in Hk.
  rewrite !andb_true_iff in Hk. destruct Hk as (H1 & H2 & H3 & _).
  assert (Hcol : ∀ c, match columns df !! c with
                      | Some s => forallb notna s
                      | None => false
                      end = true → notna (field r c) = true).
  { intros c Hc. destruct (columns df !! c) as [s|] eqn:Hs; [|done].
    rewrite (column_rows _ _ _ Hwf Hs) in Hc.
    rewrite forallb_forall in Hc. apply Hc, list_elem_of_In.
    apply list_elem_of_fmap. by exists r. }
  unfold product_key, key3_of.
  rewrite (Hcol _ H1), (Hcol _ H2), (Hcol _ H3). by eexists.
Qed.

Lemma product_groups_keys (rs : list Row) :
  product_row_key <$> product_groups rs
  = group_keys key3_le (product_key <$> rs).
Proof.
  unfold product_groups. rewrite <-list_fmap_compose.
  rewrite <-(list_fmap_id (group_keys _ _)) at 2.
  apply list_fmap_ext. by intros i [[??]?] _.
Qed.

Lemma elem_of_product_groups (rs : list Row) p :
  p ∈ product_groups rs ↔
  Some (product_row_key p) ∈ product_key <$> rs ∧
  p = product_row (product_row_key p)
        (filter (λ r, product_key r = Some (product_row_key p)) rs).
Proof.
  unfold product_groups. rewrite list_elem_of_fmap. split.
  - intros (k & -> & Hk). apply elem_of_group_keys in Hk.
    by destruct k as [[??]?].
  - intros [Hk Hp]. exists (product_row_key p). split; [done|].
    by apply elem_of_group_keys.
Qed.

(** C5 (as the code has it). The product rollup has one row per product
    key of the view, holding the [before_discount] of the rows that carry
    the key; a row in which the product id, the product name or the
    category is missing carries no key and is in no group.  Where the
    amounts are whole numbers that float64 adds without rounding, the
    rollup therefore adds up to the [before_discount] of the rows that
    have the three values, and to that of the whole view when no row
    lacks one. *)
Theorem rollup_total_before_discount `{Coercions} (S : Sorter)
    raw df c df_f :
  sorts_descending S →
  wf raw → load_data raw = Ok df → apply_filters df c = Ok df_f →
  (∀ col, col ∈ rollup_columns →
     is_Some (columns (strip_columns raw) !! col)) →
  ∃ rollup, prod_agg df_f = Ok rollup ∧
    NoDup (product_row_key <$> rollup) ∧
    (∀ p, p ∈ rollup →
       pa_before_discount p
       = sum_field "before_discount"
           (filter (λ r, product_key r = Some (product_row_key p))
              (rows df_f))) ∧
    (∀ r, r ∈ rows df_f →
       is_Some (product_key r)
       ↔ ∃ p, p ∈ rollup ∧ product_key r = Some (product_row_key p)) ∧
    (exact_amounts df_f = true →
     sum_list (pa_before_discount <$> rollup)
     = sum_field "before_discount"
         (filter (λ r, is_Some (product_key r)) (rows df_f)) ∧
     (complete_keys df_f = true →
      sum_list (pa_before_discount <$> rollup)
      = sum_field "before_discount" (rows df_f))).
Proof.
  intros HS Hwf Hload Hf Hcols. eexists. split.
  { by eapply prod_agg_spec. }
  set (groups := product_groups (rows df_f)).
  destruct (HS (pa_before_discount <$> groups)) as [Hperm _].
  rewrite length_fmap in Hperm. apply take_rows_perm in Hperm.
  set (rollup := take_rows _ groups) in *.
  destruct (filtered_view _ _ _ _ Hwf Hload Hf) as (Hwf' & _).
  split; [|split; [|split]].
  - rewrite Hperm. unfold groups. rewrite product_groups_keys.
    apply NoDup_group_keys.
  - intros p Hp. rewrite Hperm in Hp.
    apply elem_of_product_groups in Hp as [_ Hp]. by rewrite Hp at 1.
  - intros r Hr. split.
    + intros [k Hk]. exists (product_row k
        (filter (λ r, product_key r = Some k) (rows df_f))).
      assert (Hkey : product_row_key (product_row k
        (filter (λ r, product_key r = Some k) (rows df_f))) = k)
        by by destruct k as [[??]?].
      split; [|by rewrite Hkey].
      rewrite Hperm. apply elem_of_product_groups. rewrite Hkey.
      split; [|done]. rewrite <-Hk. apply list_elem_of_fmap. by exists r.
    + intros (p & _ & Hp). by eexists.
  - intros Hexact.
    assert (Htot : sum_list (pa_before_discount <$> rollup)
      = sum_field "before_discount"
          (filter (λ r, is_Some (product_key r)) (rows df_f))).
    { rewrite <-sum_product_groups.
      by apply sum_list_perm, fmap_Permutation. }
    split; [done|]. intros Hall. rewrite Htot.
    rewrite (filter_in_ext _ (λ _, True)); [by rewrite filter_True_id|].
    intros r Hr. split; [done|]. intros _.
    by apply (complete_keys_rows df_f).
Qed.

(** C8 (as the code has it). The rollup lists the product groups of the
    view, each once, from the largest summed [before_discount] down.  The
    order among equal sums is the sorter's. *)
Theorem rollup_sorted_descending `{Coercions} (S : Sorter) raw df c df_f :
  sorts_descending S →
  wf raw → load_data raw = Ok df → apply_filters df c = Ok df_f →
  (∀ col, col ∈ rollup_columns →
     is_Some (columns (strip_columns raw) !! col)) →
  ∃ rollup, prod_agg df_f = Ok rollup ∧
    rollup ≡ₚ product_groups (rows df_f) ∧
    ∀ i j x y, (i ≤ j)%nat →
      rollup !! i = Some x → rollup !! j = Some y →
      (pa_before_discount y ≤ pa_before_discount x)%Qc.
Proof.
  intros HS Hwf Hload Hf Hcols. eexists. split.
  { by eapply prod_agg_spec. }
  set (groups := product_groups (rows df_f)).
  destruct (HS (pa_before_discount <$> groups)) as [Hperm Hsorted].
  rewrite length_fmap in Hperm.
  split; [by apply take_rows_perm|].
  intros i j x y Hij Hx Hy.
  apply (take_rows_lookup _ _ _ _ Hperm) in Hx, Hy.
  apply (Hsorted i j); [done|..].
  - destruct (argsort_desc _ !! i) as [a|]; [|done]. simpl in *.
    by rewrite list_lookup_fmap, Hx.
  - destruct (argsort_desc _ !! j) as [b|]; [|done]. simpl in *.
    by rewrite list_lookup_fmap, Hy.
Qed.

(** ** The validity flag *)

Lemma quot_flag_iff (n d : Z) :
  (0 < d)%Z →
  (Z.quot n d = 0 ∨ Z.quot n d = 1)%Z ↔ (- d < n < 2 * d)%Z.
Proof.
  intros Hd. pose proof (Z.quot_rem' n d) as Hqr.
  destruct (Z.le_gt_cases 0 n) as [Hn|Hn].
  - pose proof (Z.rem_bound_pos n d Hn Hd). nia.
  - pose proof (Z.rem_bound_pos_neg n d Hd ltac:(lia)). nia.
Qed.

Lemma trunc_flag_iff (q : Qc) :
  (trunc q = 0 ∨ trunc q = 1)%Z ↔ (Qc_of_Z (-1) < q ∧ q < Qc_of_Z 2)%Qc.
Proof.
  unfold trunc. rewrite quot_flag_iff by done.
  unfold Qclt, Qlt; simpl. lia.
Qed.

(** C7 (as the code has it). After [load_data] the validity flag of every
    row is an integer: 0 for a missing or non-numeric cell, and for a
    number whose integer part is in the range of [int64] that integer
    part, the value truncated toward zero.  It is 0 or 1 exactly when the
    value lies strictly between -1 and 2. *)
Theorem validity_flag_is_truncation `{Coercions} raw df flags :
  wf raw → load_data raw = Ok df →
  columns (strip_columns raw) !! "is_valid" = Some flags →
  ∀ i r, rows df !! i = Some r →
    ∃ x, flags !! i = Some x ∧
      (to_numeric_cell x = None → field r "is_valid" = Num (Qc_of_Z 0)) ∧
      (∀ q, to_numeric_cell x = Some q →
         (int64_min ≤ trunc q ≤ int64_max)%Z →
         field r "is_valid" = Num (Qc_of_Z (trunc q)) ∧
         ((trunc q = 0 ∨ trunc q = 1)%Z
          ↔ (Qc_of_Z (-1) < q ∧ q < Qc_of_Z 2)%Qc)).
Proof.
  intros Hwf Hload Hflags i r Hr.
  pose proof (load_data_prepared _ _ Hwf Hload) as Hp.
  pose proof (prep_is_valid _ _ Hp) as Hv. rewrite Hflags in Hv.
  simpl in Hv.
  pose proof (prep_wf _ _ Hp _ _ Hv) as Hlen; simpl in Hlen.
  rewrite !length_fmap in Hlen.
  destruct (lookup_lt_is_Some_2 flags i) as [x Hx].
  { rewrite Hlen. by eapply rows_lookup_lt. }
  assert (Hfield : field r "is_valid" = Num (Qc_of_Z (flag_cell x))).
  { unfold field. rewrite (field_lookup _ _ _ _ Hr), Hv; simpl.
    by rewrite !list_lookup_fmap, Hx. }
  exists x. split; [done|]. rewrite Hfield. split.
  - intros Hnone. unfold flag_cell, numeric_cell. by rewrite Hnone.
  - intros q Hq Hrange. unfold flag_cell, numeric_cell, int64_of_float.
    rewrite Hq; simpl. rewrite decide_True by done.
    split; [done|]. apply trunc_flag_iff.
Qed.

(** C7, the claim as stated fails: a flag of 2 in the file stays 2. *)
Lemma validity_flag_counterexample :
  @load_data example_coercions sample_raw = Ok sample_prepared ∧
  columns sample_prepared !! "is_valid"
  = Some (int_cell <$> [1; 1; 1; 0; 2]%Z) ∧
  int_cell 2 ≠ int_cell 0 ∧ int_cell 2 ≠ int_cell 1.
Proof.
  split; [by vm_compute|]. split; [by vm_compute|].
  split; by intros [=].
Qed.

(** C5, the claim as stated fails: the row of [sample_raw] without a
    product name is in the view, with a [before_discount] of 90, and in no
    group of the rollup. *)
Lemma rollup_total_counterexample :
  @load_data example_coercions sample_raw = Ok sample_prepared ∧
  @apply_filters example_coercions sample_prepared example_criteria
  = Ok sample_view ∧
  ∃ rollup, @prod_agg stable_sorter sample_view = Ok rollup ∧
    sum_list (pa_before_discount <$> rollup) = Qc_of_Z 700 ∧
    sum_field "before_discount" (rows sample_view) = Qc_of_Z 790 ∧
    Qc_of_Z 700 ≠ Qc_of_Z 790.
Proof.
  split; [by vm_compute|]. split; [by vm_compute|].
  eexists. split; [vm_compute; reflexivity|].
  split; [apply Qc_is_canon; by vm_compute|].
  split; [apply Qc_is_canon; by vm_compute|]. by intros [=].
Qed.

(** C8, the claim as stated fails: products P1 and P2 both sum to 100;
    P2 is met first in the view, and the rollup lists P1 first, the order
    of the group keys. *)
Lemma rollup_ties_counterexample :
  ∃ top x y,
    @prod_agg stable_sorter sample_view = Ok [top; x; y] ∧
    pa_before_discount x = pa_before_discount y ∧
    sku_id x = Str "P1" ∧ sku_id y = Str "P2" ∧
    discovery_order (rows sample_view)
    = [product_row_key y; product_row_key top; product_row_key x].
Proof.
  do 3 eexists. split; [vm_compute; reflexivity|].
  split; [apply Qc_is_canon; by vm_compute|].
  split; [by vm_compute|]. split; by vm_compute.
Qed.


(** ** Text search *)

Lemma prefix_spec pat s :
  String.prefix pat s = true ↔ ∃ post, s = pat +:+ post.
Proof.
  revert s. induction pat as [|a pat IH]; intros s; simpl.
  - split; [intros _; exists s; reflexivity|intros _; by destruct s].
  - destruct s as [|b s]; simpl.
    + split; [done|]. by intros [post [=]].
    + destruct (ascii_dec a b) as [->|Hne].
      * rewrite IH. split; intros [post Hp]; exists post.
        -- simpl. by rewrite Hp.
        -- simpl in Hp. by injection Hp.
      * split; [done|]. intros [post [=]]. done.
Qed.

Lemma contains_spec pat s :
  contains pat s = true ↔ ∃ pre post, s = pre +:+ pat +:+ post.
Proof.
  induction s as [|a s IH]; cbn [contains].
  - rewrite orb_false_r, prefix_spec. split.
    + intros [post Hp]. by exists "", post.
    + intros ([|b pre] & post & Hp); [by exists post|done].
  - rewrite orb_true_iff, prefix_spec, IH. split.
    + intros [[post Hp]|(pre & post & Hp)].
      * by exists "", post.
      * exists (String a pre), post. simpl. by rewrite Hp.
    + intros ([|b pre] & post & Hp); simpl in Hp.
      * left. by exists post.
      * right. injection Hp as -> Hp. by exists pre, post.
Qed.

Lemma lower_app a b : lower (a +:+ b) = lower a +:+ lower b.
Proof. induction a as [|x a IH]; simpl; [done|]. by rewrite IH. Qed.

Lemma lower_split s x y :
  lower s = x +:+ y → ∃ a b, s = a +:+ b ∧ lower a = x ∧ lower b = y.
Proof.
  revert s. induction x as [|c x IH]; intros s; simpl.
  - intros Hs. by exists "", s.
  - destruct s as [|d s]; simpl; [done|]. intros [= Hc Hs].
    destruct (IH s Hs) as (a & b & -> & Ha & Hb).
    exists (String d a), b. simpl. by rewrite Hc, Ha.
Qed.

(** [s.lower()] contains [pat] exactly when [s] contains [pat] with the
    case of the letters ignored. *)
Lemma contains_lower pat s :
  contains pat (lower s) = true ↔ contains_ignoring_case pat s.
Proof.
  rewrite contains_spec. unfold contains_ignoring_case. split.
  - intros (pre & post & Hs).
    apply lower_split in Hs as (a & b & -> & Ha & Hb).
    apply lower_split in Hb as (m & p & -> & Hm & Hp).
    by exists a, m, p.
  - intros (pre & mid & post & -> & <-).
    exists (lower pre), (lower post). by rewrite !lower_app.
Qed.

(** ** The JazzWallet query *)

Lemma zip_with_fmap_same {A B C D} (f : B → C → D) (g : A → B) (h : A → C)
    (l : list A) :
  zip_with f (g <$> l) (h <$> l) = (λ x, f (g x) (h x)) <$> l.
Proof. induction l as [|x l IH]; [done|]. csimpl. by rewrite IH. Qed.

Section segment.
Context `{Coercions}.

Lemma df_mobile_jazz_rows raw df c df_f :
  wf raw → load_data raw = Ok df → apply_filters df c = Ok df_f →
  (∀ col, col ∈ segment_columns →
     is_Some (columns (strip_columns raw) !! col)) →
  ∃ d, df_mobile_jazz df_f = Ok d ∧ wf d ∧
    (∀ col, is_Some (columns d !! col) ↔ is_Some (columns df_f !! col)) ∧
    rows d = filter (λ r, segment_row (has_column df_f "is_valid") r)
               (rows df_f).
Proof.
  intros Hwf Hload Hf Hcols.
  pose proof (load_data_prepared _ _ Hwf Hload) as Hp.
  destruct (filtered_view _ _ _ _ Hwf Hload Hf) as (Hwf' & _).
  assert (Hcol : ∀ col, col ∈ ["category"; "payment_method"] →
    getitem df_f col = Ok ((λ r, field r col) <$> rows df_f)).
  { intros col Hin. apply (filtered_column raw df c df_f col Hwf Hload Hf).
    rewrite (prep_other _ _ Hp).
    - apply Hcols. revert Hin. unfold segment_columns.
      rewrite !elem_of_cons. tauto.
    - intros Hw. repeat (apply elem_of_cons in Hin as [->|Hin];
        [absurd_lit|]). by apply elem_of_nil in Hin. }
  unfold df_mobile_jazz.
  rewrite (Hcol "category") by lit. cbn [mbind result_bind].
  rewrite (Hcol "payment_method") by lit. cbn [mbind result_bind].
  assert (Hvalid :
    (if has_column df_f "is_valid"
     then is_valid ← getitem df_f "is_valid";
          Ok (Some (series_eq is_valid (Num 1%Qc)))
     else Ok None)
    = Ok (if has_column df_f "is_valid"
          then Some ((λ r, bool_decide (field r "is_valid" = Num 1%Qc))
                       <$> rows df_f)
          else None)).
  { unfold has_column, getitem. case_bool_decide as Hv; [|done].
    destruct Hv as [s Hs]. rewrite Hs. cbn [mbind result_bind].
    rewrite (column_rows _ _ _ Hwf' Hs) at 1. unfold series_eq.
    by rewrite <-list_fmap_compose. }
  rewrite Hvalid. cbn [mbind result_bind]. eexists.
  split; [done|]. split; [by apply wf_loc_mask|]. split.
  { intros col. rewrite loc_mask_lookup. apply fmap_is_Some. }
  rewrite rows_loc_mask. unfold astype_str.
  rewrite <-!list_fmap_compose.
  assert (Hmask : ∀ m : list bool,
    m = (λ r, segment_row (has_column df_f "is_valid") r) <$> rows df_f →
    mask_select m (rows df_f)
    = filter (λ r, segment_row (has_column df_f "is_valid") r) (rows df_f)).
  { intros m ->. apply mask_select_filter_bool. }
  apply Hmask. unfold mask_and, segment_row.
  destruct (has_column df_f "is_valid"); rewrite !zip_with_fmap_same;
    apply list_fmap_ext; intros _ r _; simpl; by rewrite ?andb_true_r.
Qed.

Lemma mobile_jazz_report_spec raw df c df_f :
  wf raw → load_data raw = Ok df → apply_filters df c = Ok df_f →
  (∀ col, col ∈ segment_columns →
     is_Some (columns (strip_columns raw) !! col)) →
  ∃ d, df_mobile_jazz df_f = Ok d ∧
    rows d = filter (λ r, segment_row (has_column df_f "is_valid") r)
               (rows df_f) ∧
    mobile_jazz_report df_f
    = Ok (match rows d with
          | [] => NoTransactions
          | _ :: _ =>
              Totals (trunc (sum_field "qty_ordered" (rows d)))
                     (nunique ((λ r, field r "customer_id") <$> rows d))
          end).
Proof.
  intros Hwf Hload Hf Hcols.
  destruct (df_mobile_jazz_rows _ _ _ _ Hwf Hload Hf Hcols)
    as (d & Hd & Hwfd & Hdcol & Hrows).
  exists d. split; [done|]. split; [done|].
  pose proof (load_data_prepared _ _ Hwf Hload) as Hp.
  destruct (filtered_view _ _ _ _ Hwf Hload Hf) as (Hwf' & Hsub & _).
  unfold mobile_jazz_report. rewrite Hd. cbn [mbind result_bind].
  assert (Hqty : is_Some (columns df !! "qty_ordered")).
  { rewrite (prep_numeric _ _ Hp) by lit. apply fmap_is_Some, Hcols. lit. }
  assert (Hcust : is_Some (columns df !! "customer_id")).
  { rewrite (prep_other _ _ Hp) by lit. apply Hcols. lit. }
  assert (Hget : ∀ col, is_Some (columns df !! col) →
    getitem d col = Ok ((λ r, field r col) <$> rows d)).
  { intros col Hc.
    apply (apply_filters_has_column _ _ _ _ Hf), Hdcol in Hc as [s Hs].
    unfold getitem. rewrite Hs. f_equal. by apply column_rows. }
  destruct (rows d) as [|r rs] eqn:Hrs.
  - unfold empty_frame. rewrite bool_decide_eq_true_2; [done|].
    apply nil_length_inv. by rewrite <-length_rows, Hrs.
  - unfold empty_frame. rewrite !bool_decide_eq_false_2.
    + cbn [orb]. rewrite !Hget by done. cbn [mbind result_bind].
      rewrite series_sum_fields; [done|].
      intros r' Hr'. eapply prepared_numeric_field; [done| |left].
      * apply Hsub. rewrite Hrows in Hr'.
        by apply list_elem_of_filter in Hr' as [_ ?].
      * split; [lit|done].
    + intros Hempty. destruct Hcust as [s Hs].
      assert (is_Some (columns d !! "customer_id")) as [s' Hs'].
      { apply Hdcol, (apply_filters_has_column _ _ _ _ Hf). by eexists. }
      by rewrite Hempty in Hs'.
    + intros Hnil. pose proof (length_rows d) as Hl.
      by rewrite Hrs, Hnil in Hl.
Qed.
End segment.

Lemma nunique_spec (s : list cell) :
  ∃ ids, NoDup ids ∧ (∀ x, x ∈ ids ↔ x ∈ s ∧ x ≠ NaN) ∧
    nunique s = length ids.
Proof.
  exists (remove_dups (dropna s)). split; [apply NoDup_remove_dups|].
  split; [|done]. intros x. unfold dropna.
  rewrite elem_of_remove_dups, list_elem_of_filter. tauto.
Qed.

(** C9. The JazzWallet query keeps exactly the rows of the view whose
    category contains "mobile" or "tablet" and whose payment method
    contains "jazz", case ignored, and, when the view has an [is_valid]
    column, whose flag is 1.  It reports the truncated sum of
    [qty_ordered] and the number of distinct, non-missing customer ids of
    these rows (or that there are none).  On the example data it keeps
    the first row only and reports a quantity of 2 and one customer. *)
Theorem mobile_jazz_segment :
  (∀ (C : Coercions) raw df c df_f,
     wf raw → load_data raw = Ok df → apply_filters df c = Ok df_f →
     (∀ col, col ∈ segment_columns →
        is_Some (columns (strip_columns raw) !! col)) →
     ∃ d, df_mobile_jazz df_f = Ok d ∧
       rows d = filter (λ r, segment_row (has_column df_f "is_valid") r)
                  (rows df_f) ∧
       mobile_jazz_report df_f
       = Ok (match rows d with
             | [] => NoTransactions
             | _ :: _ =>
                 Totals (trunc (sum_field "qty_ordered" (rows d)))
                        (nunique ((λ r, field r "customer_id") <$> rows d))
             end)) ∧
  (∀ pat s, contains pat (lower s) = true ↔ contains_ignoring_case pat s) ∧
  (∀ s, ∃ ids, NoDup ids ∧ (∀ x, x ∈ ids ↔ x ∈ s ∧ x ≠ NaN) ∧
     nunique s = length ids) ∧
  (@load_data example_coercions example_raw = Ok example_prepared ∧
   @apply_filters example_coercions example_prepared example_criteria
   = Ok example_view ∧
   index example_view = [int_cell 0; int_cell 1] ∧
   ∃ d, @df_mobile_jazz example_coercions example_view = Ok d ∧
     index d = [int_cell 0] ∧
     @mobile_jazz_report example_coercions example_view = Ok (Totals 2 1)).
Proof.
  split; [intros C raw df c df_f; apply mobile_jazz_report_spec|].
  split; [apply contains_lower|]. split; [apply nunique_spec|].
  split; [by vm_compute|]. split; [by vm_compute|]. split; [by vm_compute|].
  eexists. split; [vm_compute; reflexivity|]. split; by vm_compute.
Qed.

(** ** The order of group keys *)

Lemma string_leb_trans a b c :
  String.leb a b = true → String.leb b c = true → String.leb a c = true.
Proof.
  unfold String.leb. revert b c.
  induction a as [|x a IH]; intros [|y b] [|z c]; simpl; try done.
  unfold Ascii.compare.
  destruct (N.compare_spec (N_of_ascii x) (N_of_ascii y)) as [Hxy|Hxy|Hxy],
    (N.compare_spec (N_of_ascii y) (N_of_ascii z)) as [Hyz|Hyz|Hyz],
    (N.compare_spec (N_of_ascii x) (N_of_ascii z)) as [Hxz|Hxz|Hxz];
    try done; try lia.
  apply IH.
Qed.

Lemma month_number_inj m1 m2 : month_number m1 = month_number m2 → m1 = m2.
Proof. by destruct m1, m2. Qed.

Lemma Timestamp_leb_spec a b :
  Timestamp_leb a b = true ↔
  (ts_year a < ts_year b ∨ ts_year a = ts_year b ∧
    (month_number (ts_month a) < month_number (ts_month b) ∨
     month_number (ts_month a) = month_number (ts_month b) ∧
      (ts_day a < ts_day b ∨ ts_day a = ts_day b ∧
        ts_nanos a ≤ ts_nanos b)))%Z.
Proof.
  unfold Timestamp_leb.
  rewrite !orb_true_iff, !andb_true_iff, !orb_true_iff, !andb_true_iff,
    !orb_true_iff, !andb_true_iff.
  rewrite !Z.ltb_lt, !Z.eqb_eq, Z.leb_le. done.
Qed.

Global Instance cell_le_total : Total cell_le.
Proof.
  intros a b. unfold cell_le.
  destruct a as [|x|x|x], b as [|y|y|y]; simpl; try (by left); try (by right).
  - rewrite !bool_decide_spec. apply (total Qcle).
  - destruct (String.leb_total x y) as [->| ->]; auto.
  - rewrite !Is_true_true, !Timestamp_leb_spec. lia.
Qed.

Global Instance cell_le_trans : Transitive cell_le.
Proof.
  intros a b c. unfold cell_le.
  destruct a as [|x|x|x], b as [|y|y|y], c as [|z|z|z]; simpl; try done.
  - rewrite !bool_decide_spec. apply transitivity.
  - rewrite !Is_true_true. apply string_leb_trans.
  - rewrite !Is_true_true, !Timestamp_leb_spec. lia.
Qed.

Global Instance cell_le_antisymm : AntiSymm (=) cell_le.
Proof.
  intros a b. unfold cell_le.
  destruct a as [|x|x|x], b as [|y|y|y]; simpl; try done.
  - rewrite !bool_decide_spec. intros Hxy Hyx. f_equal.
    by apply (anti_symm Qcle).
  - rewrite !Is_true_true. intros Hxy Hyx. f_equal.
    by apply String.leb_antisym.
  - rewrite !Is_true_true, !Timestamp_leb_spec. intros Hxy Hyx.
    destruct x as [y1 m1 d1 n1], y as [y2 m2 d2 n2]; simpl in *.
    assert (month_number m1 = month_number m2) as ->%month_number_inj by lia.
    f_equal. f_equal; lia.
Qed.

(** ** The monthly table *)

Lemma series_sum_Ok c (rs : list Row) b :
  series_sum ((λ r, field r c) <$> rs) = Ok b → b = sum_field c rs.
Proof.
  revert b. induction rs as [|r rs IH]; intros b; csimpl.
  - by intros [= <-].
  - unfold sum_field. csimpl. unfold num, field.
    destruct (r.2 !! c) as [[|q|s|t]|]; simpl; try done.
    + intros Hb%IH. by rewrite Qcplus_0_l.
    + destruct (series_sum _) as [b'|]; [|done]. cbn [mbind result_bind].
      intros [= <-]. by rewrite (IH b').
    + intros Hb%IH. by rewrite Qcplus_0_l.
Qed.

Lemma traverse_Ok_fmap {A B} (f : A → result B) (g : A → B) ks l :
  traverse f ks = Ok l → (∀ k y, k ∈ ks → f k = Ok y → y = g k) →
  l = g <$> ks.
Proof.
  intros Hl%traverse_Forall2.
  induction Hl as [|k y ks l Hy _ IH]; intros Hg; [done|]. csimpl.
  rewrite <-(Hg k y) by (done || left). f_equal.
  apply IH. intros k' y' Hk'. apply Hg. by right.
Qed.

Lemma lookup_key_fmap {K A} `{EqDecision K} (h : K → A) (ks : list K) k :
  k ∈ ks → lookup_key k ((λ k, (k, h k)) <$> ks) = Some (h k).
Proof.
  unfold lookup_key. induction ks as [|k' ks IH]; intros Hk.
  - by apply elem_of_nil in Hk.
  - csimpl. rewrite filter_cons. simpl. destruct (decide (k' = k)) as [->|Hne].
    + done.
    + apply IH. by apply elem_of_cons in Hk as [->|?].
Qed.

Lemma StronglySorted_group_keys (keys : list (option cell)) :
  StronglySorted cell_le (group_keys cell_le keys).
Proof. unfold group_keys. apply StronglySorted_merge_sort; apply _. Qed.

Global Instance month_le_trans : Transitive month_le.
Proof. intros a b c. unfold month_le. apply transitivity. Qed.

Global Instance month_le_total : Total month_le.
Proof. intros a b. unfold month_le. apply total, _. Qed.

Lemma monthly_buckets_sorted (rs : list Row) :
  StronglySorted month_le (monthly_buckets rs).
Proof.
  unfold monthly_buckets.
  apply (StronglySorted_fmap _ cell_le); [done|].
  apply StronglySorted_group_keys.
Qed.

(** [sort_index] finds the months already in order. *)
Lemma sort_monthly_buckets (rs : list Row) :
  merge_sort month_le (monthly_buckets rs) = monthly_buckets rs.
Proof.
  apply (StronglySorted_unique_strong month_le).
  - intros x1 x2 Hx1 Hx2 H12 H21.
    rewrite merge_sort_Permutation in Hx1. unfold monthly_buckets in *.
    apply list_elem_of_fmap in Hx1 as (k1 & -> & _).
    apply list_elem_of_fmap in Hx2 as (k2 & -> & _).
    unfold month_le in *; simpl in *.
    assert (k1 = k2) as -> by (by apply (anti_symm cell_le)). done.
  - apply StronglySorted_merge_sort; apply _.
  - apply monthly_buckets_sorted.
  - apply merge_sort_Permutation.
Qed.

Lemma monthly_metrics_spec df_f ms :
  wf df_f → monthly_metrics df_f = Ok ms → ms = monthly_buckets (rows df_f).
Proof.
  intros Hwf. unfold monthly_metrics, monthly_orders, monthly_sums, getitem.
  destruct (columns df_f !! "month_name") as [by_month|] eqn:Hm; [|done].
  cbn [mbind result_bind].
  destruct (columns df_f !! "id") as [id|] eqn:Hid; [|done].
  cbn [mbind result_bind].
  destruct (columns df_f !! "before_discount") as [bd|] eqn:Hbd; [|done].
  cbn [mbind result_bind].
  destruct (columns df_f !! "net_profit") as [np|] eqn:Hnp; [|done].
  cbn [mbind result_bind].
  rewrite (column_rows _ _ _ Hwf Hm), (column_rows _ _ _ Hwf Hid),
    (column_rows _ _ _ Hwf Hbd), (column_rows _ _ _ Hwf Hnp).
  rewrite <-(list_fmap_compose _ key_of). fold month_key.
  change (key_of ∘ _) with month_key.
  destruct (traverse _ _) as [sums|] eqn:Hsums; [|done].
  cbn [mbind result_bind]. intros [= <-].
  apply (traverse_Ok_fmap _ (λ k,
    let rs := filter (λ r, month_key r = Some k) (rows df_f) in
    (k, (sum_field "before_discount" rs, sum_field "net_profit" rs))))
    in Hsums.
  2:{ intros k y _. rewrite !group_column.
      set (rs := filter _ (rows df_f)).
      destruct (series_sum
        ((λ r : Row, default NaN (r.2 !! "before_discount")) <$> rs))
        as [b|] eqn:Hb; cbn [mbind result_bind]; [|done].
      destruct (series_sum
        ((λ r : Row, default NaN (r.2 !! "net_profit")) <$> rs))
        as [n|] eqn:Hn; cbn [mbind result_bind]; [|done].
      intros [= <-].
      by rewrite (series_sum_Ok "before_discount" _ _ Hb),
        (series_sum_Ok "net_profit" _ _ Hn). }
  rewrite Hsums, <-list_fmap_compose, <-sort_monthly_buckets.
  f_equal. unfold monthly_buckets. apply list_fmap_ext; intros i k Hk.
  unfold monthly_row, monthly_bucket; simpl.
  rewrite (lookup_key_fmap
    (λ k, nunique (mask_select (group_mask (month_key <$> rows df_f) k)
                     ((λ r, field r "id") <$> rows df_f))))
    by by eapply list_elem_of_lookup_2.
  by rewrite group_column.
Qed.

Lemma string_compare_app p a b :
  String.compare (p +:+ a) (p +:+ b) = String.compare a b.
Proof.
  induction p as [|x p IH]; simpl; [done|].
  unfold Ascii.compare. by rewrite N.compare_refl.
Qed.

(** Within a year the month keys sort as the months do. *)
Lemma strftime_Ym_leb t1 t2 :
  ts_year t1 = ts_year t2 →
  String.leb (strftime_Ym t1) (strftime_Ym t2) = true ↔
  (month_number (ts_month t1) ≤ month_number (ts_month t2))%Z.
Proof.
  intros Hy. unfold strftime_Ym, String.leb. rewrite Hy.
  rewrite !string_compare_app.
  destruct (ts_month t1), (ts_month t2); simpl; split; intros; done || lia.
Qed.


Section monthly.
Context `{Coercions}.

(** On a filtered view the monthly table exists as soon as the file has
    the [id] and [before_discount] columns; its months are months of the
    selected year, in calendar order. *)
Lemma monthly_metrics_ok raw df c df_f :
  wf raw → load_data raw = Ok df → apply_filters df c = Ok df_f →
  is_Some (columns (strip_columns raw) !! "id") →
  is_Some (columns (strip_columns raw) !! "before_discount") →
  monthly_metrics df_f = Ok (monthly_buckets (rows df_f)).
Proof.
  intros Hwf Hload Hf Hid Hbd.
  pose proof (load_data_prepared _ _ Hwf Hload) as Hp.
  destruct (filtered_view _ _ _ _ Hwf Hload Hf) as (Hwf' & Hsub & _).
  cut (∃ ms, monthly_metrics df_f = Ok ms).
  { intros [ms Hms]. by rewrite Hms, (monthly_metrics_spec _ _ Hwf' Hms). }
  assert (Hcol : ∀ col, is_Some (columns df !! col) →
    getitem df_f col = Ok ((λ r, field r col) <$> rows df_f)).
  { intros col. by apply (filtered_column raw df c). }
  assert (Hnum : ∀ col (rs : list Row),
    col ∈ ["before_discount"; "net_profit"] →
    (∀ r, r ∈ rs → r ∈ rows df_f) →
    series_sum ((λ r, field r col) <$> rs) = Ok (sum_field col rs)).
  { intros col rs Hin Hrs. apply series_sum_fields. intros r Hr.
    eapply prepared_numeric_field; [done|by apply Hsub, Hrs|].
    apply elem_of_cons in Hin as [->|Hin]; [left|right].
    - split; [lit|]. rewrite (prep_numeric _ _ Hp) by lit.
      by apply fmap_is_Some.
    - apply elem_of_cons in Hin as [->|Hin]; [done|].
      by apply elem_of_nil in Hin. }
  destruct (prep_dates _ _ Hp) as (od & _ & _ & _ & _ & Hm).
  unfold monthly_metrics, monthly_orders, monthly_sums.
  rewrite (Hcol "month_name") by (by rewrite Hm).
  cbn [mbind result_bind].
  rewrite (Hcol "id") by (by rewrite (prep_other _ _ Hp) by lit).
  cbn [mbind result_bind].
  rewrite (Hcol "before_discount")
    by (rewrite (prep_numeric _ _ Hp) by lit; by apply fmap_is_Some).
  cbn [mbind result_bind].
  rewrite (Hcol "net_profit") by (by rewrite (prep_net_profit _ _ Hp)).
  cbn [mbind result_bind].
  rewrite <-(list_fmap_compose _ key_of).
  change (key_of ∘ _) with month_key.
  erewrite traverse_ok; [by eexists|].
  intros k _. cbv zeta. rewrite !group_column.
  rewrite !Hnum by (lit || (intros r Hr%list_elem_of_filter; tauto)).
  done.
Qed.

Lemma monthly_buckets_lookup (rs : list Row) n x :
  monthly_buckets rs !! n = Some x →
  ∃ k, group_keys cell_le (month_key <$> rs) !! n = Some k ∧
       month_name x = k.
Proof.
  unfold monthly_buckets. intros (k & -> & Hk)%list_lookup_fmap_Some.
  by exists k.
Qed.

Lemma monthly_metrics_chronological raw df c df_f ms :
  wf raw → load_data raw = Ok df → apply_filters df c = Ok df_f →
  monthly_metrics df_f = Ok ms →
  ∀ i j a b, (i < j)%nat → ms !! i = Some a → ms !! j = Some b →
    ∃ ta tb,
      month_name a = Str (strftime_Ym ta) ∧
      month_name b = Str (strftime_Ym tb) ∧
      ts_year ta = selected_year c ∧ ts_year tb = selected_year c ∧
      (month_number (ts_month ta) < month_number (ts_month tb))%Z.
Proof.
  intros Hwf Hload Hf Hms i j a b Hij Ha Hb.
  destruct (filtered_view _ _ _ _ Hwf Hload Hf)
    as (Hwf' & _ & by_month & _ & _ & Hkey).
  apply (monthly_metrics_spec _ _ Hwf') in Hms. subst ms.
  assert (Hle : month_le a b).
  { by apply (StronglySorted_lookup month_le (monthly_buckets (rows df_f))
                i j a b (monthly_buckets_sorted (rows df_f))). }
  destruct (monthly_buckets_lookup _ _ _ Ha) as (ka & Hka & Hna).
  destruct (monthly_buckets_lookup _ _ _ Hb) as (kb & Hkb & Hnb).
  assert (Hne : ka ≠ kb).
  { intros ->.
    pose proof (NoDup_group_keys cell_le (month_key <$> rows df_f)) as Hnd.
    pose proof (NoDup_lookup _ _ _ _ Hnd Hka Hkb). lia. }
  assert (Hdated : ∀ k n,
    group_keys cell_le (month_key <$> rows df_f) !! n = Some k →
    ∃ t, k = Str (strftime_Ym t) ∧ ts_year t = selected_year c).
  { intros k n Hk.
    apply list_elem_of_lookup_2, elem_of_group_keys in Hk.
    apply list_elem_of_fmap in Hk as (r & Hr & Hin).
    destruct (Hkey r Hin) as (t & Ht & Hy). exists t. split; [|done].
    unfold month_key in Hr. rewrite Ht in Hr. by injection Hr. }
  destruct (Hdated ka i Hka) as (ta & -> & Hya).
  destruct (Hdated kb j Hkb) as (tb & -> & Hyb).
  exists ta, tb. repeat (split; [done|]).
  unfold month_le, cell_le in Hle. rewrite Hna, Hnb in Hle.
  cbn [cell_leb] in Hle. apply Is_true_true in Hle.
  apply strftime_Ym_leb in Hle; [|congruence].
  destruct (decide (month_number (ts_month ta)
                    = month_number (ts_month tb))) as [Heq|?]; [|lia].
  apply month_number_inj in Heq. exfalso. apply Hne.
  f_equal. unfold strftime_Ym. by rewrite Hya, Hyb, Heq.
Qed.
End monthly.

(** C6. The buckets of the monthly aggregation partition the filtered
    view: [monthly_metrics] returns one row per bucket, computed from the
    rows of that bucket; the rows of the buckets, taken together, are the
    rows of the view (each occurrence once), the bucket keys are distinct,
    and every row of a bucket is a row of the view whose month key is the
    key of the bucket. *)
Theorem monthly_buckets_partition `{Coercions} raw df c df_f :
  wf raw → load_data raw = Ok df → apply_filters df c = Ok df_f →
  is_Some (columns (strip_columns raw) !! "id") →
  is_Some (columns (strip_columns raw) !! "before_discount") →
  ∃ by_month, getitem df_f "month_name" = Ok by_month ∧
    let buckets := groupby cell_le df_f (key_of <$> by_month) in
    monthly_metrics df_f
    = Ok ((λ b, monthly_bucket b.1 (rows b.2)) <$> buckets) ∧
    concat ((λ b, rows b.2) <$> buckets) ≡ₚ rows df_f ∧
    NoDup (buckets.*1) ∧
    (∀ k g r, (k, g) ∈ buckets → r ∈ rows g →
       r ∈ rows df_f ∧ field r "month_name" = k) ∧
    (∀ r, r ∈ rows df_f →
       ∃ g, (field r "month_name", g) ∈ buckets ∧ r ∈ rows g).
Proof.
  intros Hwf Hload Hf Hid Hbd.
  destruct (filtered_view _ _ _ _ Hwf Hload Hf)
    as (Hwf' & _ & by_month & Hget & Hby & Hkey).
  exists by_month. split; [done|]. cbv zeta.
  assert (Hkeys : key_of <$> by_month = month_key <$> rows df_f).
  { by rewrite Hby, <-list_fmap_compose. }
  rewrite Hkeys. split; [|split; [|split; [|split]]].
  - rewrite (monthly_metrics_ok _ _ _ _ Hwf Hload Hf Hid Hbd). f_equal.
    unfold monthly_buckets, groupby. rewrite <-list_fmap_compose.
    apply list_fmap_ext; intros i k _; simpl. by rewrite group_rows.
  - rewrite groupby_rows, groups_partition.
    rewrite (filter_in_ext _ (λ _, True)); [by rewrite filter_True_id|].
    intros r Hr. destruct (Hkey r Hr) as (t & Ht & _). unfold month_key.
    rewrite Ht. split; [done|]. by eexists.
  - rewrite groupby_keys. apply NoDup_group_keys.
  - intros k g r Hb Hr. unfold groupby in Hb.
    apply list_elem_of_fmap in Hb as (k' & [= -> ->] & Hk').
    rewrite group_rows in Hr.
    apply list_elem_of_filter in Hr as [Hfr Hr]. split; [done|].
    by apply key_of_Some.
  - intros r Hr. destruct (Hkey r Hr) as (t & Ht & _).
    assert (Hmk : month_key r = Some (field r "month_name")).
    { unfold month_key. by rewrite Ht. }
    eexists. split.
    + unfold groupby. apply list_elem_of_fmap.
      exists (field r "month_name"). split; [done|].
      apply elem_of_group_keys. rewrite <-Hmk.
      apply list_elem_of_fmap. by exists r.
    + rewrite group_rows. by apply list_elem_of_filter.
Qed.

(** C3. On every filtered view [monthly_metrics] returns, without raising,
    one row per month key of the view, in calendar order, with the number
    of distinct order ids, the sums of [before_discount] and [net_profit]
    and the quotient of the first sum by the count.  For a month whose
    rows carry no order id the quotient is NaN only when the sum is zero
    and an infinity otherwise: the 2022-04 bucket of [sample_raw] has an
    AOV of plus infinity (the overall AOV of tab 2 tests the zero count
    and gives NaN). *)
Theorem monthly_aov_zero_orders :
  (∀ (C : Coercions) raw df c df_f,
     wf raw → load_data raw = Ok df → apply_filters df c = Ok df_f →
     is_Some (columns (strip_columns raw) !! "id") →
     is_Some (columns (strip_columns raw) !! "before_discount") →
     monthly_metrics df_f = Ok (monthly_buckets (rows df_f)) ∧
     ∀ i j a b, (i < j)%nat →
       monthly_buckets (rows df_f) !! i = Some a →
       monthly_buckets (rows df_f) !! j = Some b →
       ∃ ta tb,
         month_name a = Str (strftime_Ym ta) ∧
         month_name b = Str (strftime_Ym tb) ∧
         ts_year ta = selected_year c ∧ ts_year tb = selected_year c ∧
         (month_number (ts_month ta) < month_number (ts_month tb))%Z) ∧
  (∀ k rs,
     unique_orders (monthly_bucket k rs) = Some 0%nat →
     AOV (monthly_bucket k rs)
     = if decide (sum_field "before_discount" rs = 0%Qc) then NotANumber
       else Infinity (bool_decide (sum_field "before_discount" rs < 0)%Qc)) ∧
  (@load_data example_coercions sample_raw = Ok sample_prepared ∧
   @apply_filters example_coercions sample_prepared example_criteria
   = Ok sample_view ∧
   ∃ jan feb mar apr,
     monthly_metrics sample_view = Ok [jan; feb; mar; apr] ∧
     month_name apr = Str "2022-04" ∧
     mm_before_discount apr = Qc_of_Z 90 ∧
     unique_orders apr = Some 0%nat ∧
     AOV apr = Infinity false).
Proof.
  split; [|split].
  - intros C raw df c df_f Hwf Hload Hf Hid Hbd.
    pose proof (monthly_metrics_ok _ _ _ _ Hwf Hload Hf Hid Hbd) as Hms.
    split; [done|].
    by apply (monthly_metrics_chronological raw df c df_f _ Hwf Hload Hf).
  - intros k rs. unfold monthly_bucket; cbn [unique_orders AOV].
    intros [= ->]. done.
  - split; [by vm_compute|]. split; [by vm_compute|].
    do 4 eexists. split; [vm_compute; reflexivity|].
    split; [by vm_compute|]. split; [apply Qc_is_canon; by vm_compute|].
    split; by vm_compute.
Qed.

(** ** The theorems at the example data *)

Ltac columns_present :=
  let col := fresh "col" in
  let Hin := fresh "Hin" in
  intros col Hin;
  repeat (apply elem_of_cons in Hin as [->|Hin]; [lit|]);
  by apply elem_of_nil in Hin.

Lemma validity_filter_missing_column_witness :
  @apply_filters example_coercions unflagged_prepared
    (with_validity example_criteria Valid)
  = Raise (KeyError "is_valid").
Proof.
  apply (@validity_filter_missing_column example_coercions unflagged_raw).
  - unfold wf. lit.
  - by vm_compute.
  - by vm_compute.
  - lit.
  - lit.
  - done.
Defined.

Lemma filter_is_restriction_witness :
  rows example_view `sublist_of` rows example_prepared ∧
  @apply_filters example_coercions example_prepared
    (with_category example_criteria "Mobile")
  = @apply_filters example_coercions example_prepared example_criteria
    ≫= @category_filter example_coercions "Mobile".
Proof.
  destruct (@filter_is_restriction example_coercions example_prepared
              example_criteria) as (Hsub & _ & _ & _ & Hcat).
  split.
  - apply Hsub. by vm_compute.
  - apply Hcat; [done|lit].
Defined.

Lemma rollup_total_before_discount_witness :
  (∃ rollup, @prod_agg stable_sorter sample_view = Ok rollup ∧
     sum_list (pa_before_discount <$> rollup)
     = sum_field "before_discount"
         (filter (λ r, is_Some (product_key r)) (rows sample_view))) ∧
  (∃ rollup, @prod_agg stable_sorter example_view = Ok rollup ∧
     sum_list (pa_before_discount <$> rollup)
     = sum_field "before_discount" (rows example_view)).
Proof.
  split.
  - destruct (@rollup_total_before_discount example_coercions
                stable_sorter sample_raw sample_prepared example_criteria
                sample_view) as (rollup & Hr & _ & _ & _ & Hsum).
    + apply stable_sorter_ok.
    + unfold wf. lit.
    + by vm_compute.
    + by vm_compute.
    + unfold rollup_columns. columns_present.
    + exists rollup. split; [done|]. apply Hsum.
      vm_compute. reflexivity.
  - destruct (@rollup_total_before_discount example_coercions
                stable_sorter example_raw example_prepared example_criteria
                example_view) as (rollup & Hr & _ & _ & _ & Hsum).
    + apply stable_sorter_ok.
    + unfold wf. lit.
    + by vm_compute.
    + by vm_compute.
    + unfold rollup_columns. columns_present.
    + exists rollup. split; [done|].
      destruct Hsum as [_ Hall]; [vm_compute; reflexivity|].
      apply Hall. vm_compute. reflexivity.
Defined.

Lemma rollup_sorted_descending_witness :
  ∃ rollup, @prod_agg stable_sorter sample_view = Ok rollup ∧
    rollup ≡ₚ product_groups (rows sample_view) ∧
    ∀ i j x y, (i ≤ j)%nat →
      rollup !! i = Some x → rollup !! j = Some y →
      (pa_before_discount y ≤ pa_before_discount x)%Qc.
Proof.
  apply (@rollup_sorted_descending example_coercions stable_sorter
           sample_raw sample_prepared example_criteria sample_view).
  - apply stable_sorter_ok.
  - unfold wf. lit.
  - by vm_compute.
  - by vm_compute.
  - unfold rollup_columns. columns_present.
Defined.

Lemma monthly_buckets_partition_witness :
  ∃ by_month, getitem sample_view "month_name" = Ok by_month ∧
    let buckets := groupby cell_le sample_view (key_of <$> by_month) in
    monthly_metrics sample_view
    = Ok ((λ b, monthly_bucket b.1 (rows b.2)) <$> buckets) ∧
    concat ((λ b, rows b.2) <$> buckets) ≡ₚ rows sample_view ∧
    NoDup (buckets.*1) ∧
    (∀ k g r, (k, g) ∈ buckets → r ∈ rows g →
       r ∈ rows sample_view ∧ field r "month_name" = k) ∧
    (∀ r, r ∈ rows sample_view →
       ∃ g, (field r "month_name", g) ∈ buckets ∧ r ∈ rows g).
Proof.
  apply (@monthly_buckets_partition example_coercions sample_raw
           sample_prepared example_criteria).
  - unfold wf. lit.
  - by vm_compute.
  - by vm_compute.
  - lit.
  - lit.
Defined.

Lemma validity_flag_is_truncation_witness :
  field (int_cell 4, row_at (columns sample_prepared) 4) "is_valid"
  = Num (Qc_of_Z (trunc (Qc_of_Z 2))) ∧
  ((trunc (Qc_of_Z 2) = 0 ∨ trunc (Qc_of_Z 2) = 1)%Z
   ↔ (Qc_of_Z (-1) < Qc_of_Z 2 ∧ Qc_of_Z 2 < Qc_of_Z 2)%Qc).
Proof.
  destruct (@validity_flag_is_truncation example_coercions sample_raw
              sample_prepared
              [int_cell 1; int_cell 1; int_cell 1; int_cell 0; int_cell 2])
    with (i := 4%nat) (r := (int_cell 4, row_at (columns sample_prepared) 4))
    as (x & Hx & _ & Hq).
  - unfold wf. lit.
  - by vm_compute.
  - by vm_compute.
  - apply rows_lookup. exists (int_cell 4). split; [by vm_compute|done].
  - injection Hx as <-. apply (Hq (Qc_of_Z 2)); [done|by vm_compute].
Defined.

Lemma unparsed_dates_filtered_out_witness :
  length (rows sample_prepared) = length (index sample_raw) ∧
  (∀ i r, rows sample_prepared !! i = Some r →
     ∃ od x, columns (strip_columns sample_raw) !! "order_date" = Some od ∧
       od !! i = Some x ∧
       field r "order_date" = @to_datetime_cell example_coercions x) ∧
  (∀ r, r ∈ rows sample_prepared → field r "order_date" = NaN →
     field r "year" = NaN ∧ r ∉ rows sample_view) ∧
  (∀ r, r ∈ rows sample_view →
     r ∈ rows sample_prepared ∧
     ∃ t, field r "order_date" = Ts t ∧
          ts_year t = selected_year example_criteria ∧
          field r "month_name" = Str (strftime_Ym t)).
Proof.
  apply (@unparsed_dates_filtered_out example_coercions sample_raw
           sample_prepared example_criteria sample_view).
  - unfold wf. lit.
  - by vm_compute.
  - by vm_compute.
Defined.

Lemma mobile_jazz_segment_witness :
  ∃ d, @df_mobile_jazz example_coercions sample_view = Ok d ∧
    rows d = filter (λ r, @segment_row example_coercions
                            (has_column sample_view "is_valid") r)
               (rows sample_view) ∧
    @mobile_jazz_report example_coercions sample_view
    = Ok (match rows d with
          | [] => NoTransactions
          | _ :: _ =>
              Totals (trunc (sum_field "qty_ordered" (rows d)))
                     (nunique ((λ r, field r "customer_id") <$> rows d))
          end).
Proof.
  apply (proj1 mobile_jazz_segment example_coercions sample_raw
           sample_prepared example_criteria sample_view).
  - unfold wf. lit.
  - by vm_compute.
  - by vm_compute.
  - unfold segment_columns. columns_present.
Defined.

Lemma monthly_aov_zero_orders_witness :
  (monthly_metrics sample_view = Ok (monthly_buckets (rows sample_view)) ∧
   ∀ i j a b, (i < j)%nat →
     monthly_buckets (rows sample_view) !! i = Some a →
     monthly_buckets (rows sample_view) !! j = Some b →
     ∃ ta tb,
       month_name a = Str (strftime_Ym ta) ∧
       month_name b = Str (strftime_Ym tb) ∧
       ts_year ta = selected_year example_criteria ∧
       ts_year tb = selected_year example_criteria ∧
       (month_number (ts_month ta) < month_number (ts_month tb))%Z) ∧
  AOV (monthly_bucket (Str "2022-04")
         (filter (λ r, month_key r = Some (Str "2022-04"))
            (rows sample_view)))
  = Infinity false.
Proof.
  split.
  - apply (proj1 monthly_aov_zero_orders example_coercions sample_raw
             sample_prepared example_criteria sample_view).
    + unfold wf. lit.
    + by vm_compute.
    + by vm_compute.
    + lit.
    + lit.
  - rewrite (proj1 (proj2 monthly_aov_zero_orders)); by vm_compute.
Defined.

(** * The rest of the script

    Preparation of the frame, the sidebar, and the figures of the two
    tabs. *)

(** ** Headers *)

Lemma append_cons a s t : String a s +:+ t = String a (s +:+ t).
Proof. done. Qed.

Lemma append_nil t : EmptyString +:+ t = t.
Proof. done. Qed.

Lemma append_empty_r s : s +:+ EmptyString = s.
Proof. induction s as [|a s IH]; [done|]. by rewrite append_cons, IH. Qed.

Lemma append_assoc s t u : (s +:+ t) +:+ u = s +:+ (t +:+ u).
Proof. induction s as [|a s IH]; [done|]. by rewrite !append_cons, IH. Qed.

Lemma space_prefix_length s r :
  space_prefix s = Some r → (String.length r < String.length s)%nat.
Proof.
  destruct s as [|a [|b [|c s]]]; cbn -[Nat.leb Nat.eqb];
    repeat case_match; intros [= <-]; cbn; lia.
Qed.

Lemma space_prefix_app s r t :
  space_prefix s = Some r → space_prefix (s +:+ t) = Some (r +:+ t).
Proof.
  intros Hs.
  destruct s as [|a [|b [|c s]]]; rewrite ?append_cons, ?append_nil;
    cbn -[Nat.leb Nat.eqb] in Hs |- *; try done.
  - case_match; [|done]. by injection Hs as <-.
  - case_match; [by injection Hs as <-|].
    destruct t; cbn -[Nat.leb Nat.eqb]; case_match; try done;
      by injection Hs as <-.
  - repeat case_match; try done; by injection Hs as <-.
Qed.

Lemma space_prefix_split s r :
  space_prefix s = Some r →
  ∃ w, s = w +:+ r ∧ space_prefix w = Some EmptyString.
Proof.
  intros Hs.
  destruct s as [|a [|b [|c s]]]; cbn -[Nat.leb Nat.eqb] in Hs;
    repeat case_match; try done; injection Hs as <-;
    first [exists (String a EmptyString);
             split; [done|]; cbn -[Nat.leb Nat.eqb];
             by repeat case_match
          | exists (String a (String b EmptyString));
             split; [done|]; cbn -[Nat.leb Nat.eqb];
             by repeat case_match
          | exists (String a (String b (String c EmptyString)));
             split; [done|]; cbn -[Nat.leb Nat.eqb];
             by repeat case_match].
Qed.

Lemma spaces_app s t : spaces s → spaces t → spaces (s +:+ t).
Proof.
  induction 1 as [|s r Hs _ IH]; intros Ht; [done|].
  apply (spaces_cons _ (r +:+ t)); [by apply space_prefix_app|by apply IH].
Qed.

Lemma spaces_prefix_None s :
  spaces s → space_prefix s = None → s = EmptyString.
Proof. destruct 1 as [|s r Hs _]; [done|]. by rewrite Hs. Qed.

Lemma lstrip_from_spec fuel s :
  (String.length s ≤ fuel)%nat →
  ∃ w, s = w +:+ lstrip_from fuel s ∧ spaces w ∧
    space_prefix (lstrip_from fuel s) = None.
Proof.
  revert s. induction fuel as [|fuel IH]; intros s Hlen.
  - destruct s; [|cbn in Hlen; lia]. exists EmptyString.
    split; [done|]. split; [constructor|done].
  - cbn [lstrip_from]. destruct (space_prefix s) as [r|] eqn:Hs.
    + pose proof (space_prefix_length _ _ Hs) as Hlt.
      destruct (IH r ltac:(lia)) as (w & Hr & Hw & Hend).
      destruct (space_prefix_split _ _ Hs) as (w0 & Hs0 & Hw0).
      exists (w0 +:+ w). split; [|split; [|done]].
      * rewrite Hs0 at 1. rewrite Hr at 1. by rewrite append_assoc.
      * apply (spaces_cons _ w); [|done].
        by rewrite (space_prefix_app _ _ w Hw0).
    + exists EmptyString. split; [done|]. split; [constructor|done].
Qed.

Lemma lstrip_spec s :
  ∃ w, s = w +:+ lstrip s ∧ spaces w ∧ space_prefix (lstrip s) = None.
Proof. by apply lstrip_from_spec. Qed.

Lemma lstrip_fixed s : space_prefix s = None → lstrip s = s.
Proof.
  intros Hs. unfold lstrip. destruct (String.length s); [done|].
  cbn [lstrip_from]. by rewrite Hs.
Qed.

Lemma lstrip_spaces s : spaces s → lstrip s = EmptyString.
Proof.
  intros Hs. unfold lstrip.
  assert (Hf : ∀ fuel, (String.length s ≤ fuel)%nat →
    lstrip_from fuel s = EmptyString).
  { induction Hs as [|s r Hs _ IH]; intros fuel Hlen.
    - by destruct fuel.
    - pose proof (space_prefix_length _ _ Hs) as Hlt.
      destruct fuel as [|fuel]; [lia|]. cbn [lstrip_from]. rewrite Hs.
      apply IH. lia. }
  by apply Hf.
Qed.

Lemma all_space_spec s : all_space s = true ↔ spaces s.
Proof.
  unfold all_space. rewrite bool_decide_eq_true. split.
  - intros Hl. destruct (lstrip_spec s) as (w & Hs & Hw & _).
    rewrite Hl, append_empty_r in Hs. by subst.
  - apply lstrip_spaces.
Qed.

Lemma rstrip_spec s :
  (∃ w, s = rstrip s +:+ w ∧ spaces w) ∧ no_space_suffix (rstrip s).
Proof.
  induction s as [|a s [(w & Hs & Hw) IH]].
  - split; [exists EmptyString; split; [done|constructor]|].
    intros [|??] w Hp Hw; [by cbn in Hp; subst|done].
  - cbn [rstrip]. destruct (all_space (String a s)) eqn:Ha.
    + apply all_space_spec in Ha. split; [by exists (String a s)|].
      intros [|??] w' Hp _; [by cbn in Hp; subst|done].
    + split.
      { exists w. split; [|done]. by rewrite append_cons, <-Hs. }
      intros [|b p] w' Hp Hw'.
      * rewrite append_nil in Hp. subst w'. exfalso.
        assert (spaces (String a s)); [|by apply all_space_spec in H;
                                          rewrite H in Ha].
        rewrite Hs, <-append_cons. by apply spaces_app.
      * rewrite append_cons in Hp. injection Hp as -> Hp.
        by apply (IH p).
Qed.

Lemma rstrip_fixed s : no_space_suffix s → rstrip s = s.
Proof.
  induction s as [|a s IH]; intros Hs; [done|]. cbn [rstrip].
  destruct (all_space (String a s)) eqn:Ha.
  - apply all_space_spec in Ha. by apply (Hs EmptyString) in Ha.
  - f_equal. apply IH. intros p w Hp Hw.
    apply (Hs (String a p)); [|done]. by rewrite append_cons, Hp.
Qed.

(** [strip] takes off the white space at both ends, all of it and
    nothing else. *)
Lemma strip_spec s :
  ∃ l r, s = l +:+ strip s +:+ r ∧ spaces l ∧ spaces r ∧
    space_prefix (strip s) = None ∧ no_space_suffix (strip s).
Proof.
  unfold strip. destruct (lstrip_spec s) as (l & Hl & Hsl & Hnone).
  destruct (rstrip_spec (lstrip s)) as [(r & Hr & Hsr) Hsuffix].
  exists l, r. split; [by rewrite <-Hr|]. repeat (split; [done|]).
  split; [|done].
  destruct (space_prefix (rstrip (lstrip s))) as [x|] eqn:Hx; [|done].
  apply (space_prefix_app _ _ r) in Hx. by rewrite <-Hr, Hnone in Hx.
Qed.

Lemma strip_idem s : strip (strip s) = strip s.
Proof.
  destruct (strip_spec s) as (_ & _ & _ & _ & _ & Hp & Hs).
  unfold strip at 1. rewrite (lstrip_fixed _ Hp). by apply rstrip_fixed.
Qed.

Lemma kmap_fixed {A} (f : string → string) (m : gmap string A) :
  (∀ k, is_Some (m !! k) → f k = k) → kmap f m = m.
Proof.
  intros Hf. unfold kmap.
  rewrite <-(list_to_map_to_list m) at 2. f_equal.
  rewrite <-(list_fmap_id (map_to_list m)) at 2.
  apply list_fmap_ext. intros i [k x] Hi. simpl. f_equal.
  apply Hf. exists x. apply elem_of_map_to_list.
  by apply list_elem_of_lookup_2 in Hi.
Qed.

(** ** Preparation *)

Lemma trunc_Qc_of_Z z : trunc (Qc_of_Z z) = z.
Proof.
  unfold trunc, Qc_of_Z, Q2Qc, inject_Z; cbn [this Qnum Qden].
  apply Z.quot_1_r.
Qed.

Lemma int64_of_float_range q :
  (int64_min ≤ int64_of_float q ≤ int64_max)%Z.
Proof. unfold int64_of_float. case_decide; [done|]. by vm_compute. Qed.

Lemma int64_of_float_idem q :
  int64_of_float (Qc_of_Z (int64_of_float q)) = int64_of_float q.
Proof.
  pose proof (int64_of_float_range q) as Hr.
  unfold int64_of_float at 1. rewrite trunc_Qc_of_Z. by rewrite decide_True.
Qed.

Section preparation.
Context `{Coercions}.

Lemma to_datetime_idem s : to_datetime (to_datetime s) = to_datetime s.
Proof.
  unfold to_datetime. rewrite <-list_fmap_compose.
  apply list_fmap_ext; intros i x _; simpl.
  destruct x as [|q|s'|t]; simpl; try done.
  - by destruct (datetime_of_number q).
  - by destruct (datetime_of_string s').
Qed.

Lemma numeric_column_idem (s : list cell) :
  Num <$> (numeric_cell <$> (Num <$> (numeric_cell <$> s)))
  = Num <$> (numeric_cell <$> s).
Proof. rewrite <-!list_fmap_compose. by apply list_fmap_ext. Qed.

Lemma flag_column_idem (s : list cell) :
  (λ z, Num (Qc_of_Z z)) <$>
    (flag_cell <$> ((λ z, Num (Qc_of_Z z)) <$> (flag_cell <$> s)))
  = (λ z, Num (Qc_of_Z z)) <$> (flag_cell <$> s).
Proof.
  rewrite <-!list_fmap_compose. apply list_fmap_ext; intros i x _; simpl.
  change (Num (Qc_of_Z (int64_of_float (Qc_of_Z (flag_cell x))))
          = Num (Qc_of_Z (flag_cell x))).
  unfold flag_cell. by rewrite int64_of_float_idem.
Qed.

Lemma prepared_columns raw df c :
  prepared raw df →
  is_Some (columns df !! c)
  ↔ is_Some (columns (strip_columns raw) !! c) ∨ c ∈ new_columns.
Proof.
  intros Hp. destruct (prep_dates _ _ Hp) as (od & Hod & Hd & Hy & Hm & Hn).
  destruct (decide (c ∈ written_columns)) as [Hc|Hc].
  - unfold written_columns in Hc.
    repeat (apply elem_of_cons in Hc as [->|Hc]);
      try (by apply elem_of_nil in Hc);
      rewrite ?Hd, ?Hy, ?Hm, ?Hn, ?Hod, ?(prep_net_profit _ _ Hp),
        ?(prep_registered _ _ Hp), ?(prep_is_valid _ _ Hp);
      try (rewrite (prep_numeric _ _ Hp) by lit);
      rewrite ?fmap_is_Some;
      try (split; [by left|done]);
      try (split; [intros _; right; lit|done]).
    all: split; [tauto|]; intros [?|Hin]; [done|]; absurd_lit.
  - rewrite (prep_other _ _ Hp) by done. split; [tauto|].
    intros [?|Hin]; [done|]. exfalso. apply Hc.
    unfold new_columns in Hin.
    repeat (apply elem_of_cons in Hin as [->|Hin]; [lit|]).
    by apply elem_of_nil in Hin.
Qed.

Lemma prepared_time_keys_at raw df r :
  prepared raw df → r ∈ rows df →
  match field r "order_date" with
  | Ts t =>
      field r "year" = Num (Qc_of_Z (ts_year t)) ∧
      field r "month" = Num (Qc_of_Z (month_number (ts_month t))) ∧
      field r "month_name" = Str (strftime_Ym t)
  | NaN =>
      field r "year" = NaN ∧ field r "month" = NaN ∧
      field r "month_name" = NaN
  | _ => False
  end.
Proof.
  intros Hp Hr. apply list_elem_of_lookup in Hr as [i Hr].
  destruct (prep_dates _ _ Hp) as (od & Hod & Hd & Hy & Hm & Hn).
  unfold field. rewrite !(field_lookup _ _ _ _ Hr), Hd, Hy, Hm, Hn.
  cbn [mbind option_bind].
  unfold dt_year, dt_month, dt_strftime_Ym, to_datetime.
  rewrite !list_lookup_fmap.
  destruct (od !! i) as [x|] eqn:Hx; cbn [fmap option_fmap option_map default].
  - destruct x as [|q|s|t]; cbn [to_datetime_cell]; try done.
    + by destruct (datetime_of_number q).
    + by destruct (datetime_of_string s).
  - exfalso. apply lookup_ge_None in Hx.
    pose proof (rows_lookup_lt _ _ _ Hr) as Hlt.
    pose proof (prep_wf _ _ Hp _ _ Hd) as Hlen. cbn beta in Hlen.
    unfold to_datetime in Hlen. rewrite length_fmap in Hlen. lia.
Qed.

Lemma prepared_stripped raw df : prepared raw df → strip_columns df = df.
Proof.
  intros Hp. destruct df as [ix cols]. unfold strip_columns; cbn [index columns].
  f_equal. apply kmap_fixed. intros k Hk.
  apply (prepared_columns _ _ k Hp) in Hk as [[s Hs]|Hin].
  - apply strip_columns_lookup_inv in Hs as (k0 & <- & _). apply strip_idem.
  - unfold new_columns in Hin.
    repeat (apply elem_of_cons in Hin as [->|Hin]; [done|]).
    by apply elem_of_nil in Hin.
Qed.

Lemma prepared_idem raw df df2 : prepared raw df → prepared df df2 → df2 = df.
Proof.
  intros Hp Hp2. pose proof (prepared_stripped _ _ Hp) as Hs.
  destruct (prep_dates _ _ Hp) as (od & Hod & Hd & Hy & Hm & Hn).
  destruct (prep_dates _ _ Hp2) as (od2 & Hod2 & Hd2 & Hy2 & Hm2 & Hn2).
  rewrite Hs, Hd in Hod2. injection Hod2 as <-.
  rewrite to_datetime_idem in Hd2, Hy2, Hm2, Hn2.
  assert (Hnum : ∀ c, c ∈ numeric_columns →
    columns df2 !! c = columns df !! c).
  { intros c Hc. rewrite (prep_numeric _ _ Hp2), Hs, (prep_numeric _ _ Hp)
      by done.
    destruct (columns (strip_columns raw) !! c) as [s|]; [|done].
    cbn [fmap option_fmap option_map]. by rewrite numeric_column_idem. }
  assert (Hix : index df2 = index df) by apply (prep_index _ _ Hp2).
  destruct df as [ix cols], df2 as [ix2 cols2]. cbn [index columns] in *.
  subst ix2. f_equal. apply map_eq. intros c.
  destruct (decide (c ∈ written_columns)) as [Hc|Hc].
  - unfold written_columns in Hc.
    repeat (apply elem_of_cons in Hc as [->|Hc]);
      try (by apply elem_of_nil in Hc);
      try (apply Hnum; lit); try congruence.
    + pose proof (prep_registered _ _ Hp2) as H2. rewrite Hs in H2.
      pose proof (prep_registered _ _ Hp) as H1.
      cbn [columns] in H1, H2. rewrite H2, H1.
      destruct (columns (strip_columns raw) !! "registered_date"); [|done].
      cbn [fmap option_fmap option_map]. by rewrite to_datetime_idem.
    + pose proof (prep_net_profit _ _ Hp2) as H2.
      pose proof (prep_net_profit _ _ Hp) as H1.
      cbn [columns] in H1, H2. rewrite H2, H1. f_equal.
      rewrite (net_profit_operand_ext _ {| index := ix; columns := cols |})
        by done.
      done.
    + pose proof (prep_is_valid _ _ Hp2) as H2. rewrite Hs in H2.
      pose proof (prep_is_valid _ _ Hp) as H1.
      cbn [columns] in H1, H2. rewrite H2, H1.
      destruct (columns (strip_columns raw) !! "is_valid"); [|done].
      cbn [fmap option_fmap option_map]. by rewrite flag_column_idem.
  - pose proof (prep_other _ _ Hp2 c Hc) as H2. by rewrite Hs in H2.
Qed.
End preparation.

(** X1. Line 18: [load_data] raises [KeyError: 'order_date'] exactly when no
    header of the file, stripped of the white space around it, is
    [order_date]. *)
Theorem load_data_needs_order_date `{Coercions} raw :
  wf raw →
  load_data raw = Raise (KeyError "order_date")
  ↔ ∀ k, is_Some (columns raw !! k) → strip k ≠ "order_date".
Proof.
  intros Hwf. rewrite <-strip_columns_lookup_None.
  destruct (columns (strip_columns raw) !! "order_date") as [od|] eqn:Hod.
  - destruct (load_data_spec raw od Hwf Hod) as (df & Hdf & _).
    rewrite Hdf. by split.
  - split; [done|]. intros _. unfold load_data, getitem. by rewrite Hod.
Qed.

Lemma load_data_needs_order_date_witness :
  (∀ k, is_Some (columns undated_raw !! k) → strip k ≠ "order_date") ∧
  @load_data example_coercions example_raw ≠ Raise (KeyError "order_date").
Proof.
  split.
  - apply (@load_data_needs_order_date example_coercions undated_raw).
    + unfold wf. lit.
    + vm_compute. reflexivity.
  - intros Hraise.
    apply (@load_data_needs_order_date example_coercions example_raw)
      with (k := "order_date") in Hraise.
    + by apply Hraise.
    + unfold wf. lit.
    + lit.
Defined.

(** X2. Line 16: [df.columns.str.strip()] takes the white space, in the
    sense of [str.isspace], off both ends of every header and leaves the
    rest: a header is white space, its stripped name, and white space
    again, and the name neither starts nor ends with white space.  Every
    column of the stripped frame is a column of the file under the
    stripped header, and a column of the file is found under its stripped
    header when no other header strips to the same name. *)
Theorem headers_are_stripped raw :
  (∀ k, ∃ l r, k = l +:+ strip k +:+ r ∧ spaces l ∧ spaces r ∧
     space_prefix (strip k) = None ∧ no_space_suffix (strip k)) ∧
  (∀ c s, columns (strip_columns raw) !! c = Some s →
     ∃ k, strip k = c ∧ columns raw !! k = Some s) ∧
  (∀ k s, columns raw !! k = Some s →
     (∀ k', is_Some (columns raw !! k') → strip k' = strip k → k' = k) →
     columns (strip_columns raw) !! strip k = Some s).
Proof.
  split; [|split].
  - apply strip_spec.
  - apply strip_columns_lookup_inv.
  - apply strip_columns_lookup.
Qed.

Lemma headers_are_stripped_witness :
  columns (strip_columns padded_raw) !! "order_date"
  = Some [Str "2022-01-15"; Str "2022-02-01"].
Proof.
  destruct (headers_are_stripped padded_raw) as (_ & _ & Hl).
  apply (Hl " order_date "); [by vm_compute|].
  intros k' [s Hk'] Hstrip. apply elem_of_map_to_list in Hk'.
  vm_compute in Hk'.
  repeat (apply elem_of_cons in Hk' as [[= -> _]|Hk'];
          [by vm_compute in Hstrip|]).
  by apply elem_of_nil in Hk'.
Defined.

(** X3. Lines 22-24: in the frame [load_data] returns, each of the six money
    and quantity columns that the file has holds a number in every row:
    the number read from the cell, or 0 when the cell is missing or does
    not parse.  A column the file lacks is not created. *)
Theorem numeric_fields_are_numbers `{Coercions} raw df :
  wf raw → load_data raw = Ok df →
  ∀ i r c, rows df !! i = Some r → c ∈ numeric_columns →
    match columns (strip_columns raw) !! c with
    | Some s =>
        ∃ x, s !! i = Some x ∧
          r.2 !! c = Some (Num (default 0%Qc (to_numeric_cell x)))
    | None => r.2 !! c = None
    end.
Proof.
  intros Hwf Hload i r c Hr Hc.
  pose proof (load_data_prepared _ _ Hwf Hload) as Hp.
  rewrite (field_lookup _ _ _ _ Hr), (prep_numeric _ _ Hp) by done.
  destruct (columns (strip_columns raw) !! c) as [s|] eqn:Hs; [|done].
  cbn [fmap option_fmap option_map mbind option_bind].
  destruct (lookup_lt_is_Some_2 s i) as [x Hx].
  { rewrite (wf_strip_columns _ Hwf _ _ Hs). cbn [strip_columns index].
    rewrite <-(prep_index _ _ Hp). by eapply rows_lookup_lt. }
  exists x. split; [done|]. by rewrite !list_lookup_fmap, Hx.
Qed.

Lemma numeric_fields_are_numbers_witness :
  match columns (strip_columns sample_raw) !! "price" with
  | Some s =>
      ∃ x, s !! 1%nat = Some x ∧
        (int_cell 1, row_at (columns sample_prepared) 1).2 !! "price"
        = Some (Num (default 0%Qc (@to_numeric_cell example_coercions x)))
  | None =>
      (int_cell 1, row_at (columns sample_prepared) 1).2 !! "price" = None
  end.
Proof.
  apply (@numeric_fields_are_numbers example_coercions sample_raw
           sample_prepared).
  - unfold wf. lit.
  - by vm_compute.
  - apply rows_lookup. exists (int_cell 1). split; [by vm_compute|done].
  - lit.
Defined.

(** X4. On a file whose headers stay distinct when stripped, [load_data]
    keeps the rows of the file, in their order and under their labels; its
    columns are the stripped headers of the file and the four columns
    [net_profit], [year], [month] and [month_name], so it drops no column
    and adds at most four; and every column it does not write holds the
    cells of the file. *)
Theorem load_data_keeps_rows `{Coercions} raw df :
  wf raw → distinct_headers raw → load_data raw = Ok df →
  index df = index raw ∧ wf df ∧
  (∀ c, is_Some (columns df !! c)
        ↔ (∃ k, is_Some (columns raw !! k) ∧ strip k = c)
          ∨ c ∈ new_columns) ∧
  (∀ k s, columns raw !! k = Some s → strip k ∉ written_columns →
        columns df !! strip k = Some s) ∧
  (size (columns raw) ≤ size (columns df) ≤ size (columns raw) + 4)%nat.
Proof.
  intros Hwf Hnd Hload. pose proof (load_data_prepared _ _ Hwf Hload) as Hp.
  split; [apply (prep_index _ _ Hp)|]. split; [apply (prep_wf _ _ Hp)|].
  assert (Hcols : ∀ c, is_Some (columns df !! c)
    ↔ (∃ k, is_Some (columns raw !! k) ∧ strip k = c) ∨ c ∈ new_columns).
  { intros c. rewrite (prepared_columns _ _ c Hp).
    assert (Hs : is_Some (columns (strip_columns raw) !! c)
                 ↔ ∃ k, is_Some (columns raw !! k) ∧ strip k = c).
    { rewrite <-has_column_stripped. unfold has_column.
      by rewrite bool_decide_eq_true. }
    by rewrite Hs. }
  split; [done|]. split.
  - intros k s Hk Hw. rewrite (prep_other _ _ Hp) by done.
    by apply distinct_headers_lookup.
  - rewrite <-(distinct_headers_size raw Hnd).
    assert (Hdom : dom (columns df)
                   ≡ dom (columns (strip_columns raw))
                     ∪ list_to_set new_columns).
    { intros c. rewrite elem_of_union, !elem_of_dom, elem_of_list_to_set.
      apply (prepared_columns _ _ c Hp). }
    rewrite <-!size_dom, Hdom. split.
    + apply subseteq_size, union_subseteq_l.
    + rewrite size_union_alt. apply Nat.add_le_mono_l.
      etrans; [apply subseteq_size, subseteq_difference_l; reflexivity|].
      rewrite size_list_to_set; [done|]. unfold new_columns. lit.
Qed.

Lemma load_data_keeps_rows_witness :
  index sample_prepared = index sample_raw ∧ wf sample_prepared ∧
  (∀ c, is_Some (columns sample_prepared !! c)
        ↔ (∃ k, is_Some (columns sample_raw !! k) ∧ strip k = c)
          ∨ c ∈ new_columns) ∧
  (∀ k s, columns sample_raw !! k = Some s → strip k ∉ written_columns →
        columns sample_prepared !! strip k = Some s) ∧
  (size (columns sample_raw) ≤ size (columns sample_prepared)
   ≤ size (columns sample_raw) + 4)%nat.
Proof.
  apply (@load_data_keeps_rows example_coercions sample_raw
           sample_prepared).
  - unfold wf. lit.
  - unfold distinct_headers. lit.
  - by vm_compute.
Defined.

(** X5. Lines 18 and 33-35: in every row of the prepared frame [order_date]
    is a date or missing; for a date, [year], [month] and [month_name]
    are its year, its month number and its [YYYY-MM] text, and for a
    missing date all three are missing. *)
Theorem time_keys_follow_order_date `{Coercions} raw df :
  wf raw → load_data raw = Ok df →
  ∀ r, r ∈ rows df →
    (∃ t, field r "order_date" = Ts t ∧
       field r "year" = Num (Qc_of_Z (ts_year t)) ∧
       field r "month" = Num (Qc_of_Z (month_number (ts_month t))) ∧
       field r "month_name" = Str (strftime_Ym t)) ∨
    (field r "order_date" = NaN ∧ field r "year" = NaN ∧
     field r "month" = NaN ∧ field r "month_name" = NaN).
Proof.
  intros Hwf Hload r Hr.
  pose proof (load_data_prepared _ _ Hwf Hload) as Hp.
  pose proof (prepared_time_keys_at _ _ _ Hp Hr) as Hk.
  destruct (field r "order_date") as [|q|s|t]; try done.
  - by right.
  - left. by exists t.
Qed.

Lemma time_keys_follow_order_date_witness :
  let r := (int_cell 2, row_at (columns sample_prepared) 2) in
  (∃ t, field r "order_date" = Ts t ∧
     field r "year" = Num (Qc_of_Z (ts_year t)) ∧
     field r "month" = Num (Qc_of_Z (month_number (ts_month t))) ∧
     field r "month_name" = Str (strftime_Ym t)) ∨
  (field r "order_date" = NaN ∧ field r "year" = NaN ∧
   field r "month" = NaN ∧ field r "month_name" = NaN).
Proof.
  apply (@time_keys_follow_order_date example_coercions sample_raw
           sample_prepared).
  - unfold wf. lit.
  - by vm_compute.
  - apply list_elem_of_lookup. exists 2%nat. apply rows_lookup.
    exists (int_cell 2). split; [by vm_compute|done].
Defined.

(** X6. [load_data] is idempotent: preparing a frame it returned gives that
    frame back. *)
Theorem load_data_idempotent `{Coercions} raw df :
  wf raw → load_data raw = Ok df → load_data df = Ok df.
Proof.
  intros Hwf Hload. pose proof (load_data_prepared _ _ Hwf Hload) as Hp.
  destruct (prep_dates _ _ Hp) as (od & _ & Hd & _).
  rewrite <-(prepared_stripped _ _ Hp) in Hd.
  destruct (load_data_spec df _ (prep_wf _ _ Hp) Hd) as (df2 & Hdf2 & Hp2).
  by rewrite Hdf2, (prepared_idem _ _ _ Hp Hp2).
Qed.

Lemma load_data_idempotent_witness :
  @load_data example_coercions sample_prepared = Ok sample_prepared.
Proof.
  apply (@load_data_idempotent example_coercions sample_raw).
  - unfold wf. lit.
  - by vm_compute.
Defined.

(** ** The sidebar *)

Lemma StronglySorted_lt (l : list Z) :
  StronglySorted Z.le l → NoDup l → StronglySorted Z.lt l.
Proof.
  induction 1 as [|x l Hl IH Hx]; intros Hnd; [constructor|].
  inversion Hnd as [|?? Hni Hnd']; subst. constructor; [by apply IH|].
  rewrite list.Forall_forall in Hx |- *. intros y Hy.
  pose proof (Hx y Hy). assert (x ≠ y) by (by intros ->). lia.
Qed.

Lemma list_index_Some y l : y ∈ l → ∃ i, list_index y l = Some i ∧ l !! i = Some y.
Proof.
  induction l as [|x l IH]; intros Hin; [by apply elem_of_nil in Hin|].
  cbn [list_index]. case_decide as Hx.
  - subst. by exists 0%nat.
  - apply elem_of_cons in Hin as [->|Hin]; [done|].
    destruct (IH Hin) as (i & -> & Hi). by exists (S i).
Qed.

Lemma list_index_first y l i j :
  list_index y l = Some i → l !! j = Some y → (i ≤ j)%nat.
Proof.
  revert i j. induction l as [|x l IH]; intros i j; [done|].
  cbn [list_index]. case_decide as Hx.
  - intros [= <-] _. lia.
  - destruct (list_index y l) as [i'|] eqn:Hi; [|done]. intros [= <-].
    destruct j as [|j]; [by intros [= ->]|]. cbn. intros Hj.
    pose proof (IH i' j eq_refl Hj). lia.
Qed.

Lemma last_sorted_max (l : list Z) y :
  StronglySorted Z.le l → list.last l = Some y → ∀ x, x ∈ l → (x ≤ y)%Z.
Proof.
  intros Hs Hl x Hx. apply list_elem_of_lookup in Hx as [i Hi].
  rewrite last_lookup in Hl.
  destruct (decide (i = pred (length l))) as [->|Hne].
  - rewrite Hi in Hl. injection Hl as ->. lia.
  - apply lookup_lt_Some in Hi as Hlt.
    assert (Hij : (i < pred (length l))%nat) by lia.
    apply (StronglySorted_lookup _ _ _ _ _ _ Hs Hij Hi Hl).
Qed.

Global Instance string_le_trans : Transitive string_le.
Proof.
  intros a b c. unfold string_le. rewrite !Is_true_true.
  apply string_leb_trans.
Qed.

Global Instance string_le_total : Total string_le.
Proof.
  intros a b. unfold string_le.
  destruct (String.leb_total a b) as [->| ->]; auto.
Qed.

Lemma elem_of_dropna c s : c ∈ dropna s ↔ c ∈ s ∧ c ≠ NaN.
Proof. unfold dropna. rewrite list_elem_of_filter. tauto. Qed.

Section sidebar.
Context `{Coercions}.

Lemma prepared_year_column raw df :
  prepared raw df →
  ∃ year, getitem df "year" = Ok year ∧
    ∀ c, c ∈ remove_dups (dropna year) ↔
      ∃ r t, r ∈ rows df ∧ field r "order_date" = Ts t ∧
        c = Num (Qc_of_Z (ts_year t)).
Proof.
  intros Hp. destruct (prep_dates _ _ Hp) as (od & _ & _ & Hy & _).
  exists (dt_year (to_datetime od)). split.
  { unfold getitem. by rewrite Hy. }
  rewrite (column_rows _ _ _ (prep_wf _ _ Hp) Hy). intros c.
  rewrite elem_of_remove_dups, elem_of_dropna, list_elem_of_fmap. split.
  - intros [(r & -> & Hr) Hna].
    pose proof (prepared_time_keys_at _ _ _ Hp Hr) as Hk.
    fold (field r "year") in *.
    destruct (field r "order_date") as [|q|s|t] eqn:Ho; try done.
    + by destruct Hk as (Hk & _).
    + exists r, t. by destruct Hk as (-> & _).
  - intros (r & t & Hr & Ho & ->).
    pose proof (prepared_time_keys_at _ _ _ Hp Hr) as Hk.
    rewrite Ho in Hk. destruct Hk as (Hk & _). split; [|done].
    exists r. by fold (field r "year").
Qed.

Lemma years_spec raw df :
  prepared raw df →
  ∃ ys, years df = Ok ys ∧ StronglySorted Z.lt ys ∧
    ∀ y, y ∈ ys ↔
      ∃ r t, r ∈ rows df ∧ field r "order_date" = Ts t ∧ ts_year t = y.
Proof.
  intros Hp. destruct (prepared_year_column _ _ Hp) as (year & Hg & Hc).
  unfold years. rewrite Hg. cbn [mbind result_bind].
  set (cells := remove_dups (dropna year)) in *.
  set (g := λ c, match c with Num q => trunc q | _ => 0%Z end).
  assert (Hcell : ∀ c, c ∈ cells → ∃ z, c = Num (Qc_of_Z z)).
  { intros c Hin. apply Hc in Hin as (r & t & _ & _ & ->). by eexists. }
  rewrite (traverse_ok _ g).
  2:{ intros c Hin. by destruct (Hcell c Hin) as [z ->]. }
  cbn [mbind result_bind]. eexists. split; [done|]. split.
  - apply StronglySorted_lt; [apply StronglySorted_merge_sort; apply _|].
    rewrite merge_sort_Permutation.
    apply NoDup_fmap_2_strong; [|apply NoDup_remove_dups].
    intros a b Ha Hb Hab.
    destruct (Hcell a Ha) as [za ->], (Hcell b Hb) as [zb ->].
    unfold g in Hab. rewrite !trunc_Qc_of_Z in Hab. by subst.
  - intros y. rewrite merge_sort_Permutation, list_elem_of_fmap. split.
    + intros (c & -> & Hin). apply Hc in Hin as (r & t & Hr & Ho & ->).
      exists r, t. unfold g. by rewrite trunc_Qc_of_Z.
    + intros (r & t & Hr & Ho & <-). exists (Num (Qc_of_Z (ts_year t))).
      split; [unfold g; by rewrite trunc_Qc_of_Z|].
      apply Hc. by exists r, t.
Qed.

Lemma text_options_spec df c s :
  wf df → columns df !! c = Some s →
  ∃ opts, text_options df c = Ok ("All" :: opts) ∧
    StronglySorted string_le opts ∧
    ∀ o, o ∈ opts ↔
      ∃ r, r ∈ rows df ∧ field r c ≠ NaN ∧ astype_str_cell (field r c) = o.
Proof.
  intros Hwf Hs. unfold text_options, getitem. rewrite Hs.
  cbn [mbind result_bind]. eexists. split; [done|]. split.
  - apply StronglySorted_merge_sort; apply _.
  - intros o. rewrite merge_sort_Permutation. unfold astype_str.
    rewrite list_elem_of_fmap.
    rewrite (column_rows _ _ _ Hwf Hs). split.
    + intros (x & -> & Hx).
      apply elem_of_remove_dups, elem_of_dropna in Hx as [Hx Hna].
      apply list_elem_of_fmap in Hx as (r & -> & Hr). by exists r.
    + intros (r & Hr & Hna & <-). exists (field r c). split; [done|].
      apply elem_of_remove_dups, elem_of_dropna. split; [|done].
      apply list_elem_of_fmap. by exists r.
Qed.
End sidebar.

Lemma default_year_spec (ys : list Z) :
  match ys with
  | [] => default_year ys = None ∧ selectbox ys (default_index ys) = None
  | _ :: _ =>
      ∃ y, default_year ys = Some y ∧
        selectbox ys (default_index ys) = Some y ∧
        (2022%Z ∈ ys → y = 2022%Z) ∧
        (2022%Z ∉ ys → list.last ys = Some y)
  end.
Proof.
  destruct ys as [|x ys]; [done|].
  unfold default_index, default_year, selectbox.
  destruct (decide (2022%Z ∈ x :: ys)) as [H22|H22].
  - exists 2022%Z. rewrite !(bool_decide_eq_true_2 _ H22).
    destruct (list_index_Some _ _ H22) as (i & -> & Hi). done.
  - rewrite !(bool_decide_eq_false_2 _ H22).
    destruct (list.last (x :: ys)) as [y|] eqn:Hl.
    2:{ by apply last_None in Hl. }
    exists y. assert (Hin : y ∈ x :: ys).
    { rewrite last_lookup in Hl. by eapply list_elem_of_lookup_2. }
    rewrite (bool_decide_eq_true_2 _ Hin).
    destruct (list_index_Some _ _ Hin) as (i & -> & Hi). done.
Qed.

Section first_run.
Context `{Coercions}.

Lemma apply_filters_all df y year :
  columns df !! "year" = Some year →
  apply_filters df {| selected_year := y; selected_category := "All";
                      selected_payment := "All";
                      value_transaction := AllTransactions |}
  = Ok (loc_mask df (series_eq year (Num (Qc_of_Z y)))).
Proof.
  intros Hy. unfold apply_filters, year_filter, getitem; cbn [selected_year].
  by rewrite Hy.
Qed.

Lemma initial_criteria_spec raw df :
  prepared raw df →
  is_Some (columns (strip_columns raw) !! "category") →
  is_Some (columns (strip_columns raw) !! "payment_method") →
  ∃ ys, years df = Ok ys ∧
    initial_criteria df
    = (y ← int_of_selection (selectbox ys (default_index ys));
       Ok {| selected_year := y; selected_category := "All";
             selected_payment := "All";
             value_transaction := AllTransactions |}).
Proof.
  intros Hp [cat Hcat] [pay Hpay].
  destruct (years_spec _ _ Hp) as (ys & Hys & _). exists ys. split; [done|].
  rewrite <-(prep_other _ _ Hp) in Hcat, Hpay by (intros Hin; absurd_lit).
  unfold initial_criteria, text_options, getitem.
  rewrite Hys, Hcat, Hpay. done.
Qed.
End first_run.

(** X7. Line 55: the year options are the years of the dates that parsed,
    each once, in ascending order. *)
Theorem year_options `{Coercions} raw df :
  wf raw → load_data raw = Ok df →
  ∃ ys, years df = Ok ys ∧ StronglySorted Z.lt ys ∧
    ∀ y, y ∈ ys ↔
      ∃ r t, r ∈ rows df ∧ field r "order_date" = Ts t ∧ ts_year t = y.
Proof.
  intros Hwf Hload. apply (years_spec raw).
  by apply load_data_prepared.
Qed.

Lemma year_options_witness :
  ∃ ys, @years sample_prepared = Ok ys ∧ StronglySorted Z.lt ys ∧
    ∀ y, y ∈ ys ↔
      ∃ r t, r ∈ rows sample_prepared ∧ field r "order_date" = Ts t ∧
        ts_year t = y.
Proof.
  apply (@year_options example_coercions sample_raw).
  - unfold wf. lit.
  - by vm_compute.
Defined.

(** X8. Lines 56-57: with no year to offer nothing is preselected; otherwise
    the preselected year is an option, it is 2022 when 2022 is offered and
    the last option otherwise, which for options in ascending order is the
    latest year. *)
Theorem default_year_selection (ys : list Z) :
  (ys = [] →
   default_year ys = None ∧ selectbox ys (default_index ys) = None) ∧
  (ys ≠ [] →
   ∃ y, default_year ys = Some y ∧
     selectbox ys (default_index ys) = Some y ∧ y ∈ ys ∧
     (2022%Z ∈ ys → y = 2022%Z) ∧
     (2022%Z ∉ ys → StronglySorted Z.le ys → ∀ x, x ∈ ys → (x ≤ y)%Z)).
Proof.
  pose proof (default_year_spec ys) as Hd. split.
  - by intros ->.
  - intros Hne. destruct ys as [|x ys]; [done|].
    destruct Hd as (y & Hy & Hsel & H22 & Hlast). exists y.
    repeat (split; [done|]). split.
    { unfold selectbox in Hsel. by eapply list_elem_of_lookup_2. }
    split; [done|]. intros Hn Hs. by apply last_sorted_max, Hlast.
Qed.

Lemma default_year_selection_witness :
  ∃ y, default_year [2021; 2023]%Z = Some y ∧
    selectbox [2021; 2023]%Z (default_index [2021; 2023]%Z) = Some y ∧
    y ∈ [2021; 2023]%Z ∧
    (2022%Z ∈ [2021; 2023]%Z → y = 2022%Z) ∧
    (2022%Z ∉ [2021; 2023]%Z → StronglySorted Z.le [2021; 2023]%Z →
     ∀ x, x ∈ [2021; 2023]%Z → (x ≤ y)%Z).
Proof. apply (proj2 (default_year_selection [2021; 2023]%Z)). done. Defined.

(** X9. Lines 58-61: the options of a text selector are "All" followed by the
    texts of the non-missing values of the column, in ascending order;
    without the column the sidebar raises [KeyError]. *)
Theorem selector_options `{Coercions} df c :
  wf df →
  (columns df !! c = None → text_options df c = Raise (KeyError c)) ∧
  (is_Some (columns df !! c) →
   ∃ opts, text_options df c = Ok ("All" :: opts) ∧
     StronglySorted string_le opts ∧
     ∀ o, o ∈ opts ↔
       ∃ r, r ∈ rows df ∧ field r c ≠ NaN ∧
         astype_str_cell (field r c) = o).
Proof.
  intros Hwf. split.
  - intros Hc. unfold text_options, getitem. by rewrite Hc.
  - intros [s Hs]. by apply (text_options_spec df c s).
Qed.

Lemma selector_options_witness :
  ∃ opts, @text_options example_coercions sample_prepared "category"
          = Ok ("All" :: opts) ∧
    StronglySorted string_le opts ∧
    ∀ o, o ∈ opts ↔
      ∃ r, r ∈ rows sample_prepared ∧ field r "category" ≠ NaN ∧
        @astype_str_cell example_coercions (field r "category") = o.
Proof.
  apply (@selector_options example_coercions sample_prepared "category").
  - unfold wf. lit.
  - lit.
Defined.

(** X10. Lines 55-74, first run: when no date of the file parses the year
    selector has no option and [int(selected_year)] raises [TypeError];
    otherwise the script starts on the preselected year with "All"
    everywhere, and the view it shows has at least one row. *)
Theorem first_run_view `{Coercions} raw df :
  wf raw → load_data raw = Ok df →
  is_Some (columns (strip_columns raw) !! "category") →
  is_Some (columns (strip_columns raw) !! "payment_method") →
  ((∀ r, r ∈ rows df → field r "order_date" = NaN) →
   initial_criteria df = Raise (TypeError "int")) ∧
  (∀ r t, r ∈ rows df → field r "order_date" = Ts t →
     ∃ ys c df_f, years df = Ok ys ∧ initial_criteria df = Ok c ∧
       default_year ys = Some (selected_year c) ∧
       selected_category c = "All" ∧ selected_payment c = "All" ∧
       value_transaction c = AllTransactions ∧
       apply_filters df c = Ok df_f ∧ rows df_f ≠ []).
Proof.
  intros Hwf Hload Hcat Hpay.
  pose proof (load_data_prepared _ _ Hwf Hload) as Hp.
  destruct (initial_criteria_spec _ _ Hp Hcat Hpay) as (ys & Hys & Hinit).
  destruct (years_spec _ _ Hp) as (ys' & Hys' & _ & Hmem).
  rewrite Hys in Hys'. injection Hys' as <-.
  pose proof (default_year_spec ys) as Hd. split.
  - intros Hnone. destruct ys as [|y ys].
    + by rewrite Hinit.
    + destruct (proj1 (Hmem y)) as (r & t & Hr & Ho & _); [left|].
      by rewrite (Hnone r Hr) in Ho.
  - intros r t Hr Ho.
    assert (Hin : ts_year t ∈ ys) by (apply Hmem; by exists r, t).
    destruct ys as [|y0 ys]; [by apply elem_of_nil in Hin|].
    destruct Hd as (y & Hy & Hsel & _). rewrite Hsel in Hinit.
    cbn [int_of_selection mbind result_bind] in Hinit.
    assert (Hyin : y ∈ y0 :: ys).
    { unfold selectbox in Hsel. by eapply list_elem_of_lookup_2. }
    apply Hmem in Hyin as (r' & t' & Hr' & Ho' & Hy').
    destruct (prep_dates _ _ Hp) as (od & _ & _ & Hyc & _).
    eexists (y0 :: ys), _, _. split; [done|]. split; [exact Hinit|].
    cbn [selected_year selected_category selected_payment value_transaction].
    repeat (split; [done|]).
    pose proof (apply_filters_all df y _ Hyc) as Hf. split; [exact Hf|].
    destruct (apply_filters_rows _ _ _ (prep_wf _ _ Hp) Hf) as [Hrows _].
    rewrite Hrows. intros Hnil.
    assert (Hin' : r' ∈ filter (λ r,
      passes {| selected_year := y; selected_category := "All";
                selected_payment := "All";
                value_transaction := AllTransactions |} r) (rows df)).
    { apply list_elem_of_filter. split; [|done].
      pose proof (prepared_time_keys_at _ _ _ Hp Hr') as Hk.
      rewrite Ho' in Hk. destruct Hk as (Hk & _).
      unfold passes, text_passes; cbn [selected_year selected_category
        selected_payment value_transaction validity_passes].
      rewrite Hk, Hy'. rewrite bool_decide_eq_true_2 by done. done. }
    rewrite Hnil in Hin'. by apply elem_of_nil in Hin'.
Qed.

Lemma first_run_view_witness :
  ∃ ys c df_f, @years sample_prepared = Ok ys ∧
    @initial_criteria example_coercions sample_prepared = Ok c ∧
    default_year ys = Some (selected_year c) ∧
    selected_category c = "All" ∧ selected_payment c = "All" ∧
    value_transaction c = AllTransactions ∧
    @apply_filters example_coercions sample_prepared c = Ok df_f ∧
    rows df_f ≠ [].
Proof.
  destruct (@first_run_view example_coercions sample_raw sample_prepared)
    as [_ Hrun].
  - unfold wf. lit.
  - by vm_compute.
  - lit.
  - lit.
  - apply (Hrun (int_cell 0, row_at (columns sample_prepared) 0)
             {| ts_year := 2022; ts_month := Jan; ts_day := 15;
                ts_nanos := 0 |}).
    + apply list_elem_of_lookup. exists 0%nat. apply rows_lookup.
      exists (int_cell 0). split; [by vm_compute|done].
    + by vm_compute.
Defined.

(** ** Filtering again *)

Lemma mask_select_all {A} (m : list bool) (s : list A) :
  (∀ b, b ∈ m → b = true) → (length s ≤ length m)%nat →
  mask_select m s = s.
Proof.
  revert s. induction m as [|b m IH]; intros [|x s] Hm Hl;
    simpl in *; try done; try lia.
  rewrite (Hm b) by left. f_equal. apply IH; [|lia].
  intros b' Hb'. apply Hm. by right.
Qed.

Lemma loc_mask_all df m :
  wf df → (∀ b, b ∈ m → b = true) → (length (index df) ≤ length m)%nat →
  loc_mask df m = df.
Proof.
  intros Hwf Hm Hl. destruct df as [ix cols]. unfold loc_mask.
  cbn [index columns] in *. f_equal.
  - by apply mask_select_all.
  - apply map_eq. intros c. rewrite lookup_fmap.
    destruct (cols !! c) as [s|] eqn:Hs; [|done].
    cbn [fmap option_fmap option_map]. f_equal.
    apply mask_select_all; [done|]. by rewrite (Hwf _ _ Hs).
Qed.

Lemma run_step_fixed s df :
  wf df → step_defined s df → (∀ r, r ∈ rows df → step_holds s r) →
  run_step s df = Ok df.
Proof.
  intros Hwf Hd Hr. destruct s as [[c p]|]; [|done].
  destruct Hd as [col Hcol]. unfold run_step, column_filter, getitem.
  rewrite Hcol. cbn [mbind result_bind]. f_equal.
  pose proof (column_rows _ _ _ Hwf Hcol) as ->.
  apply loc_mask_all; [done| |].
  - intros b Hb. apply list_elem_of_fmap in Hb as (x & -> & Hx).
    apply list_elem_of_fmap in Hx as (r & -> & Hx). by apply (Hr r).
  - by rewrite !length_fmap, length_rows.
Qed.

Lemma run_step_Ok_defined s df df' :
  run_step s df = Ok df' → step_defined s df.
Proof.
  destruct s as [[c p]|]; [|done].
  unfold run_step, column_filter, getitem, step_defined.
  by destruct (columns df !! c).
Qed.

Section refilter.
Context `{Coercions}.

Lemma passes_steps c r :
  passes c r →
  step_holds (year_step (selected_year c)) r ∧
  step_holds (text_step "category" (selected_category c)) r ∧
  step_holds (text_step "payment_method" (selected_payment c)) r ∧
  step_holds (validity_step (value_transaction c)) r.
Proof.
  unfold passes, text_passes, text_step, validity_passes, validity_step.
  rewrite !andb_True, !orb_True. intros (((Hy & Hc) & Hp) & Hv).
  split; [by apply Is_true_true|]. split; [|split].
  - destruct (decide (selected_category c = "All")); cbn [step_holds];
      [done|]. apply Is_true_true.
    destruct Hc as [Hc|Hc]; [|done]. by apply bool_decide_unpack in Hc.
  - destruct (decide (selected_payment c = "All")); cbn [step_holds];
      [done|]. apply Is_true_true.
    destruct Hp as [Hp|Hp]; [|done]. by apply bool_decide_unpack in Hp.
  - destruct (value_transaction c); cbn [step_holds]; try done;
      by apply Is_true_true.
Qed.

Lemma apply_filters_defined df c df_f :
  apply_filters df c = Ok df_f →
  step_defined (year_step (selected_year c)) df ∧
  step_defined (text_step "category" (selected_category c)) df ∧
  step_defined (text_step "payment_method" (selected_payment c)) df ∧
  step_defined (validity_step (value_transaction c)) df.
Proof.
  intros Hf. rewrite apply_filters_steps in Hf.
  destruct (run_step (year_step _) df) as [d1|] eqn:H1; [|done].
  cbn [mbind result_bind] in Hf.
  destruct (run_step (text_step "category" _) d1) as [d2|] eqn:H2; [|done].
  cbn [mbind result_bind] in Hf.
  destruct (run_step (text_step "payment_method" _) d2) as [d3|] eqn:H3;
    [|done].
  cbn [mbind result_bind] in Hf.
  split; [by eapply run_step_Ok_defined|]. split; [|split].
  - apply (run_step_defined _ _ _ _ H1). by eapply run_step_Ok_defined.
  - apply (run_step_defined _ _ _ _ H1), (run_step_defined _ _ _ _ H2).
    by eapply run_step_Ok_defined.
  - apply (run_step_defined _ _ _ _ H1), (run_step_defined _ _ _ _ H2),
      (run_step_defined _ _ _ _ H3).
    by eapply run_step_Ok_defined.
Qed.

Lemma step_defined_transfer s df df' :
  (∀ x, is_Some (columns df' !! x) ↔ is_Some (columns df !! x)) →
  step_defined s df → step_defined s df'.
Proof. intros Hx. destruct s as [[c p]|]; [|done]. apply Hx. Qed.

Lemma apply_filters_fixed df c df_f :
  wf df → apply_filters df c = Ok df_f → apply_filters df_f c = Ok df_f.
Proof.
  intros Hwf Hf.
  destruct (apply_filters_rows _ _ _ Hwf Hf) as [Hrows Hwf'].
  assert (Hpass : ∀ r, r ∈ rows df_f → passes c r).
  { intros r. rewrite Hrows. by intros [? _]%list_elem_of_filter. }
  destruct (apply_filters_defined df c df_f Hf) as (D1 & D2 & D3 & D4).
  assert (Hcols : ∀ x, is_Some (columns df_f !! x) ↔ is_Some (columns df !! x))
    by (intros x; by eapply apply_filters_has_column).
  apply (step_defined_transfer _ _ _ Hcols) in D1, D2, D3, D4.
  rewrite apply_filters_steps.
  repeat (rewrite run_step_fixed;
    [cbn [mbind result_bind] | done..
    | intros r Hr; by apply passes_steps, Hpass]).
  done.
Qed.
End refilter.

Section validity_views.
Context `{Coercions}.

Lemma with_validity_rows df c v d :
  wf df → value_transaction c = AllTransactions →
  apply_filters df (with_validity c v) = Ok d →
  rows d = filter (λ r, validity_passes v r)
             (filter (λ r, passes c r) (rows df)).
Proof.
  intros Hwf Hall Hd.
  destruct (apply_filters_rows _ _ _ Hwf Hd) as [-> _].
  rewrite list_filter_filter. apply list_filter_iff. intros r.
  unfold passes; cbn [with_validity selected_year selected_category
    selected_payment value_transaction]. rewrite Hall.
  cbn [validity_passes]. rewrite !andb_True. cbn [Is_true]. tauto.
Qed.
End validity_views.

(** X11. Lines 65-74: filtering the view again with the same selections
    returns the view unchanged. *)
Theorem filter_idempotent `{Coercions} df c df_f :
  wf df → apply_filters df c = Ok df_f → apply_filters df_f c = Ok df_f.
Proof. apply apply_filters_fixed. Qed.

Lemma filter_idempotent_witness :
  @apply_filters example_coercions sample_view example_criteria
  = Ok sample_view.
Proof.
  apply (@filter_idempotent example_coercions sample_prepared).
  - unfold wf. lit.
  - by vm_compute.
Defined.

(** X12. Lines 71-74: the "Valid" and the "Not Valid" view share no row, and
    together they hold the rows of the "All" view whose flag is 1 or 0; a
    row with another flag is in neither. *)
Theorem validity_views_split `{Coercions} df c all valid invalid :
  wf df → value_transaction c = AllTransactions →
  apply_filters df c = Ok all →
  apply_filters df (with_validity c Valid) = Ok valid →
  apply_filters df (with_validity c NotValid) = Ok invalid →
  (rows valid ++ rows invalid
   ≡ₚ filter (λ r, field r "is_valid" = Num 1%Qc
                   ∨ field r "is_valid" = Num 0%Qc) (rows all)) ∧
  (∀ r, r ∈ rows valid → r ∉ rows invalid) ∧
  (∀ r, r ∈ rows all → field r "is_valid" ≠ Num 1%Qc →
     field r "is_valid" ≠ Num 0%Qc →
     (r ∉ rows valid) ∧ (r ∉ rows invalid)).
Proof.
  intros Hwf Hall Ha Hv Hi.
  destruct (apply_filters_rows _ _ _ Hwf Ha) as [Hra _].
  rewrite (with_validity_rows _ _ _ _ Hwf Hall Hv),
    (with_validity_rows _ _ _ _ Hwf Hall Hi), <-Hra.
  assert (Hflag : ∀ (q : Qc) (l : list Row),
    filter (λ r, validity_passes
                   (if decide (q = 1%Qc) then Valid else NotValid) r) l
    = filter (λ r, field r "is_valid"
                   = Num (if decide (q = 1%Qc) then 1%Qc else 0%Qc)) l).
  { intros q l. apply list_filter_iff. intros r.
    case_decide; cbn [validity_passes]; by rewrite bool_decide_spec. }
  pose proof (Hflag 1%Qc (rows all)) as H1.
  pose proof (Hflag 0%Qc (rows all)) as H0.
  rewrite decide_True in H1 by done. rewrite decide_False in H0 by done.
  rewrite H1, H0. split; [|split].
  - apply filter_or_perm. intros r Hr1 Hr0. by rewrite Hr1 in Hr0.
  - intros r [Hr1 _]%list_elem_of_filter [Hr0 _]%list_elem_of_filter.
    by rewrite Hr1 in Hr0.
  - intros r _ Hn1 Hn0.
    split; intros [? _]%list_elem_of_filter; done.
Qed.

Lemma validity_views_split_witness :
  ∃ all valid invalid,
    (rows valid ++ rows invalid
     ≡ₚ filter (λ r, field r "is_valid" = Num 1%Qc
                     ∨ field r "is_valid" = Num 0%Qc) (rows all)) ∧
    (∀ r, r ∈ rows valid → r ∉ rows invalid) ∧
    (∀ r, r ∈ rows all → field r "is_valid" ≠ Num 1%Qc →
       field r "is_valid" ≠ Num 0%Qc →
       (r ∉ rows valid) ∧ (r ∉ rows invalid)).
Proof.
  eexists _, _, _.
  apply (@validity_views_split example_coercions sample_prepared
           example_criteria).
  - unfold wf. lit.
  - done.
  - vm_compute. reflexivity.
  - vm_compute. reflexivity.
  - vm_compute. reflexivity.
Defined.

(** ** The scorecards of tab 1 *)

Ltac rows_present :=
  let Hnil := fresh "Hnil" in
  intros Hnil; apply (f_equal length) in Hnil;
  rewrite length_rows in Hnil; vm_compute in Hnil; discriminate.

Lemma sum_monthly_buckets (f : MonthlyRow → Qc) c (rs : list Row) :
  (∀ k l, f (monthly_bucket k l) = sum_field c l) →
  sum_list (f <$> monthly_buckets rs)
  = sum_field c (filter (λ r, is_Some (month_key r)) rs).
Proof.
  intros Hf. unfold monthly_buckets. rewrite <-list_fmap_compose.
  rewrite (list_fmap_ext _
    (sum_field c ∘ (λ k, filter (λ r, month_key r = Some k) rs))).
  2:{ intros i k _. apply Hf. }
  rewrite list_fmap_compose, sum_field_concat.
  apply sum_field_perm, groups_partition.
Qed.

Lemma monthly_buckets_nil (rs : list Row) :
  (∀ r, r ∈ rs → is_Some (month_key r)) →
  monthly_buckets rs = [] ↔ rs = [].
Proof.
  intros Hk. split; [|by intros ->].
  destruct rs as [|r rs]; [done|]. intros Hnil. exfalso.
  destruct (Hk r) as [k Hkr]; [left|].
  assert (Hin : k ∈ group_keys cell_le (month_key <$> r :: rs)).
  { apply elem_of_group_keys. rewrite <-Hkr. apply list_elem_of_fmap.
    exists r. split; [done|left]. }
  unfold monthly_buckets in Hnil. apply fmap_nil_inv in Hnil.
  rewrite Hnil in Hin. by apply elem_of_nil in Hin.
Qed.

Section tab1.
Context `{Coercions}.

Lemma filtered_month_keys raw df c df_f r :
  wf raw → load_data raw = Ok df → apply_filters df c = Ok df_f →
  r ∈ rows df_f → is_Some (month_key r).
Proof.
  intros Hwf Hload Hf Hr.
  destruct (filtered_view _ _ _ _ Hwf Hload Hf) as (_ & _ & _ & _ & _ & Hk).
  destruct (Hk r Hr) as (t & Ht & _). unfold month_key. rewrite Ht.
  by eexists.
Qed.

Lemma filtered_sum raw df c df_f col :
  wf raw → load_data raw = Ok df → apply_filters df c = Ok df_f →
  (col ∈ numeric_columns ∧ is_Some (columns (strip_columns raw) !! col))
    ∨ col = "net_profit" →
  getitem df_f col ≫= series_sum = Ok (sum_field col (rows df_f)).
Proof.
  intros Hwf Hload Hf Hcol.
  pose proof (load_data_prepared _ _ Hwf Hload) as Hp.
  destruct (filtered_view _ _ _ _ Hwf Hload Hf) as (_ & Hsub & _).
  assert (Hc : (col ∈ numeric_columns ∧ is_Some (columns df !! col))
               ∨ col = "net_profit").
  { destruct Hcol as [[Hn Hs]|Hn]; [left|by right]. split; [done|].
    rewrite (prep_numeric _ _ Hp _ Hn). by apply fmap_is_Some. }
  rewrite (filtered_column _ _ _ _ col Hwf Hload Hf).
  - cbn [mbind result_bind]. apply series_sum_fields. intros r Hr.
    eapply prepared_numeric_field; [done|by apply Hsub|done].
  - destruct Hc as [[_ ?]| ->]; [done|].
    by rewrite (prep_net_profit _ _ Hp).
Qed.

Lemma tab1_spec raw df c df_f :
  wf raw → load_data raw = Ok df → apply_filters df c = Ok df_f →
  is_Some (columns (strip_columns raw) !! "id") →
  is_Some (columns (strip_columns raw) !! "before_discount") →
  is_Some (columns (strip_columns raw) !! "qty_ordered") →
  tab1 df_f
  = Ok (match rows df_f with
        | [] => NoData
        | _ :: _ =>
            Dashboard
              {| sc_before_discount := sum_field "before_discount" (rows df_f);
                 sc_after_discount :=
                   if has_column (strip_columns raw) "after_discount"
                   then Some (sum_field "after_discount" (rows df_f))
                   else None;
                 sc_net_profit := sum_field "net_profit" (rows df_f);
                 sc_quantity := sum_field "qty_ordered" (rows df_f);
                 sc_unique_orders :=
                   nunique ((λ r, field r "id") <$> rows df_f) |}
        end).
Proof.
  intros Hwf Hload Hf Hid Hbd Hqty.
  pose proof (load_data_prepared _ _ Hwf Hload) as Hp.
  assert (Hkeys: ∀ r, r ∈ rows df_f → is_Some (month_key r)).
  { intros r. by eapply filtered_month_keys. }
  unfold tab1. rewrite (monthly_metrics_ok _ _ _ _ Hwf Hload Hf Hid Hbd).
  cbn [mbind result_bind].
  destruct (monthly_buckets (rows df_f)) as [|b bs] eqn:Hb.
  { apply monthly_buckets_nil in Hb as ->; done. }
  destruct (rows df_f) as [|r rs] eqn:Hrows.
  { by rewrite (proj2 (monthly_buckets_nil [] ltac:(done)) eq_refl) in Hb. }
  rewrite <-Hb, <-Hrows in *. clear Hb b bs.
  rewrite (sum_monthly_buckets mm_before_discount "before_discount"),
    (sum_monthly_buckets mm_net_profit "net_profit") by done.
  assert (Hall : filter (λ r, is_Some (month_key r)) (rows df_f) = rows df_f).
  { rewrite (filter_in_ext _ (λ _, True)); [apply filter_True_id|].
    intros x Hx. split; [done|]. intros _. by apply Hkeys. }
  rewrite Hall.
  assert (Hafter : has_column df_f "after_discount"
                   = has_column (strip_columns raw) "after_discount").
  { unfold has_column. apply bool_decide_ext.
    rewrite (apply_filters_has_column _ _ _ _ Hf).
    rewrite (prep_numeric _ _ Hp) by lit. apply fmap_is_Some. }
  rewrite Hafter.
  assert (Hq : getitem df_f "qty_ordered" ≫= series_sum
               = Ok (sum_field "qty_ordered" (rows df_f))).
  { apply (filtered_sum raw df c); try done. left. split; [lit|done]. }
  destruct (getitem df_f "qty_ordered") as [qty|e] eqn:Hgq;
    cbn [mbind result_bind] in Hq; [|done].
  rewrite (filtered_column _ _ _ _ "id" Hwf Hload Hf).
  2:{ rewrite (prep_other _ _ Hp); [done|]. intros Hin. absurd_lit. }
  destruct (has_column (strip_columns raw) "after_discount") eqn:Ha.
  - assert (Haf : getitem df_f "after_discount" ≫= series_sum
                  = Ok (sum_field "after_discount" (rows df_f))).
    { apply (filtered_sum raw df c); try done. left. split; [lit|].
      by apply bool_decide_eq_true_1 in Ha. }
    destruct (getitem df_f "after_discount") as [af|e] eqn:Hga;
      cbn [mbind result_bind] in Haf; [|done].
    cbn [mbind result_bind]. by rewrite Haf, Hq.
  - cbn [mbind result_bind]. by rewrite Hq.
Qed.
End tab1.

(** X13. Lines 82-87: on a filtered view, tab 1 shows "No data available"
    exactly when the view has no row. *)
Theorem tab1_no_data `{Coercions} raw df c df_f :
  wf raw → load_data raw = Ok df → apply_filters df c = Ok df_f →
  is_Some (columns (strip_columns raw) !! "id") →
  is_Some (columns (strip_columns raw) !! "before_discount") →
  is_Some (columns (strip_columns raw) !! "qty_ordered") →
  ∃ page, tab1 df_f = Ok page ∧ (page = NoData ↔ rows df_f = []).
Proof.
  intros Hwf Hload Hf Hid Hbd Hqty.
  rewrite (tab1_spec _ _ _ _ Hwf Hload Hf Hid Hbd Hqty).
  eexists. split; [done|]. by destruct (rows df_f).
Qed.

Lemma tab1_no_data_witness :
  ∃ page, @tab1 example_coercions sample_view = Ok page ∧
    (page = NoData ↔ rows sample_view = []).
Proof.
  apply (@tab1_no_data example_coercions sample_raw sample_prepared
           example_criteria).
  - unfold wf. lit.
  - by vm_compute.
  - by vm_compute.
  - lit.
  - lit.
  - lit.
Defined.

(** X14. Lines 89-95: where the amounts are whole numbers that float64 adds
    without rounding, the scorecards of a view with rows are totals over
    all its rows: the monthly sums of [before_discount] and [net_profit]
    add up to the sums over the view, no row being outside the months. *)
Theorem tab1_scorecards `{Coercions} raw df c df_f :
  wf raw → load_data raw = Ok df → apply_filters df c = Ok df_f →
  is_Some (columns (strip_columns raw) !! "id") →
  is_Some (columns (strip_columns raw) !! "before_discount") →
  is_Some (columns (strip_columns raw) !! "qty_ordered") →
  rows df_f ≠ [] →
  exact_amounts df_f = true →
  tab1 df_f
  = Ok (Dashboard
          {| sc_before_discount := sum_field "before_discount" (rows df_f);
             sc_after_discount :=
               if has_column (strip_columns raw) "after_discount"
               then Some (sum_field "after_discount" (rows df_f))
               else None;
             sc_net_profit := sum_field "net_profit" (rows df_f);
             sc_quantity := sum_field "qty_ordered" (rows df_f);
             sc_unique_orders :=
               nunique ((λ r, field r "id") <$> rows df_f) |}).
Proof.
  intros Hwf Hload Hf Hid Hbd Hqty Hne _.
  rewrite (tab1_spec _ _ _ _ Hwf Hload Hf Hid Hbd Hqty).
  by destruct (rows df_f).
Qed.

Lemma tab1_scorecards_witness :
  @tab1 example_coercions sample_view
  = Ok (Dashboard
          {| sc_before_discount :=
               sum_field "before_discount" (rows sample_view);
             sc_after_discount :=
               if has_column (strip_columns sample_raw) "after_discount"
               then Some (sum_field "after_discount" (rows sample_view))
               else None;
             sc_net_profit := sum_field "net_profit" (rows sample_view);
             sc_quantity := sum_field "qty_ordered" (rows sample_view);
             sc_unique_orders :=
               nunique ((λ r, field r "id") <$> rows sample_view) |}).
Proof.
  apply (@tab1_scorecards example_coercions sample_raw sample_prepared
           example_criteria).
  - unfold wf. lit.
  - by vm_compute.
  - by vm_compute.
  - lit.
  - lit.
  - lit.
  - rows_present.
  - vm_compute. reflexivity.
Defined.

(** X15. Line 94: unlike [after_discount], whose absence prints "N/A", the
    [qty_ordered] column is read without a test: on a file without it, a
    view with rows makes tab 1 raise [KeyError]. *)
Theorem tab1_needs_quantity `{Coercions} raw df c df_f :
  wf raw → load_data raw = Ok df → apply_filters df c = Ok df_f →
  is_Some (columns (strip_columns raw) !! "id") →
  is_Some (columns (strip_columns raw) !! "before_discount") →
  columns (strip_columns raw) !! "qty_ordered" = None →
  rows df_f ≠ [] →
  tab1 df_f = Raise (KeyError "qty_ordered").
Proof.
  intros Hwf Hload Hf Hid Hbd Hqty Hne.
  pose proof (load_data_prepared _ _ Hwf Hload) as Hp.
  unfold tab1. rewrite (monthly_metrics_ok _ _ _ _ Hwf Hload Hf Hid Hbd).
  cbn [mbind result_bind].
  destruct (monthly_buckets (rows df_f)) as [|b bs] eqn:Hb.
  { apply monthly_buckets_nil in Hb; [done|].
    intros r. by eapply filtered_month_keys. }
  assert (Hq : getitem df_f "qty_ordered" = Raise (KeyError "qty_ordered")).
  { unfold getitem.
    destruct (columns df_f !! "qty_ordered") as [s|] eqn:Hs; [|done].
    assert (Hsome : is_Some (columns df_f !! "qty_ordered")) by by eexists.
    apply (apply_filters_has_column _ _ _ _ Hf) in Hsome.
    rewrite (prep_numeric _ _ Hp) in Hsome by lit.
    rewrite Hqty in Hsome. by destruct Hsome. }
  destruct (has_column df_f "after_discount") eqn:Ha.
  - assert (Haf : getitem df_f "after_discount" ≫= series_sum
                  = Ok (sum_field "after_discount" (rows df_f))).
    { apply (filtered_sum raw df c); try done. left. split; [lit|].
      apply bool_decide_eq_true_1 in Ha.
      apply (apply_filters_has_column _ _ _ _ Hf) in Ha.
      rewrite (prep_numeric _ _ Hp) in Ha by lit.
      by apply fmap_is_Some in Ha. }
    destruct (getitem df_f "after_discount") as [af|e] eqn:Hga;
      cbn [mbind result_bind] in Haf; [|done].
    cbn [mbind result_bind]. by rewrite Haf, Hq.
  - cbn [mbind result_bind]. by rewrite Hq.
Qed.

Lemma tab1_needs_quantity_witness :
  @tab1 example_coercions unquantified_view = Raise (KeyError "qty_ordered").
Proof.
  apply (@tab1_needs_quantity example_coercions unquantified_raw
           unquantified_prepared example_criteria).
  - unfold wf. lit.
  - by vm_compute.
  - by vm_compute.
  - lit.
  - lit.
  - by vm_compute.
  - rows_present.
Defined.

(** ** Orders counted by month *)

Lemma length_covered {A} `{EqDecision A} (l : list A) (gs : list (list A)) :
  NoDup l → (∀ x, x ∈ l → ∃ g, g ∈ gs ∧ x ∈ g) →
  (length l ≤ foldr Nat.add 0 ((λ g, length (remove_dups g)) <$> gs))%nat.
Proof.
  revert l. induction gs as [|g gs IH]; intros l Hnd Hcov.
  - destruct l as [|x l]; [done|].
    destruct (Hcov x) as (g & Hg & _); [left|]. by apply elem_of_nil in Hg.
  - rewrite fmap_cons. cbn [foldr].
    assert (Hsplit : filter (λ x, x ∈ g) l ++ filter (λ x, x ∉ g) l ≡ₚ l).
    { rewrite (filter_or_perm (λ x, x ∈ g) (λ x, x ∉ g)) by tauto.
      rewrite (filter_in_ext _ (λ _, True)); [by rewrite filter_True_id|].
      intros x _. split; [done|]. intros _. destruct (decide (x ∈ g)); tauto. }
    rewrite <-Hsplit, length_app.
    apply Nat.add_le_mono.
    + apply submseteq_length, NoDup_submseteq; [by apply list.NoDup_filter|].
      intros x [Hx _]%list_elem_of_filter. by apply elem_of_remove_dups.
    + apply IH; [by apply list.NoDup_filter|].
      intros x [Hx Hl]%list_elem_of_filter.
      destruct (Hcov x Hl) as (g' & Hg' & Hxg').
      apply elem_of_cons in Hg' as [->|Hg']; [done|]. by exists g'.
Qed.

Lemma nunique_by_group {K} `{EqDecision K} (f : Row → option K)
    (g : Row → cell) (rs : list Row) (ks : list K) :
  (∀ r, r ∈ rs → ∃ k, k ∈ ks ∧ f r = Some k) →
  (nunique (g <$> rs)
   ≤ foldr Nat.add 0
       ((λ k, nunique (g <$> filter (λ r, f r = Some k) rs)) <$> ks))%nat.
Proof.
  intros Hk. unfold nunique.
  pose proof (length_covered (remove_dups (dropna (g <$> rs)))
    ((λ k, dropna (g <$> filter (λ r, f r = Some k) rs)) <$> ks)) as Hlen.
  rewrite <-list_fmap_compose in Hlen. apply Hlen.
  - apply NoDup_remove_dups.
  - intros x [Hx Hna]%elem_of_remove_dups%elem_of_dropna.
    apply list_elem_of_fmap in Hx as (r & -> & Hr).
    destruct (Hk r Hr) as (k & Hin & Hfk).
    exists (dropna (g <$> filter (λ r, f r = Some k) rs)). split.
    + apply list_elem_of_fmap. by exists k.
    + apply elem_of_dropna. split; [|done]. apply list_elem_of_fmap.
      exists r. split; [done|]. by apply list_elem_of_filter.
Qed.

(** X16. Lines 82 and 95: the "Unique Orders" of a view is at most the sum of
    the monthly unique orders; an order whose rows fall in two months is
    counted in both. *)
Theorem unique_orders_by_month `{Coercions} raw df c df_f :
  wf raw → load_data raw = Ok df → apply_filters df c = Ok df_f →
  is_Some (columns (strip_columns raw) !! "id") →
  is_Some (columns (strip_columns raw) !! "before_discount") →
  ∃ months id, monthly_metrics df_f = Ok months ∧ getitem df_f "id" = Ok id ∧
    (nunique id
     ≤ foldr Nat.add 0
         ((λ m, default 0%nat (unique_orders m)) <$> months))%nat.
Proof.
  intros Hwf Hload Hf Hid Hbd.
  pose proof (load_data_prepared _ _ Hwf Hload) as Hp.
  eexists _, _. split; [by apply (monthly_metrics_ok raw df c)|]. split.
  { apply (filtered_column raw df c); try done.
    rewrite (prep_other _ _ Hp); [done|]. intros Hin. absurd_lit. }
  unfold monthly_buckets. rewrite <-list_fmap_compose.
  apply (nunique_by_group month_key). intros r Hr.
  destruct (filtered_month_keys _ _ _ _ r Hwf Hload Hf Hr) as [k Hk].
  exists k. split; [|done]. apply elem_of_group_keys. rewrite <-Hk.
  apply list_elem_of_fmap. by exists r.
Qed.

Lemma unique_orders_by_month_witness :
  ∃ months id, monthly_metrics sample_view = Ok months ∧
    getitem sample_view "id" = Ok id ∧
    (nunique id
     ≤ foldr Nat.add 0
         ((λ m, default 0%nat (unique_orders m)) <$> months))%nat.
Proof.
  apply (@unique_orders_by_month example_coercions sample_raw
           sample_prepared example_criteria).
  - unfold wf. lit.
  - by vm_compute.
  - by vm_compute.
  - lit.
  - lit.
Defined.

(** ** The scorecards and the category chart of tab 2 *)

Lemma sum_product_groups_of (f : ProductRow → Qc) c (rs : list Row) :
  (∀ k l, f (product_row k l) = sum_field c l) →
  sum_list (f <$> product_groups rs)
  = sum_field c (filter (λ r, is_Some (product_key r)) rs).
Proof.
  intros Hf. unfold product_groups. rewrite <-list_fmap_compose.
  rewrite (list_fmap_ext _
    (sum_field c ∘ (λ k, filter (λ r, product_key r = Some k) rs))).
  2:{ intros i k _. apply Hf. }
  rewrite list_fmap_compose, sum_field_concat.
  apply sum_field_perm, groups_partition.
Qed.

Lemma sum_field_split (P : Row → Prop) `{∀ r, Decision (P r)} c rs :
  sum_field c rs
  = (sum_field c (filter P rs) + sum_field c (filter (λ r, ¬ P r) rs))%Qc.
Proof.
  unfold sum_field. rewrite <-sum_list_app, <-fmap_app.
  apply sum_list_perm, fmap_Permutation.
  rewrite (filter_or_perm P (λ r, ¬ P r)) by tauto.
  rewrite (filter_in_ext _ (λ _, True)); [by rewrite filter_True_id|].
  intros r _. split; [done|]. intros _. destruct (decide (P r)); tauto.
Qed.

Lemma group_column_of {A K B} `{EqDecision K} (f : A → option K)
    (g : A → B) (l : list A) k :
  mask_select (group_mask (f <$> l) k) (g <$> l)
  = g <$> filter (λ x, f x = Some k) l.
Proof.
  unfold group_mask. rewrite <-list_fmap_compose, mask_select_fmap.
  f_equal. apply (mask_select_filter (λ x, f x = Some k)).
Qed.

Lemma sum_list_fmap_concat {A} (g : A → Qc) (ls : list (list A)) :
  sum_list ((λ l, sum_list (g <$> l)) <$> ls) = sum_list (g <$> concat ls).
Proof.
  induction ls as [|l ls IH]; [done|].
  by rewrite fmap_cons, concat_cons, fmap_app, sum_list_app, <-IH.
Qed.

Lemma truediv_finite a n :
  (0 < n)%nat → truediv a n = Finite (a / Qc_of_Z (Z.of_nat n))%Qc.
Proof. intros Hn. unfold truediv. rewrite decide_False by lia. done. Qed.

Section category_chart.
Context (S : Sorter) (HS : sorts_descending S).

Lemma cat_agg_spec (pa : list ProductRow) :
  (∀ p, p ∈ pa → category p ≠ NaN) →
  let chart := cat_agg pa in
  sum_list (chart.*2) = sum_list (pa_before_discount <$> pa) ∧
  NoDup (chart.*1) ∧
  (∀ k v, (k, v) ∈ chart →
     v = sum_list (pa_before_discount
                     <$> filter (λ p, category p = k) pa)) ∧
  (∀ p, p ∈ pa → category p ∈ chart.*1) ∧
  (∀ i j x y, (i ≤ j)%nat → chart !! i = Some x → chart !! j = Some y →
     (y.2 ≤ x.2)%Qc).
Proof.
  intros Hcat. cbv zeta.
  set (key := λ p : ProductRow, key_of (category p)).
  set (ks := group_keys cell_le (key <$> pa)).
  set (grouped := (λ k, (k, sum_list (pa_before_discount
                    <$> filter (λ p, key p = Some k) pa))) <$> ks).
  assert (Hg : ∀ keys, keys = key <$> pa →
    (λ k, (k, sum_list (mask_select (group_mask keys k)
                          (pa_before_discount <$> pa))))
      <$> group_keys cell_le keys = grouped).
  { intros keys ->. apply list_fmap_ext. intros i k _.
    by rewrite group_column_of. }
  assert (Hc : cat_agg pa = take_rows (argsort_desc (grouped.*2)) grouped).
  { unfold cat_agg. cbv zeta.
    by rewrite (Hg _ (eq_sym (list_fmap_compose category key_of pa))). }
  rewrite Hc. clear Hc.
  destruct (HS (grouped.*2)) as [Hperm Hsorted].
  rewrite length_fmap in Hperm.
  pose proof (take_rows_perm _ _ Hperm) as Hchart.
  set (chart := take_rows (argsort_desc (grouped.*2)) grouped) in *.
  assert (Hkey : ∀ p k, p ∈ pa → key p = Some k ↔ category p = k).
  { intros p k Hp. unfold key, key_of.
    destruct (category p) eqn:Hc; cbn [notna];
      try (split; congruence). by apply Hcat in Hp. }
  assert (H1 : grouped.*1 = ks).
  { unfold grouped. rewrite <-list_fmap_compose. apply list_fmap_id. }
  split; [|split; [|split; [|split]]].
  - transitivity (sum_list (grouped.*2));
      [by apply sum_list_perm, fmap_Permutation|].
    unfold grouped. rewrite <-list_fmap_compose.
    rewrite (list_fmap_ext _ ((λ l, sum_list (pa_before_discount <$> l))
               ∘ (λ k, filter (λ p, key p = Some k) pa))) by done.
    rewrite list_fmap_compose, sum_list_fmap_concat.
    apply sum_list_perm, fmap_Permutation.
    unfold ks. rewrite groups_partition.
    rewrite (filter_in_ext _ (λ _, True)); [by rewrite filter_True_id|].
    intros p Hp. split; [done|]. intros _. exists (category p).
    by apply Hkey.
  - rewrite Hchart, H1. apply NoDup_group_keys.
  - intros k v Hin. rewrite Hchart in Hin.
    apply list_elem_of_fmap in Hin as (k' & [= -> ->] & _). do 2 f_equal.
    apply filter_in_ext. intros p Hp. by apply Hkey.
  - intros p Hp. rewrite Hchart, H1. apply elem_of_group_keys.
    apply list_elem_of_fmap. exists p. split; [|done].
    symmetry. by apply Hkey.
  - intros i j x y Hij Hx Hy.
    apply (take_rows_lookup _ _ _ _ Hperm) in Hx, Hy.
    apply (Hsorted i j); [done|..].
    + destruct (argsort_desc _ !! i) as [a|]; [|done]. simpl in *.
      by rewrite list_lookup_fmap, Hx.
    + destruct (argsort_desc _ !! j) as [b|]; [|done]. simpl in *.
      by rewrite list_lookup_fmap, Hy.
Qed.

Lemma product_groups_category (rs : list Row) p :
  p ∈ product_groups rs → category p ≠ NaN.
Proof.
  unfold product_groups. intros (k & -> & Hk)%list_elem_of_fmap.
  apply elem_of_group_keys, list_elem_of_fmap in Hk as (r & Hk & _).
  unfold product_key, key3_of in Hk.
  destruct (notna (field r "sku_id") && notna (field r "sku_name")
            && notna (field r "category")) eqn:Hn; [|done].
  injection Hk as ->. cbn [product_row category snd].
  apply andb_true_iff in Hn as [_ Hn]. by destruct (field r "category").
Qed.
End category_chart.

Section kpis.
Context `{Coercions} (S : Sorter) (HS : sorts_descending S).

Lemma sum_rollup (f : ProductRow → Qc) col raw df c df_f :
  wf raw → load_data raw = Ok df → apply_filters df c = Ok df_f →
  (∀ col, col ∈ rollup_columns →
     is_Some (columns (strip_columns raw) !! col)) →
  (∀ k l, f (product_row k l) = sum_field col l) →
  ∃ rollup, prod_agg df_f = Ok rollup ∧
    rollup ≡ₚ product_groups (rows df_f) ∧
    sum_list (f <$> rollup)
    = sum_field col (filter (λ r, is_Some (product_key r)) (rows df_f)).
Proof.
  intros Hwf Hload Hf Hcols Hcol. eexists. split.
  { by eapply prod_agg_spec. }
  destruct (HS (pa_before_discount <$> product_groups (rows df_f)))
    as [Hperm _].
  rewrite length_fmap in Hperm. apply take_rows_perm in Hperm.
  split; [done|]. rewrite <-(sum_product_groups_of f) by done.
  by apply sum_list_perm, fmap_Permutation.
Qed.

Lemma filtered_ids raw df c df_f col :
  wf raw → load_data raw = Ok df → apply_filters df c = Ok df_f →
  col ∉ written_columns →
  is_Some (columns (strip_columns raw) !! col) →
  getitem df_f col = Ok ((λ r, field r col) <$> rows df_f).
Proof.
  intros Hwf Hload Hf Hw Hcol.
  pose proof (load_data_prepared _ _ Hwf Hload) as Hp.
  apply (filtered_column raw df c); try done.
  by rewrite (prep_other _ _ Hp).
Qed.

Lemma kpis_spec raw df c df_f :
  wf raw → load_data raw = Ok df → apply_filters df c = Ok df_f →
  (∀ col, col ∈ rollup_columns →
     is_Some (columns (strip_columns raw) !! col)) →
  is_Some (columns (strip_columns raw) !! "id") →
  let keyed := filter (λ r, is_Some (product_key r)) (rows df_f) in
  let orders := nunique ((λ r, field r "id") <$> rows df_f) in
  kpis df_f
  = Ok {| total_before := sum_field "before_discount" keyed;
          total_after := sum_field "after_discount" keyed;
          total_net := sum_field "net_profit" keyed;
          total_qty := sum_field "qty_ordered" keyed;
          kpi_unique_customers :=
            nunique ((λ r, field r "customer_id") <$> rows df_f);
          aov_overall :=
            if decide (orders = 0%nat) then NotANumber
            else Finite (sum_field "before_discount" (rows df_f)
                         / Qc_of_Z (Z.of_nat orders))%Qc |}.
Proof.
  intros Hwf Hload Hf Hcols Hid. cbv zeta. unfold kpis.
  destruct (sum_rollup pa_before_discount "before_discount" _ _ _ _
              Hwf Hload Hf Hcols) as (rollup & Hr & Hperm & Hb); [done|].
  rewrite Hr. cbn [mbind result_bind].
  rewrite (filtered_ids raw df c df_f "customer_id"), (filtered_ids raw df c df_f "id");
    try done; try (intros Hin; absurd_lit); try (apply Hcols; lit).
  cbn [mbind result_bind].
  set (orders := nunique ((λ r, field r "id") <$> rows df_f)).
  assert (Haov :
    (if (0 <? orders)%nat then
       before_discount ← getitem df_f "before_discount";
       total ← series_sum before_discount;
       Ok (truediv total orders)
     else Ok NotANumber)
    = Ok (if decide (orders = 0%nat) then NotANumber
          else Finite (sum_field "before_discount" (rows df_f)
                       / Qc_of_Z (Z.of_nat orders))%Qc)).
  { destruct (Nat.ltb_spec 0 orders) as [Hpos|Hzero].
    - assert (Hs : getitem df_f "before_discount" ≫= series_sum
                   = Ok (sum_field "before_discount" (rows df_f))).
      { apply (filtered_sum raw df c); try done. left. split; [lit|].
        apply Hcols. lit. }
      destruct (getitem df_f "before_discount") as [bd|e];
        cbn [mbind result_bind] in Hs |- *; [|done].
      rewrite Hs. cbn [mbind result_bind].
      rewrite truediv_finite by done. by rewrite decide_False by lia.
    - by rewrite decide_True by lia. }
  rewrite Haov. cbn [mbind result_bind]. f_equal.
  destruct (sum_rollup pa_after_discount "after_discount" _ _ _ _
              Hwf Hload Hf Hcols) as (r2 & Hr2 & _ & Ha); [done|].
  destruct (sum_rollup pa_net_profit "net_profit" _ _ _ _
              Hwf Hload Hf Hcols) as (r3 & Hr3 & _ & Hn); [done|].
  destruct (sum_rollup pa_qty_ordered "qty_ordered" _ _ _ _
              Hwf Hload Hf Hcols) as (r4 & Hr4 & _ & Hq); [done|].
  rewrite Hr in Hr2, Hr3, Hr4.
  injection Hr2 as <-. injection Hr3 as <-. injection Hr4 as <-.
  by rewrite Hb, Ha, Hn, Hq.
Qed.
End kpis.

(** X17. Line 135: the overall AOV of tab 2 is never an infinity: it is NaN
    when no row of the view carries an order id, and otherwise the
    [before_discount] of the whole view divided by the number of distinct
    order ids. *)
Theorem overall_aov_is_guarded `{Coercions} (S : Sorter) raw df c df_f :
  sorts_descending S →
  wf raw → load_data raw = Ok df → apply_filters df c = Ok df_f →
  (∀ col, col ∈ rollup_columns →
     is_Some (columns (strip_columns raw) !! col)) →
  is_Some (columns (strip_columns raw) !! "id") →
  ∃ k, kpis df_f = Ok k ∧
    let orders := nunique ((λ r, field r "id") <$> rows df_f) in
    (orders = 0%nat → aov_overall k = NotANumber) ∧
    ((0 < orders)%nat →
     aov_overall k
     = Finite (sum_field "before_discount" (rows df_f)
               / Qc_of_Z (Z.of_nat orders))%Qc) ∧
    ∀ negative, aov_overall k ≠ Infinity negative.
Proof.
  intros HS Hwf Hload Hf Hcols Hid.
  rewrite (kpis_spec S HS _ _ _ _ Hwf Hload Hf Hcols Hid).
  eexists. split; [done|]. cbn [aov_overall].
  case_decide as Hn; (split; [|split]); try done; try lia.
Qed.

Lemma overall_aov_is_guarded_witness :
  ∃ k, @kpis example_coercions stable_sorter sample_view = Ok k ∧
    let orders := nunique ((λ r, field r "id") <$> rows sample_view) in
    (orders = 0%nat → aov_overall k = NotANumber) ∧
    ((0 < orders)%nat →
     aov_overall k
     = Finite (sum_field "before_discount" (rows sample_view)
               / Qc_of_Z (Z.of_nat orders))%Qc) ∧
    ∀ negative, aov_overall k ≠ Infinity negative.
Proof.
  apply (@overall_aov_is_guarded example_coercions stable_sorter sample_raw
           sample_prepared example_criteria).
  - apply stable_sorter_ok.
  - unfold wf. lit.
  - by vm_compute.
  - by vm_compute.
  - unfold rollup_columns. columns_present.
  - lit.
Defined.

(** X18. Lines 130-134: the customer count of tab 2 is taken over the whole
    view; the four totals are taken over the rollup, and where the amounts
    are whole numbers that float64 adds without rounding they are the sums
    over the rows of the view that have a product id, a product name and a
    category, the rows the rollup groups. *)
Theorem kpi_totals `{Coercions} (S : Sorter) raw df c df_f :
  sorts_descending S →
  wf raw → load_data raw = Ok df → apply_filters df c = Ok df_f →
  (∀ col, col ∈ rollup_columns →
     is_Some (columns (strip_columns raw) !! col)) →
  is_Some (columns (strip_columns raw) !! "id") →
  ∃ k, kpis df_f = Ok k ∧
    kpi_unique_customers k
    = nunique ((λ r, field r "customer_id") <$> rows df_f) ∧
    (exact_amounts df_f = true →
     let keyed := filter (λ r, is_Some (product_key r)) (rows df_f) in
     total_before k = sum_field "before_discount" keyed ∧
     total_after k = sum_field "after_discount" keyed ∧
     total_net k = sum_field "net_profit" keyed ∧
     total_qty k = sum_field "qty_ordered" keyed).
Proof.
  intros HS Hwf Hload Hf Hcols Hid.
  rewrite (kpis_spec S HS _ _ _ _ Hwf Hload Hf Hcols Hid).
  eexists. split; [done|]. done.
Qed.

Lemma kpi_totals_witness :
  ∃ k, @kpis example_coercions stable_sorter sample_view = Ok k ∧
    let keyed := filter (λ r, is_Some (product_key r)) (rows sample_view) in
    total_before k = sum_field "before_discount" keyed ∧
    total_after k = sum_field "after_discount" keyed ∧
    total_net k = sum_field "net_profit" keyed ∧
    total_qty k = sum_field "qty_ordered" keyed ∧
    kpi_unique_customers k
    = nunique ((λ r, field r "customer_id") <$> rows sample_view).
Proof.
  destruct (@kpi_totals example_coercions stable_sorter sample_raw
              sample_prepared example_criteria sample_view)
    as (k & Hk & Hcust & Htot).
  - apply stable_sorter_ok.
  - unfold wf. lit.
  - by vm_compute.
  - by vm_compute.
  - unfold rollup_columns. columns_present.
  - lit.
  - exists k. split; [done|].
    destruct Htot as (Hb & Ha & Hn & Hq); [vm_compute; reflexivity|].
    by repeat split.
Defined.

(** X19. Lines 91-94 against 130-133: where the amounts are whole numbers
    that float64 adds without rounding, the totals of tab 1 exceed those of
    tab 2 by the sums over the rows of the view that lack a product id, a
    product name or a category. *)
Theorem scorecards_of_the_two_tabs `{Coercions} (S : Sorter)
    raw df c df_f :
  sorts_descending S →
  wf raw → load_data raw = Ok df → apply_filters df c = Ok df_f →
  (∀ col, col ∈ rollup_columns →
     is_Some (columns (strip_columns raw) !! col)) →
  is_Some (columns (strip_columns raw) !! "id") →
  rows df_f ≠ [] →
  ∃ s k, tab1 df_f = Ok (Dashboard s) ∧ kpis df_f = Ok k ∧
    (exact_amounts df_f = true →
     let unkeyed := filter (λ r, ¬ is_Some (product_key r)) (rows df_f) in
     sc_before_discount s
     = (total_before k + sum_field "before_discount" unkeyed)%Qc ∧
     sc_after_discount s
     = Some (total_after k + sum_field "after_discount" unkeyed)%Qc ∧
     sc_net_profit s = (total_net k + sum_field "net_profit" unkeyed)%Qc ∧
     sc_quantity s = (total_qty k + sum_field "qty_ordered" unkeyed)%Qc).
Proof.
  intros HS Hwf Hload Hf Hcols Hid Hne.
  rewrite (kpis_spec S HS _ _ _ _ Hwf Hload Hf Hcols Hid).
  rewrite (tab1_spec _ _ _ _ Hwf Hload Hf Hid) by (apply Hcols; lit).
  destruct (rows df_f) as [|r rs] eqn:Hrows; [done|]. rewrite <-Hrows.
  eexists _, _. split; [done|]. split; [done|]. intros _.
  cbn [sc_before_discount sc_after_discount sc_net_profit sc_quantity
       total_before total_after total_net total_qty].
  assert (Ha : has_column (strip_columns raw) "after_discount" = true).
  { apply bool_decide_eq_true_2, Hcols. lit. }
  rewrite Ha.
  repeat split; try f_equal;
    apply (sum_field_split (λ r, is_Some (product_key r))).
Qed.

Lemma scorecards_of_the_two_tabs_witness :
  ∃ s k, @tab1 example_coercions sample_view = Ok (Dashboard s) ∧
    @kpis example_coercions stable_sorter sample_view = Ok k ∧
    let unkeyed :=
      filter (λ r, ¬ is_Some (product_key r)) (rows sample_view) in
    sc_before_discount s
    = (total_before k + sum_field "before_discount" unkeyed)%Qc ∧
    sc_after_discount s
    = Some (total_after k + sum_field "after_discount" unkeyed)%Qc ∧
    sc_net_profit s = (total_net k + sum_field "net_profit" unkeyed)%Qc ∧
    sc_quantity s = (total_qty k + sum_field "qty_ordered" unkeyed)%Qc.
Proof.
  destruct (@scorecards_of_the_two_tabs example_coercions stable_sorter
              sample_raw sample_prepared example_criteria sample_view)
    as (s & k & Hs & Hk & Htot).
  - apply stable_sorter_ok.
  - unfold wf. lit.
  - by vm_compute.
  - by vm_compute.
  - unfold rollup_columns. columns_present.
  - lit.
  - rows_present.
  - exists s, k. split; [done|]. split; [done|].
    apply Htot. vm_compute. reflexivity.
Defined.

(** X20. Lines 120-131: on a file without [after_discount] the product rollup
    raises [KeyError] for every view, and with it the scorecards of tab 2:
    the [else 0] of line 131 is never taken. *)
Theorem rollup_needs_after_discount `{Coercions} `{Sorter} raw df c df_f :
  wf raw → load_data raw = Ok df → apply_filters df c = Ok df_f →
  (∀ col, col ∈ ["sku_id"; "sku_name"; "category"; "before_discount"] →
     is_Some (columns (strip_columns raw) !! col)) →
  columns (strip_columns raw) !! "after_discount" = None →
  prod_agg df_f = Raise (KeyError "after_discount") ∧
  kpis df_f = Raise (KeyError "after_discount").
Proof.
  intros Hwf Hload Hf Hcols Hnone.
  pose proof (load_data_prepared _ _ Hwf Hload) as Hp.
  assert (Hr : prod_agg df_f = Raise (KeyError "after_discount")).
  { unfold prod_agg.
    rewrite (filtered_ids raw df c df_f "sku_id"),
      (filtered_ids raw df c df_f "sku_name"),
      (filtered_ids raw df c df_f "category");
      try done; try (intros Hin; absurd_lit); try (apply Hcols; lit).
    cbn [mbind result_bind].
    rewrite (filtered_column raw df c df_f "before_discount"); try done.
    2:{ rewrite (prep_numeric _ _ Hp) by lit. apply fmap_is_Some, Hcols. lit. }
    cbn [mbind result_bind].
    assert (Hg : getitem df_f "after_discount"
                 = Raise (KeyError "after_discount")).
    { unfold getitem.
      destruct (columns df_f !! "after_discount") as [s|] eqn:Hs; [|done].
      assert (Hsome : is_Some (columns df_f !! "after_discount"))
        by by eexists.
      apply (apply_filters_has_column _ _ _ _ Hf) in Hsome.
      rewrite (prep_numeric _ _ Hp) in Hsome by lit.
      rewrite Hnone in Hsome. by destruct Hsome. }
    by rewrite Hg. }
  split; [done|]. unfold kpis. by rewrite Hr.
Qed.

Lemma rollup_needs_after_discount_witness :
  @prod_agg stable_sorter undiscounted_view
  = Raise (KeyError "after_discount") ∧
  @kpis example_coercions stable_sorter undiscounted_view
  = Raise (KeyError "after_discount").
Proof.
  apply (@rollup_needs_after_discount example_coercions stable_sorter
           undiscounted_raw undiscounted_prepared example_criteria).
  - unfold wf. lit.
  - by vm_compute.
  - by vm_compute.
  - columns_present.
  - by vm_compute.
Defined.

(** X21. Line 150: the category chart has one bar per category of the rollup,
    the bar of a category is the sum of its products, and the bars come
    from the largest down; where the amounts are whole numbers that
    float64 adds without rounding, the bars add up to "Total Before
    Discount". *)
Theorem category_chart `{Coercions} (S : Sorter) raw df c df_f :
  sorts_descending S →
  wf raw → load_data raw = Ok df → apply_filters df c = Ok df_f →
  (∀ col, col ∈ rollup_columns →
     is_Some (columns (strip_columns raw) !! col)) →
  ∃ rollup, prod_agg df_f = Ok rollup ∧
    let chart := cat_agg rollup in
    (exact_amounts df_f = true →
     sum_list (chart.*2) = sum_list (pa_before_discount <$> rollup)) ∧
    NoDup (chart.*1) ∧
    (∀ k v, (k, v) ∈ chart →
       v = sum_list (pa_before_discount
                       <$> filter (λ p, category p = k) rollup)) ∧
    (∀ p, p ∈ rollup → category p ∈ chart.*1) ∧
    (∀ i j x y, (i ≤ j)%nat → chart !! i = Some x → chart !! j = Some y →
       (y.2 ≤ x.2)%Qc).
Proof.
  intros HS Hwf Hload Hf Hcols.
  destruct (sum_rollup S HS pa_before_discount "before_discount" _ _ _ _
              Hwf Hload Hf Hcols) as (rollup & Hr & Hperm & _); [done|].
  exists rollup. split; [done|].
  destruct (cat_agg_spec S HS rollup) as (Hsum & Hrest).
  { intros p Hp. rewrite Hperm in Hp. by eapply product_groups_category. }
  cbn zeta. split; [by intros _|]. exact Hrest.
Qed.

Lemma category_chart_witness :
  ∃ rollup, @prod_agg stable_sorter sample_view = Ok rollup ∧
    let chart := @cat_agg stable_sorter rollup in
    sum_list (chart.*2) = sum_list (pa_before_discount <$> rollup) ∧
    NoDup (chart.*1) ∧
    (∀ k v, (k, v) ∈ chart →
       v = sum_list (pa_before_discount
                       <$> filter (λ p, category p = k) rollup)) ∧
    (∀ p, p ∈ rollup → category p ∈ chart.*1) ∧
    (∀ i j x y, (i ≤ j)%nat → chart !! i = Some x → chart !! j = Some y →
       (y.2 ≤ x.2)%Qc).
Proof.
  destruct (@category_chart example_coercions stable_sorter sample_raw
              sample_prepared example_criteria sample_view)
    as (rollup & Hr & Hsum & Hrest).
  - apply stable_sorter_ok.
  - unfold wf. lit.
  - by vm_compute.
  - by vm_compute.
  - unfold rollup_columns. columns_present.
  - exists rollup. split; [done|]. split; [|exact Hrest].
    apply Hsum. vm_compute. reflexivity.
Defined.

Global Instance key_le_trans : Transitive key_le.
Proof. intros a b c. unfold key_le. apply transitivity. Qed.

Global Instance key_le_total : Total key_le.
Proof. intros a b. unfold key_le. apply total, _. Qed.

Lemma monthly_quantities_sorted (rs : list Row) :
  StronglySorted key_le (monthly_quantities rs).
Proof.
  unfold monthly_quantities.
  apply (StronglySorted_fmap _ cell_le); [done|].
  apply StronglySorted_group_keys.
Qed.

Lemma sort_monthly_quantities (rs : list Row) :
  merge_sort key_le (monthly_quantities rs) = monthly_quantities rs.
Proof.
  apply (StronglySorted_unique_strong key_le).
  - intros x1 x2 Hx1 Hx2 H12 H21.
    rewrite merge_sort_Permutation in Hx1. unfold monthly_quantities in *.
    apply list_elem_of_fmap in Hx1 as (k1 & -> & _).
    apply list_elem_of_fmap in Hx2 as (k2 & -> & _).
    unfold key_le in *; simpl in *.
    assert (k1 = k2) as -> by (by apply (anti_symm cell_le)). done.
  - apply StronglySorted_merge_sort; apply _.
  - apply monthly_quantities_sorted.
  - apply merge_sort_Permutation.
Qed.

Lemma sum_monthly_quantities (rs : list Row) :
  sum_list ((monthly_quantities rs).*2)
  = sum_field "qty_ordered" (filter (λ r, is_Some (month_key r)) rs).
Proof.
  unfold monthly_quantities. rewrite <-list_fmap_compose.
  rewrite (list_fmap_ext _ (sum_field "qty_ordered"
             ∘ (λ k, filter (λ r, month_key r = Some k) rs))) by done.
  rewrite list_fmap_compose, sum_field_concat.
  apply sum_field_perm, groups_partition.
Qed.

Lemma month_keys_chronological (rs : list Row) (y : Z) :
  (∀ r, r ∈ rs → ∃ t, field r "month_name" = Str (strftime_Ym t) ∧
                       ts_year t = y) →
  ∀ i j ka kb, (i < j)%nat →
    group_keys cell_le (month_key <$> rs) !! i = Some ka →
    group_keys cell_le (month_key <$> rs) !! j = Some kb →
    ∃ ta tb, ka = Str (strftime_Ym ta) ∧ kb = Str (strftime_Ym tb) ∧
      ts_year ta = y ∧ ts_year tb = y ∧
      (month_number (ts_month ta) < month_number (ts_month tb))%Z.
Proof.
  intros Hkey i j ka kb Hij Hka Hkb.
  assert (Hle : cell_le ka kb).
  { by apply (StronglySorted_lookup cell_le _ i j ka kb
                (StronglySorted_group_keys (month_key <$> rs))). }
  assert (Hne : ka ≠ kb).
  { intros ->.
    pose proof (NoDup_group_keys cell_le (month_key <$> rs)) as Hnd.
    pose proof (NoDup_lookup _ _ _ _ Hnd Hka Hkb). lia. }
  assert (Hdated : ∀ k n,
    group_keys cell_le (month_key <$> rs) !! n = Some k →
    ∃ t, k = Str (strftime_Ym t) ∧ ts_year t = y).
  { intros k n Hk.
    apply list_elem_of_lookup_2, elem_of_group_keys in Hk.
    apply list_elem_of_fmap in Hk as (r & Hr & Hin).
    destruct (Hkey r Hin) as (t & Ht & Hy). exists t. split; [|done].
    unfold month_key in Hr. rewrite Ht in Hr. by injection Hr. }
  destruct (Hdated ka i Hka) as (ta & -> & Hya).
  destruct (Hdated kb j Hkb) as (tb & -> & Hyb).
  exists ta, tb. repeat (split; [done|]).
  unfold cell_le in Hle. cbn [cell_leb] in Hle. apply Is_true_true in Hle.
  apply strftime_Ym_leb in Hle; [|congruence].
  destruct (decide (month_number (ts_month ta)
                    = month_number (ts_month tb))) as [Heq|?]; [|lia].
  apply month_number_inj in Heq. exfalso. apply Hne.
  f_equal. unfold strftime_Ym. by rewrite Hya, Hyb, Heq.
Qed.

Lemma take_rows_nil {A} (ix : list nat) : take_rows ix (@nil A) = [].
Proof. unfold take_rows. by induction ix. Qed.

Section segment_chart.
Context `{Coercions}.

Lemma mob_month_spec raw df c df_f d :
  wf raw → load_data raw = Ok df → apply_filters df c = Ok df_f →
  (∀ col, col ∈ segment_columns →
     is_Some (columns (strip_columns raw) !! col)) →
  df_mobile_jazz df_f = Ok d →
  mob_month d = Ok (monthly_quantities (rows d)) ∧
  (∀ r, r ∈ rows d → r ∈ rows df_f).
Proof.
  intros Hwf Hload Hf Hcols Hd.
  pose proof (load_data_prepared _ _ Hwf Hload) as Hp.
  destruct (filtered_view _ _ _ _ Hwf Hload Hf)
    as (Hwf' & Hsub & by_month & Hget & _ & _).
  destruct (df_mobile_jazz_rows _ _ _ _ Hwf Hload Hf Hcols)
    as (d' & Hd' & Hwfd & Hcolsd & Hrows).
  rewrite Hd in Hd'. injection Hd' as <-.
  assert (Hin : ∀ r, r ∈ rows d → r ∈ rows df_f).
  { intros r. rewrite Hrows. by intros [_ ?]%list_elem_of_filter. }
  split; [|done].
  assert (Hcol : ∀ col, is_Some (columns df_f !! col) →
    getitem d col = Ok ((λ r, field r col) <$> rows d)).
  { intros col Hc. apply Hcolsd in Hc as [s Hs]. unfold getitem.
    rewrite Hs. f_equal. by apply column_rows. }
  unfold mob_month. rewrite (Hcol "month_name").
  2:{ unfold getitem in Hget.
      destruct (columns df_f !! "month_name"); [by eexists|done]. }
  cbn [mbind result_bind]. rewrite (Hcol "qty_ordered").
  2:{ apply (apply_filters_has_column _ _ _ _ Hf).
      rewrite (prep_numeric _ _ Hp) by lit. apply fmap_is_Some, Hcols. lit. }
  cbn [mbind result_bind]. rewrite <-list_fmap_compose.
  change (key_of ∘ _) with month_key.
  rewrite (traverse_ok _ (λ k, (k, sum_field "qty_ordered"
             (filter (λ r, month_key r = Some k) (rows d))))).
  - cbn [mbind result_bind]. f_equal. apply sort_monthly_quantities.
  - intros k _. rewrite group_column.
    rewrite (series_sum_fields "qty_ordered"); [done|].
    intros r [_ Hr]%list_elem_of_filter.
    eapply prepared_numeric_field; [done|by apply Hsub, Hin|].
    left. split; [lit|]. rewrite (prep_numeric _ _ Hp) by lit.
    apply fmap_is_Some, Hcols. lit.
Qed.
End segment_chart.

(** X22. Lines 166-169: the bars of the JazzWallet chart are the quantities of
    the segment by month, in calendar order; where the amounts are whole
    numbers that float64 adds without rounding, they add up to the
    quantity the report prints (before it is cut to an integer). *)
Theorem segment_chart_adds_up `{Coercions} raw df c df_f :
  wf raw → load_data raw = Ok df → apply_filters df c = Ok df_f →
  (∀ col, col ∈ segment_columns →
     is_Some (columns (strip_columns raw) !! col)) →
  ∃ d chart, df_mobile_jazz df_f = Ok d ∧ mob_month d = Ok chart ∧
    (exact_amounts df_f = true →
     sum_list (chart.*2) = sum_field "qty_ordered" (rows d) ∧
     (∀ q n, mobile_jazz_report df_f = Ok (Totals q n) →
        q = trunc (sum_list (chart.*2)))) ∧
    (∀ k v, (k, v) ∈ chart →
       v = sum_field "qty_ordered"
             (filter (λ r, field r "month_name" = k) (rows d))) ∧
    (∀ i j a b, (i < j)%nat → chart !! i = Some a → chart !! j = Some b →
       ∃ ta tb, a.1 = Str (strftime_Ym ta) ∧ b.1 = Str (strftime_Ym tb) ∧
         ts_year ta = selected_year c ∧ ts_year tb = selected_year c ∧
         (month_number (ts_month ta) < month_number (ts_month tb))%Z).
Proof.
  intros Hwf Hload Hf Hcols.
  destruct (mobile_jazz_report_spec _ _ _ _ Hwf Hload Hf Hcols)
    as (d & Hd & Hrows & Hreport).
  destruct (mob_month_spec _ _ _ _ _ Hwf Hload Hf Hcols Hd) as [Hm Hin].
  destruct (filtered_view _ _ _ _ Hwf Hload Hf) as (_ & _ & _ & _ & _ & Hk).
  assert (Hkey : ∀ r, r ∈ rows d →
    ∃ t, field r "month_name" = Str (strftime_Ym t) ∧
         ts_year t = selected_year c) by (intros r Hr; by apply Hk, Hin).
  exists d, (monthly_quantities (rows d)). repeat (split; [done|]).
  assert (Hsum : sum_list ((monthly_quantities (rows d)).*2)
                 = sum_field "qty_ordered" (rows d)).
  { rewrite sum_monthly_quantities.
    rewrite (filter_in_ext _ (λ _, True)); [by rewrite filter_True_id|].
    intros r Hr. split; [done|]. intros _.
    destruct (Hkey r Hr) as (t & Ht & _). unfold month_key. rewrite Ht.
    by eexists. }
  split; [|split].
  - intros _. split; [done|]. intros q n Hq. rewrite Hreport in Hq.
    rewrite Hsum. destruct (rows d) as [|r rs]; [done|].
    by injection Hq as <- _.
  - intros k v (k' & [= -> ->] & Hk')%list_elem_of_fmap. f_equal.
    apply filter_in_ext. intros r Hr. unfold month_key, key_of.
    destruct (Hkey r Hr) as (t & -> & _). cbn [notna]. split; congruence.
  - intros i j a b Hij Ha Hb. unfold monthly_quantities in Ha, Hb.
    apply list_lookup_fmap_Some in Ha as (ka & -> & Hka).
    apply list_lookup_fmap_Some in Hb as (kb & -> & Hkb).
    by apply (month_keys_chronological (rows d) (selected_year c) Hkey i j).
Qed.

Lemma segment_chart_adds_up_witness :
  ∃ d chart, @df_mobile_jazz example_coercions sample_view = Ok d ∧
    mob_month d = Ok chart ∧
    sum_list (chart.*2) = sum_field "qty_ordered" (rows d) ∧
    (∀ q n, @mobile_jazz_report example_coercions sample_view
            = Ok (Totals q n) →
       q = trunc (sum_list (chart.*2))) ∧
    (∀ k v, (k, v) ∈ chart →
       v = sum_field "qty_ordered"
             (filter (λ r, field r "month_name" = k) (rows d))) ∧
    (∀ i j a b, (i < j)%nat → chart !! i = Some a → chart !! j = Some b →
       ∃ ta tb, a.1 = Str (strftime_Ym ta) ∧ b.1 = Str (strftime_Ym tb) ∧
         ts_year ta = selected_year example_criteria ∧
         ts_year tb = selected_year example_criteria ∧
         (month_number (ts_month ta) < month_number (ts_month tb))%Z).
Proof.
  destruct (@segment_chart_adds_up example_coercions sample_raw
              sample_prepared example_criteria sample_view)
    as (d & chart & Hd & Hm & Hsum & Hbars & Hord).
  - unfold wf. lit.
  - by vm_compute.
  - by vm_compute.
  - unfold segment_columns. columns_present.
  - exists d, chart. split; [done|]. split; [done|].
    destruct Hsum as [Hs Hq]; [vm_compute; reflexivity|].
    by repeat split.
Defined.

(** X23. Lines 86, 120-135 and 163: a view without rows is no error: tab 1
    shows "No data available", the rollup is empty with totals of 0, the
    overall AOV is NaN and the JazzWallet report says that there are no
    transactions. *)
Theorem empty_view_is_no_error `{Coercions} `{Sorter} raw df c df_f :
  wf raw → load_data raw = Ok df → apply_filters df c = Ok df_f →
  (∀ col, col ∈ rollup_columns →
     is_Some (columns (strip_columns raw) !! col)) →
  is_Some (columns (strip_columns raw) !! "id") →
  is_Some (columns (strip_columns raw) !! "payment_method") →
  rows df_f = [] →
  tab1 df_f = Ok NoData ∧
  prod_agg df_f = Ok [] ∧
  kpis df_f
  = Ok {| total_before := 0; total_after := 0; total_net := 0;
          total_qty := 0; kpi_unique_customers := 0;
          aov_overall := NotANumber |} ∧
  mobile_jazz_report df_f = Ok NoTransactions.
Proof.
  intros Hwf Hload Hf Hcols Hid Hpay Hnil.
  assert (Hpa : prod_agg df_f = Ok []).
  { rewrite (prod_agg_spec _ _ _ _ Hwf Hload Hf Hcols), Hnil.
    change (product_groups []) with (@nil ProductRow).
    by rewrite take_rows_nil. }
  split; [|split; [done|split]].
  - rewrite (tab1_spec _ _ _ _ Hwf Hload Hf Hid) by (apply Hcols; lit).
    by rewrite Hnil.
  - unfold kpis. rewrite Hpa. cbn [mbind result_bind].
    rewrite (filtered_ids raw df c df_f "customer_id"),
      (filtered_ids raw df c df_f "id");
      try done; try (intros Hin; absurd_lit); try (apply Hcols; lit).
    by rewrite Hnil.
  - destruct (mobile_jazz_report_spec _ _ _ _ Hwf Hload Hf)
      as (d & _ & Hrows & ->).
    + intros col Hin. unfold segment_columns in Hin.
      repeat (apply elem_of_cons in Hin as [->|Hin];
              [done || (apply Hcols; lit)|]).
      by apply elem_of_nil in Hin.
    + by rewrite Hrows, Hnil.
Qed.

Lemma empty_view_is_no_error_witness :
  @tab1 example_coercions empty_view = Ok NoData ∧
  @prod_agg stable_sorter empty_view = Ok [] ∧
  @kpis example_coercions stable_sorter empty_view
  = Ok {| total_before := 0; total_after := 0; total_net := 0;
          total_qty := 0; kpi_unique_customers := 0;
          aov_overall := NotANumber |} ∧
  @mobile_jazz_report example_coercions empty_view = Ok NoTransactions.
Proof.
  apply (@empty_view_is_no_error example_coercions stable_sorter sample_raw
           sample_prepared unmet_criteria).
  - unfold wf. lit.
  - by vm_compute.
  - by vm_compute.
  - unfold rollup_columns. columns_present.
  - lit.
  - lit.
  - by vm_compute.
Defined.
